(** * WordPress bulk blog uploader: the reconciliation engine

    A shallow embedding of [bulk-upload.js] (the create-or-update engine,
    its term, media and identity resolvers and the batch driver) and the
    properties its specification states about it.

    JavaScript strings are sequences of UTF-16 code units; they are
    modelled as lists of [N].  The remote WordPress site, the file system,
    the image hosts and the library functions of the runtime that are
    not embedded are collaborators: they appear as a record of reply
    functions over an abstract world. *)

From Stdlib Require Import ZArith NArith List Ascii String Bool Lia.
From Stdlib Require Import DecimalString.
From stdpp Require Import base option list strings gmap.
Import ListNotations.

Local Open Scope N_scope.

(** ** Strings *)

Abbreviation jsstring := (list N).

(** A string literal of the source, as code units. *)
Definition js (s : string) : jsstring :=
  List.map N_of_ascii (list_ascii_of_string s).

Definition LT_SIGN : N := 60.
Definition GT_SIGN : N := 62.
Definition AMPERSAND : N := 38.
Definition SEMICOLON : N := 59.
Definition SPACE : N := 32.
Definition COMMA : N := 44.

(** The class [\s] of a regular expression, which is also what
    [String.prototype.trim] strips: WhiteSpace and LineTerminator. *)
Definition isSpace (c : N) : bool :=
  ((9 <=? c) && (c <=? 13)) || (c =? 32) || (c =? 160) || (c =? 5760)
  || ((8192 <=? c) && (c <=? 8202)) || (c =? 8232) || (c =? 8233)
  || (c =? 8239) || (c =? 8287) || (c =? 12288) || (c =? 65279).

Fixpoint trimStart (s : jsstring) : jsstring :=
  match s with
  | [] => []
  | c :: r => if isSpace c then trimStart r else s
  end.

Fixpoint trimEnd (s : jsstring) : jsstring :=
  match s with
  | [] => []
  | c :: r =>
      match trimEnd r with
      | [] => if isSpace c then [] else [c]
      | t => c :: t
      end
  end.

(** [String.prototype.trim]. *)
Definition trim (s : jsstring) : jsstring := trimEnd (trimStart s).

(** The case map of Basic Latin: [A] to [Z] go to [a] to [z].  This is
    what [String.prototype.toLowerCase] does to a string of code units
    below 128, and no more than that: the method follows the Unicode case
    tables, some of its mappings change the length of a string and one
    depends on the letters around.  The method is the runtime's; the
    engine gets it as a collaborator, [toLowerCase] below. *)
Definition lowerUnit (c : N) : N :=
  if (65 <=? c) && (c <=? 90) then c + 32 else c.

Definition asciiLowerCase (s : jsstring) : jsstring := List.map lowerUnit s.

(** [===] on strings. *)
Fixpoint strEq (a b : jsstring) : bool :=
  match a, b with
  | [], [] => true
  | x :: a', y :: b' => (x =? y) && strEq a' b'
  | _, _ => false
  end.

(** [String.prototype.startsWith]. *)
Fixpoint startsWith (s lit : jsstring) : bool :=
  match lit, s with
  | [], _ => true
  | x :: lit', y :: s' => (x =? y) && startsWith s' lit'
  | _ :: _, [] => false
  end.

(** A string is falsy exactly when it is empty. *)
Definition truthyStr (s : jsstring) : bool :=
  match s with [] => false | _ => true end.

(** Number of code units before the first occurrence of [c]. *)
Fixpoint indexOfUnit (c : N) (s : jsstring) : option nat :=
  match s with
  | [] => None
  | x :: r => if x =? c then Some O else option_map S (indexOfUnit c r)
  end.

Fixpoint spanSpaces (s : jsstring) : nat :=
  match s with
  | [] => O
  | c :: r => if isSpace c then S (spanSpaces r) else O
  end.

(** ** Global regular-expression replace

    [str.replace(/re/g, rep)] scans left to right; where the expression
    matches at the current position the match is replaced and the scan
    resumes after it, otherwise the code unit is copied.  A matcher gives
    the length of the match at the head of its argument.  [skip] counts
    the code units of the current match still to be dropped. *)

Fixpoint replaceAll (m : jsstring -> option nat) (rep : jsstring)
    (skip : nat) (s : jsstring) : jsstring :=
  match s with
  | [] => []
  | c :: r =>
      match skip with
      | S k => replaceAll m rep k r
      | O =>
          match m s with
          | Some (S k) => rep ++ replaceAll m rep k r
          | _ => c :: replaceAll m rep O r
          end
      end
  end.

(** [/<[^>]*>/] *)
Definition matchTag (s : jsstring) : option nat :=
  match s with
  | c :: r =>
      if c =? LT_SIGN then option_map (fun n => S (S n)) (indexOfUnit GT_SIGN r)
      else None
  | [] => None
  end.

(** [/&[^;]+;/] *)
Definition matchEntity (s : jsstring) : option nat :=
  match s with
  | c :: r =>
      if c =? AMPERSAND then
        match indexOfUnit SEMICOLON r with
        | Some (S n) => Some (S (S (S n)))
        | _ => None
        end
      else None
  | [] => None
  end.

(** [/\s+/] *)
Definition matchSpaces (s : jsstring) : option nat :=
  match spanSpaces s with
  | O => None
  | n => Some n
  end.

(** A literal pattern such as [/&nbsp;/]. *)
Definition matchLit (lit : jsstring) (s : jsstring) : option nat :=
  if startsWith s lit then Some (length lit) else None.

(** [normalizeTitle], the closure of [findPostByTitle]; [toLowerCase] is
    the method of the runtime. *)
Definition normalizeTitle (toLowerCase : jsstring -> jsstring)
    (str : jsstring) : jsstring :=
  if negb (truthyStr str) then []
  else
    let s1 := replaceAll matchTag [] O str in
    let s2 := replaceAll (matchLit (js "&nbsp;")) (js " ") O s1 in
    let s3 := replaceAll (matchLit (js "&amp;")) (js "&") O s2 in
    let s4 := replaceAll (matchLit (js "&quot;")) [34] O s3 in
    let s5 := replaceAll (matchLit (js "&#8217;")) (js "'") O s4 in
    let s6 := replaceAll (matchLit (js "&#8216;")) (js "'") O s5 in
    let s7 := replaceAll (matchLit (js "&#39;")) (js "'") O s6 in
    let s8 := replaceAll (matchLit (js "&#038;")) (js "&") O s7 in
    let s9 := replaceAll matchEntity [] O s8 in
    let s10 := replaceAll matchSpaces (js " ") O s9 in
    trim (toLowerCase s10).


(** [String.prototype.split] on a one-unit separator. *)
Fixpoint splitOn (sep : N) (s : jsstring) : list jsstring :=
  match s with
  | [] => [[]]
  | c :: r =>
      if c =? sep then [] :: splitOn sep r
      else match splitOn sep r with
           | h :: t => (c :: h) :: t
           | [] => [[c]]
           end
  end.

(** Template-literal rendering of an integer. *)
Definition numToString (z : Z) : jsstring :=
  js (NilZero.string_of_int (Z.to_int z)).

(** Truthiness of a number: zero is falsy. *)
Definition truthyNum (z : Z) : bool := negb (z =? 0)%Z.

(** A CSV field is [undefined] when its column is absent. [x?.trim()] is
    then [undefined], which is falsy like the empty string. *)
Definition optTrim (o : option jsstring) : jsstring :=
  match o with
  | Some s => trim s
  | None => []
  end.

(** [a || b] on possibly-undefined strings; [undefined] when both are falsy
    and [b] is absent. *)
Definition orElse (a b : option jsstring) : option jsstring :=
  match a with
  | Some (_ :: _) => a
  | _ => b
  end.

(** ** Data model *)

Inductive Taxonomy := Categories | Tags.

Record Term := { term_id : Z; term_name : jsstring }.

(** The [title] member of a post of the REST API: an object with a
    [rendered] and, in edit context, a [raw] member; the lookup also
    provides for a plain string and for a missing member. *)
Inductive TitleField :=
  | TitleObject (rendered raw : option jsstring)
  | TitleString (s : jsstring)
  | TitleAbsent.

Record Post := {
  post_id : Z;
  post_slug : jsstring;
  post_title : TitleField;
  post_status : jsstring
}.

Record MediaFile := {
  fileBuffer : list N;
  fileName : jsstring;
  mimeType : jsstring
}.

(** A thrown error: its [message] and, for a failed request that got a
    reply, the serialized [response.data]. *)
Record JsError := {
  err_message : jsstring;
  err_response_data : option jsstring
}.

Definition newError (msg : jsstring) : JsError :=
  {| err_message := msg; err_response_data := None |}.

Inductive Reply (A : Type) :=
  | Ok (a : A)
  | Fail (e : JsError).
Arguments Ok {A} a.
Arguments Fail {A} e.

Inductive FileRead :=
  | FileMissing
  | FileContents (f : MediaFile)
  | FileThrows (e : JsError).

Record Row := {
  row_title : option jsstring;
  row_content : option jsstring;
  row_status : option jsstring;
  row_slug : option jsstring;
  row_excerpt : option jsstring;
  row_meta_description : option jsstring;
  row_focus_keyword : option jsstring;
  row_primary_keyword : option jsstring;
  row_seo_title : option jsstring;
  row_og_title : option jsstring;
  row_og_description : option jsstring;
  row_twitter_title : option jsstring;
  row_twitter_description : option jsstring;
  row_canonical_url : option jsstring;
  row_noindex : option jsstring;
  row_nofollow : option jsstring;
  row_schema_json : option jsstring;
  row_acf_json : option jsstring;
  row_categories : option jsstring;
  row_tags : option jsstring;
  row_featured_image_path : option jsstring;
  row_featured_image_url : option jsstring
}.

Inductive MetaVal :=
  | MStr (s : jsstring)
  | MArr (l : list jsstring).

(** [postData].  A parsed JSON value is carried as its serialization. *)
Record PostData := {
  pd_title : jsstring;
  pd_content : jsstring;
  pd_status : jsstring;
  pd_slug : option jsstring;
  pd_excerpt : option jsstring;
  pd_meta : gmap string MetaVal;
  pd_acf : option jsstring;
  pd_categories : option (list Z);
  pd_tags : option (list Z);
  pd_featured_media : option Z
}.

(** The body of the reply to a post write: the post, or nothing ([null]
    or [undefined]).  Reading [response.data.id] of no body throws a
    [TypeError]; its message is the runtime's and comes with the reply. *)
Inductive WriteBody :=
  | PostBody (post : Post)
  | NoBody (typeError : jsstring).

Inductive Action := created | updated.

Record RowResult := {
  rowNumber : N;
  res_title : jsstring;
  action : option Action;
  postId : option Z;
  res_status : option jsstring;
  error : option jsstring
}.

(** What the [try] block of [createOrUpdatePost] comes to: it ran to its
    end and filled [result] in, or it threw, [result.action] being what
    it was at the throw. *)
Inductive Attempt :=
  | Completed (done : RowResult)
  | Thrown (e : JsError) (action : option Action).

Record Summary := {
  total : nat;
  success : nat;
  failed : nat;
  results : list RowResult
}.

(** ** Collaborators

    The site behind the REST API, the file system, the image hosts and
    two functions of the runtime.  A read is a function of the world; a
    write also yields the next world.  [JSON_parse] gives the
    serialization of the parsed value; [toLowerCase] is
    [String.prototype.toLowerCase]. *)
Record Collaborators := {
  World : Type;
  JSON_parse : jsstring -> option jsstring;
  toLowerCase : jsstring -> jsstring;
  get_posts_probe : World -> Reply (list Post);
  get_terms : World -> Taxonomy -> jsstring -> Reply (list Term);
  post_term : World -> Taxonomy -> jsstring -> Reply Term * World;
  get_image : World -> jsstring -> Reply MediaFile;
  read_file : World -> jsstring -> FileRead;
  post_media : World -> MediaFile -> Reply Z * World;
  get_posts_by_slug : World -> jsstring -> Reply (list Post);
  get_posts_page : World -> N -> Reply (list Post);
  post_post : World -> option Z -> PostData -> Reply WriteBody * World;
  write_log : World -> list RowResult -> Reply unit
}.

Record Config := {
  DEFAULT_STATUS : jsstring;
  REQUEST_DELAY_MS : Z
}.

(** ** Traces *)

Inductive Request :=
  | GetPostsProbe
  | GetTerms (tax : Taxonomy) (search : jsstring)
  | PostTerm (tax : Taxonomy) (name : jsstring)
  | GetImage (url : jsstring)
  | PostMedia (f : MediaFile)
  | GetPostsBySlug (slug : jsstring)
  | GetPostsPage (page : N)
  | PostPost (target : option Z) (pd : PostData).

Inductive Event :=
  | Sleep (ms : Z)
  | Call (r : Request).

Definition isWrite (r : Request) : bool :=
  match r with
  | PostTerm _ _ | PostMedia _ | PostPost _ _ => true
  | _ => false
  end.

Definition isPostWrite (e : Event) : bool :=
  match e with
  | Call (PostPost _ _) => true
  | _ => false
  end.

Definition isWriteEvent (e : Event) : bool :=
  match e with
  | Call r => isWrite r
  | Sleep _ => false
  end.

Definition isReadEvent (e : Event) : bool :=
  match e with
  | Call r => negb (isWrite r)
  | Sleep _ => false
  end.

(** ** The engine *)

Section Engine.

Context (C : Collaborators) (cfg : Config).

(** The world, the calls and sleeps so far (newest first), and the
    module-level [logResults]. *)
Record State := {
  world : World C;
  trace : list Event;
  logResults : list RowResult
}.

Definition M (A : Type) : Type := State -> A * State.

Definition ret {A} (a : A) : M A := fun st => (a, st).

Definition bind {A B} (m : M A) (k : A -> M B) : M B :=
  fun st => let (a, st') := m st in k a st'.

Notation "'let*' x ':=' m 'in' k" := (bind m (fun x => k))
  (at level 10, x pattern, m at level 100, k at level 200).

Definition record (e : Event) : M unit :=
  fun st => (tt, {| world := world st; trace := e :: trace st;
                    logResults := logResults st |}).

(** [await sleep(ms)] *)
Definition sleep (ms : Z) : M unit := record (Sleep ms).

(** A read request: logged, answered from the world. *)
Definition readCall {A} (r : Request) (f : World C -> Reply A) : M (Reply A) :=
  let* _ := record (Call r) in
  fun st => (f (world st), st).

(** A write request: logged, answered by the world, which moves on. *)
Definition writeCall {A} (r : Request) (f : World C -> Reply A * World C)
    : M (Reply A) :=
  let* _ := record (Call r) in
  fun st =>
    let (a, w) := f (world st) in
    (a, {| world := w; trace := trace st; logResults := logResults st |}).

(** [checkConnectivity] *)
Definition checkConnectivity : M bool :=
  let* resp := readCall GetPostsProbe (get_posts_probe C) in
  match resp with
  | Ok _ => ret true
  | Fail _ => ret false
  end.

(** [getOrCreateTerm]; [None] is [null]. *)
Definition getOrCreateTerm (name : jsstring) (taxonomy : Taxonomy)
    : M (option Z) :=
  if negb (truthyStr (trim name)) then ret None
  else
    let trimmedName := trim name in
    let* searchResponse :=
      readCall (GetTerms taxonomy trimmedName)
               (fun w => get_terms C w taxonomy trimmedName) in
    match searchResponse with
    | Fail _ => ret None
    | Ok data =>
        match List.find (fun term => strEq (toLowerCase C (term_name term))
                                           (toLowerCase C trimmedName)) data with
        | Some existing => ret (Some (term_id existing))
        | None =>
            let* _ := sleep (REQUEST_DELAY_MS cfg) in
            let* createResponse :=
              writeCall (PostTerm taxonomy trimmedName)
                        (fun w => post_term C w taxonomy trimmedName) in
            match createResponse with
            | Ok term => ret (Some (term_id term))
            | Fail _ => ret None
            end
        end
    end.

(** The [for (const name of names)] loop of [resolveTerms]. *)
Fixpoint resolveNames (names : list jsstring) (taxonomy : Taxonomy)
    (termIds : list Z) : M (list Z) :=
  match names with
  | [] => ret termIds
  | name :: rest =>
      let* id := getOrCreateTerm name taxonomy in
      let termIds' :=
        match id with
        | Some i => if truthyNum i then termIds ++ [i] else termIds
        | None => termIds
        end in
      let* _ := sleep (REQUEST_DELAY_MS cfg) in
      resolveNames rest taxonomy termIds'
  end.

(** [resolveTerms] *)
Definition resolveTerms (termString : jsstring) (taxonomy : Taxonomy)
    : M (list Z) :=
  if negb (truthyStr (trim termString)) then ret []
  else
    let names := List.filter truthyStr (List.map trim (splitOn COMMA termString)) in
    resolveNames names taxonomy [].

(** [downloadImageFromUrl]; the content type and file name it derives are
    part of the collaborator's reply. *)
Definition downloadImageFromUrl (imageUrl : jsstring) : M (option MediaFile) :=
  let* response := readCall (GetImage imageUrl) (fun w => get_image C w imageUrl) in
  match response with
  | Ok f => ret (Some f)
  | Fail _ => ret None
  end.

(** [uploadMedia]; [fs.readFileSync] is outside its [try], so a read error
    is thrown to the caller. *)
Definition uploadMedia (filePathOrUrl : jsstring) : M (Reply (option Z)) :=
  if negb (truthyStr (trim filePathOrUrl)) then ret (Ok None)
  else
    let* file :=
      (if startsWith (trim filePathOrUrl) (js "http://")
          || startsWith (trim filePathOrUrl) (js "https://")
       then
         let* downloaded := downloadImageFromUrl (trim filePathOrUrl) in
         match downloaded with
         | None => ret (Ok None)
         | Some f => ret (Ok (Some f))
         end
       else
         fun st =>
           (match read_file C (world st) filePathOrUrl with
            | FileMissing => Ok None
            | FileContents f => Ok (Some f)
            | FileThrows e => Fail e
            end, st)) in
    match file with
    | Fail e => ret (Fail e)
    | Ok None => ret (Ok None)
    | Ok (Some f) =>
        let* _ := sleep (REQUEST_DELAY_MS cfg) in
        let* response := writeCall (PostMedia f) (fun w => post_media C w f) in
        match response with
        | Ok id => ret (Ok (Some id))
        | Fail _ => ret (Ok None)
        end
    end.

(** [findPostBySlug] *)
Definition findPostBySlug (slug : jsstring) : M (option Z) :=
  if negb (truthyStr (trim slug)) then ret None
  else
    let* response :=
      readCall (GetPostsBySlug (trim slug))
               (fun w => get_posts_by_slug C w (trim slug)) in
    match response with
    | Ok (post :: _) => ret (Some (post_id post))
    | Ok [] => ret None
    | Fail _ => ret None
    end.

(** [post.title?.rendered || post.title?.raw || post.title || '']; [None]
    when the chain ends on the title object itself, which is truthy and not
    a string. *)
Definition postTitleRaw (post : Post) : option jsstring :=
  match post_title post with
  | TitleObject rendered raw =>
      match orElse rendered raw with
      | Some (c :: s) => Some (c :: s)
      | _ => None
      end
  | TitleString s => Some s
  | TitleAbsent => Some []
  end.

Inductive PageScan :=
  | PageHit (id : Z)
  | PageMiss
  | PageThrew.

(** The [for (const post of response.data)] loop of [findPostByTitle];
    [normalizeTitle] of a non-string throws a [TypeError]. *)
Fixpoint scanPage (normalizedSearchTitle : jsstring) (posts : list Post)
    : PageScan :=
  match posts with
  | [] => PageMiss
  | post :: rest =>
      match postTitleRaw post with
      | None => PageThrew
      | Some raw =>
          if strEq (normalizeTitle (toLowerCase C) raw) normalizedSearchTitle
          then PageHit (post_id post)
          else scanPage normalizedSearchTitle rest
      end
  end.

Definition perPage : nat := 100.

Inductive ScanResult :=
  | ScanFound (id : Z)
  | ScanNone
  | ScanThrew
  | ScanUnfinished.

(** The [while (hasMore)] loop of [findPostByTitle].  The loop leaves once
    [page] exceeds 10, so ten rounds are enough; [ScanUnfinished] marks a
    run cut short by [fuel]. *)
Fixpoint scanLoop (fuel : nat) (normalizedSearchTitle : jsstring) (page : N)
    : M ScanResult :=
  match fuel with
  | O => ret ScanUnfinished
  | S fuel' =>
      let* response :=
        readCall (GetPostsPage page) (fun w => get_posts_page C w page) in
      match response with
      | Fail _ => ret ScanThrew
      | Ok [] => ret ScanNone
      | Ok data =>
          match scanPage normalizedSearchTitle data with
          | PageHit id => ret (ScanFound id)
          | PageThrew => ret ScanThrew
          | PageMiss =>
              if (length data <? perPage)%nat then ret ScanNone
              else if 10 <? page + 1 then ret ScanNone
              else scanLoop fuel' normalizedSearchTitle (page + 1)
          end
      end
  end.

(** [findPostByTitle]; its [catch] turns every failure into [null]. *)
Definition findPostByTitle (title : jsstring) : M (option Z) :=
  if negb (truthyStr (trim title)) then ret None
  else
    let normalizedSearchTitle := normalizeTitle (toLowerCase C) title in
    let* r := scanLoop 10 normalizedSearchTitle 1 in
    match r with
    | ScanFound id => ret (Some id)
    | ScanNone | ScanThrew | ScanUnfinished => ret None
    end.

(** *** [createOrUpdatePost] *)

Definition missingTitle : jsstring := js "Missing required field: title".
Definition missingContent : jsstring := js "Missing required field: content".

(** The error raised for a duplicate title. *)
Definition duplicateMessage (title : jsstring) (id : Z) : jsstring :=
  js "Post with title " ++ [34] ++ title ++ [34] ++ js " already exists (ID: "
  ++ numToString id ++ js "). Duplicate posts are not allowed.".

(** The two [throw]s that open the [try] block. *)
Definition validateRow (row : Row) : Reply unit :=
  if negb (truthyStr (optTrim (row_title row))) then Fail (newError missingTitle)
  else if negb (truthyStr (optTrim (row_content row))) then Fail (newError missingContent)
  else Ok tt.

(** [if (field?.trim()) meta[key] = field.trim()] *)
Definition setTrimmed (key : string) (field : option jsstring)
    (meta : gmap string MetaVal) : gmap string MetaVal :=
  if truthyStr (optTrim field) then <[key := MStr (optTrim field)]> meta else meta.

(** The focus keyword block: the guard looks at the trimmed fields, the
    choice [row.focus_keyword || row.primary_keyword] at the fields as
    they are.  Under the guard the chosen operand is a string. *)
Definition setKeyword (row : Row) (meta : gmap string MetaVal)
    : gmap string MetaVal :=
  if truthyStr (optTrim (row_focus_keyword row))
     || truthyStr (optTrim (row_primary_keyword row))
  then
    let keyword := optTrim (orElse (row_focus_keyword row) (row_primary_keyword row)) in
    <["rank_math_focus_keyword" := MStr keyword]>
      (<["_yoast_wpseo_focuskw" := MStr keyword]> meta)
  else meta.

(** [field?.trim() && field.toLowerCase() === 'yes'] *)
Definition saysYes (field : option jsstring) : bool :=
  match field with
  | Some s => truthyStr (trim s) && strEq (toLowerCase C s) (js "yes")
  | None => false
  end.

(** Six statements of the source have a name with a hyphen after the
    dot, as in line 467:
    [postData.meta._yoast_wpseo_meta-robots-noindex = '1'].  The hyphen is
    the subtraction operator, so the left side is a difference and not a
    member of [postData.meta]: no parser accepts the statement, and the
    code as given stores nothing under such a name (lines 441, 446, 451,
    456, 467 and 471).  The blocks below hold what the rest of each block
    stores. *)

(** The [noindex] block (lines 466 to 469): Rank Math's array. *)
Definition setNoindex (row : Row) (meta : gmap string MetaVal)
    : gmap string MetaVal :=
  if saysYes (row_noindex row) then
    <["rank_math_robots" := MArr [js "noindex"]]> meta
  else meta.

(** The [nofollow] block (lines 470 to 477); only arrays are stored under
    [rank_math_robots], so the branch for a string is not reached. *)
Definition setNofollow (row : Row) (meta : gmap string MetaVal)
    : gmap string MetaVal :=
  if saysYes (row_nofollow row) then
    match meta !! "rank_math_robots" with
    | Some (MArr robots) =>
        <["rank_math_robots" := MArr (robots ++ [js "nofollow"])]> meta
    | Some (MStr _) => meta
    | None => <["rank_math_robots" := MArr [js "nofollow"]]> meta
    end
  else meta.

(** The [schema_json] block; a parse error is logged and the field
    dropped. *)
Definition setSchema (row : Row) (meta : gmap string MetaVal)
    : gmap string MetaVal :=
  if truthyStr (optTrim (row_schema_json row)) then
    match JSON_parse C (default [] (row_schema_json row)) with
    | Some schemaData => <["_schema_json" := MStr schemaData]> meta
    | None => meta
    end
  else meta.

(** [postData.meta], built from the empty object in source order.  The
    Open Graph and Twitter blocks (lines 439 to 457) consist of a guard
    and one of the six statements above: they store nothing. *)
Definition buildMeta (row : Row) : gmap string MetaVal :=
  let m0 : gmap string MetaVal := ∅ in
  let m1 := setTrimmed "rank_math_description" (row_meta_description row)
              (setTrimmed "_yoast_wpseo_metadesc" (row_meta_description row) m0) in
  let m2 := setKeyword row m1 in
  let m3 := setTrimmed "rank_math_title" (row_seo_title row)
              (setTrimmed "_yoast_wpseo_title" (row_seo_title row) m2) in
  let m8 := setTrimmed "rank_math_canonical_url" (row_canonical_url row)
              (setTrimmed "_yoast_wpseo_canonical" (row_canonical_url row) m3) in
  let m9 := setNoindex row m8 in
  let m10 := setNofollow row m9 in
  setSchema row m10.

(** [postData] before the remote lookups: the core fields, the SEO meta
    and the ACF object. *)
Definition preparePostData (row : Row) : PostData :=
  {| pd_title := optTrim (row_title row);
     pd_content := optTrim (row_content row);
     pd_status :=
       if truthyStr (optTrim (row_status row)) then optTrim (row_status row)
       else DEFAULT_STATUS cfg;
     pd_slug :=
       if truthyStr (optTrim (row_slug row)) then Some (optTrim (row_slug row))
       else None;
     pd_excerpt :=
       if truthyStr (optTrim (row_excerpt row)) then Some (optTrim (row_excerpt row))
       else None;
     pd_meta := buildMeta row;
     pd_acf :=
       if truthyStr (optTrim (row_acf_json row))
       then JSON_parse C (default [] (row_acf_json row))
       else None;
     pd_categories := None;
     pd_tags := None;
     pd_featured_media := None |}.

Definition withCategories (pd : PostData) (ids : list Z) : PostData :=
  {| pd_title := pd_title pd; pd_content := pd_content pd;
     pd_status := pd_status pd; pd_slug := pd_slug pd;
     pd_excerpt := pd_excerpt pd; pd_meta := pd_meta pd; pd_acf := pd_acf pd;
     pd_categories := Some ids; pd_tags := pd_tags pd;
     pd_featured_media := pd_featured_media pd |}.

Definition withTags (pd : PostData) (ids : list Z) : PostData :=
  {| pd_title := pd_title pd; pd_content := pd_content pd;
     pd_status := pd_status pd; pd_slug := pd_slug pd;
     pd_excerpt := pd_excerpt pd; pd_meta := pd_meta pd; pd_acf := pd_acf pd;
     pd_categories := pd_categories pd; pd_tags := Some ids;
     pd_featured_media := pd_featured_media pd |}.

Definition withFeaturedMedia (pd : PostData) (id : Z) : PostData :=
  {| pd_title := pd_title pd; pd_content := pd_content pd;
     pd_status := pd_status pd; pd_slug := pd_slug pd;
     pd_excerpt := pd_excerpt pd; pd_meta := pd_meta pd; pd_acf := pd_acf pd;
     pd_categories := pd_categories pd; pd_tags := pd_tags pd;
     pd_featured_media := Some id |}.

(** Categories, tags and the featured image: the lookups and uploads that
    come before the duplicate check. *)
Definition resolveCategories (row : Row) (pd : PostData) : M PostData :=
  if truthyStr (optTrim (row_categories row)) then
    let* categoryIds := resolveTerms (default [] (row_categories row)) Categories in
    ret (if (0 <? length categoryIds)%nat then withCategories pd categoryIds else pd)
  else ret pd.

Definition resolveTags (row : Row) (pd : PostData) : M PostData :=
  if truthyStr (optTrim (row_tags row)) then
    let* tagIds := resolveTerms (default [] (row_tags row)) Tags in
    ret (if (0 <? length tagIds)%nat then withTags pd tagIds else pd)
  else ret pd.

Definition resolveFeaturedImage (row : Row) (pd : PostData) : M (Reply PostData) :=
  let imagePath :=
    if truthyStr (optTrim (row_featured_image_path row))
    then optTrim (row_featured_image_path row)
    else optTrim (row_featured_image_url row) in
  if truthyStr imagePath then
    let* mediaId := uploadMedia imagePath in
    match mediaId with
    | Fail e => ret (Fail e)
    | Ok (Some id) => ret (Ok (if truthyNum id then withFeaturedMedia pd id else pd))
    | Ok None => ret (Ok pd)
    end
  else ret (Ok pd).

Definition enrichPostData (row : Row) (pd : PostData) : M (Reply PostData) :=
  let* pd1 := resolveCategories row pd in
  let* pd2 := resolveTags row pd1 in
  resolveFeaturedImage row pd2.

(** The duplicate check: [findPostByTitle], and the [throw] on a truthy
    result. *)
Definition checkDuplicate (postData : PostData) : M (Reply unit) :=
  let* existingPostByTitle := findPostByTitle (pd_title postData) in
  match existingPostByTitle with
  | Some dup =>
      if truthyNum dup
      then ret (Fail (newError (duplicateMessage (pd_title postData) dup)))
      else ret (Ok tt)
  | None => ret (Ok tt)
  end.

(** The slug lookup, the delay and the write.  [result.action] is
    assigned before [response.data.id] is read (lines 547 and 548, 556
    and 557): a reply without a body throws there, the action set. *)
Definition writePost (result : RowResult) (postData : PostData)
    : M Attempt :=
  let* existingPostId :=
    match pd_slug postData with
    | Some (c :: s) => findPostBySlug (c :: s)
    | _ => ret None
    end in
  let* _ := sleep (REQUEST_DELAY_MS cfg) in
  let target :=
    match existingPostId with
    | Some id => if truthyNum id then Some id else None
    | None => None
    end in
  let* response :=
    writeCall (PostPost target postData)
              (fun w => post_post C w target postData) in
  let done := match target with
              | Some _ => updated
              | None => created
              end in
  match response with
  | Fail e => ret (Thrown e None)
  | Ok (NoBody typeError) => ret (Thrown (newError typeError) (Some done))
  | Ok (PostBody post) =>
      ret (Completed {| rowNumber := rowNumber result;
                        res_title := res_title result;
                        action := Some done;
                        postId := Some (post_id post);
                        res_status := Some (post_status post);
                        error := None |})
  end.

(** The body of the [try] block. *)
Definition tryCreateOrUpdate (row : Row) (result : RowResult)
    : M Attempt :=
  match validateRow row with
  | Fail e => ret (Thrown e None)
  | Ok _ =>
      let* enriched := enrichPostData row (preparePostData row) in
      match enriched with
      | Fail e => ret (Thrown e None)
      | Ok postData =>
          let* guard := checkDuplicate postData in
          match guard with
          | Fail e => ret (Thrown e None)
          | Ok _ => writePost result postData
          end
      end
  end.

(** The text stored by the [catch] block. *)
Definition errorText (e : JsError) : jsstring :=
  match err_response_data e with
  | Some (c :: data) => err_message e ++ js ": " ++ (c :: data)
  | _ => err_message e
  end.

Definition createOrUpdatePost (row : Row) (rowNumber : N) : M RowResult :=
  let result :=
    {| rowNumber := rowNumber;
       res_title := match row_title row with
                    | Some (c :: s) => c :: s
                    | _ => js "Untitled"
                    end;
       action := None; postId := None; res_status := None; error := None |} in
  let* outcome := tryCreateOrUpdate row result in
  match outcome with
  | Completed done => ret done
  | Thrown e action =>
      ret {| rowNumber := rowNumber; res_title := res_title result;
             action := action; postId := None; res_status := None;
             error := Some (errorText e) |}
  end.

(** *** The batch driver *)

Definition pushLogResult (r : RowResult) : M unit :=
  fun st => (tt, {| world := world st; trace := trace st;
                    logResults := logResults st ++ [r] |}).

Definition resetLogResults : M unit :=
  fun st => (tt, {| world := world st; trace := trace st; logResults := [] |}).

Definition getLogResults : M (list RowResult) :=
  fun st => (logResults st, st).

(** [for (let i = 0; i < rows.length; i++)], from index [i] on. *)
Fixpoint processRows (rows : list Row) (i : N) : M unit :=
  match rows with
  | [] => ret tt
  | row :: rest =>
      let* result := createOrUpdatePost row (i + 1) in
      let* _ := pushLogResult result in
      processRows rest (i + 1)
  end.

(** [r.error] as a condition: [null] and the empty string are falsy. *)
Definition hasError (r : RowResult) : bool :=
  match error r with
  | Some (_ :: _) => true
  | _ => false
  end.

(** [processCsvFile], given what [loadCsv] delivered.  A failure to write
    the log file is caught there and changes nothing; the write is left
    out. *)
Definition processCsvFile (loaded : Reply (list Row)) : M (Reply Summary) :=
  let* _ := resetLogResults in
  let* isConnected := checkConnectivity in
  if negb isConnected then
    ret (Fail (newError
      (js "WordPress REST API is not accessible. Check your configuration.")))
  else
    match loaded with
    | Fail e => ret (Fail (newError (js "Failed to load CSV: " ++ err_message e)))
    | Ok [] => ret (Fail (newError (js "CSV file is empty")))
    | Ok rows =>
        let* _ := processRows rows 0 in
        let* log := getLogResults in
        ret (Ok {| total := length rows;
                   success := length (List.filter (fun r => negb (hasError r)) log);
                   failed := length (List.filter hasError log);
                   results := log |})
    end.

(** [main], given what [loadCsv] delivered; the result is the exit code. *)
Definition main (loaded : Reply (list Row)) : M Z :=
  let* isConnected := checkConnectivity in
  if negb isConnected then ret 1%Z
  else
    match loaded with
    | Fail _ => ret 1%Z
    | Ok [] => ret 0%Z
    | Ok rows =>
        let* _ := processRows rows 0 in
        let* log := getLogResults in
        fun st =>
          match write_log C (world st) log with
          | Fail _ => (1%Z, st)
          | Ok _ =>
              (if (0 <? length (List.filter hasError log))%nat then 1%Z else 0%Z, st)
          end
    end.

End Engine.

Arguments world {C} s.
Arguments trace {C} s.
Arguments logResults {C} s.

(** ** What the specification speaks of *)

(** The posts a title scan can examine in world [w]: pages of 100, newest
    first, any status, from page [page] on, at most [pages] of them, up to
    the first page that is short or is not delivered. *)
Fixpoint scannedFrom (C : Collaborators) (w : World C) (pages : nat) (page : N)
    : list Post :=
  match pages with
  | O => []
  | S k =>
      match get_posts_page C w page with
      | Fail _ => []
      | Ok data =>
          if (length data <? perPage)%nat then data
          else data ++ scannedFrom C w k (page + 1)
      end
  end.

Definition scannedCorpus (C : Collaborators) (w : World C) : list Post :=
  scannedFrom C w 10 1.

(** The remote title of [post] normalizes to [normalized]. *)
Definition titleMatches (C : Collaborators) (normalized : jsstring)
    (post : Post) : bool :=
  match postTitleRaw post with
  | Some raw => strEq (normalizeTitle (toLowerCase C) raw) normalized
  | None => false
  end.

(** A request of the title scan for [normalized] fails: at [page], or at a
    later page that the scan reaches. *)
Inductive ScanRequestFails (C : Collaborators) (w : World C)
    (normalized : jsstring) : N -> Prop :=
  | fails_here page e :
      get_posts_page C w page = Fail e ->
      ScanRequestFails C w normalized page
  | fails_later page data :
      get_posts_page C w page = Ok data ->
      scanPage C normalized data = PageMiss ->
      (perPage <= length data)%nat ->
      page + 1 <= 10 ->
      ScanRequestFails C w normalized (page + 1) ->
      ScanRequestFails C w normalized page.

(** Every write of a trace (newest first) comes right after a sleep of
    [d] milliseconds. *)
Fixpoint delayedWrites (d : Z) (tr : list Event) : bool :=
  match tr with
  | [] => true
  | e :: older =>
      (if isWriteEvent e
       then match older with
            | Sleep ms :: _ => (ms =? d)%Z
            | _ => false
            end
       else true)
      && delayedWrites d older
  end.

(** No read of a trace (newest first) comes right after a sleep. *)
Fixpoint noDelayedRead (tr : list Event) : bool :=
  match tr with
  | [] => true
  | e :: older =>
      (if isReadEvent e
       then match older with
            | Sleep _ :: _ => false
            | _ => true
            end
       else true)
      && noDelayedRead older
  end.

(** After a sleep comes a write or, behind the sleep that [resolveTerms]
    takes after each name, the first thing the row does next: the search
    for the next name, the download of the image, the sleep before the
    upload of a local image, or page 1 of the title scan.  A slug lookup,
    a later page of the scan and the pre-flight request are not among
    them. *)
Definition mayFollowSleep (e : Event) : bool :=
  match e with
  | Sleep _ => true
  | Call (GetTerms _ _) => true
  | Call (GetImage _) => true
  | Call (GetPostsPage page) => page =? 1
  | Call r => isWrite r
  end.

(** In a trace (newest first), what comes right after a sleep is one of
    these. *)
Fixpoint sleepsLeadOn (tr : list Event) : bool :=
  match tr with
  | [] => true
  | e :: older =>
      match older with
      | Sleep _ :: _ => mayFollowSleep e
      | _ => true
      end
      && sleepsLeadOn older
  end.

(** A request of a term resolution: the search or the creation. *)
Definition isTermEvent (e : Event) : bool :=
  match e with
  | Call (GetTerms _ _) | Call (PostTerm _ _) => true
  | _ => false
  end.

(** Why a sleep is in a trace (newest first, [next] the event that came
    after the trace, if any): it lasts [d] milliseconds, and a write
    comes right after it (the delay of the write), or a request of a term
    resolution came right before it (the pause of [resolveTerms] after
    each name). *)
Fixpoint pausesOnly (d : Z) (next : option Event) (tr : list Event) : bool :=
  match tr with
  | [] => true
  | e :: older =>
      match e with
      | Sleep ms =>
          (ms =? d)%Z &&
          (match next with
           | Some after => isWriteEvent after
           | None => false
           end
           || match older with
              | before :: _ => isTermEvent before
              | [] => false
              end)
      | Call _ => true
      end
      && pausesOnly d (Some e) older
  end.

(** The oldest event of a trace is one of these as well, so that the
    trace can follow a trace that ends with a sleep. *)
Definition startsWell (tr : list Event) : bool :=
  mayFollowSleep (List.last tr (Sleep 0)).

(** The store in world [w] keeps a term created under [name]: the reply to
    the creation carries the name as sent, up to letter case, and a search
    for the name right after the creation delivers the new term next to
    terms that the same search delivered before. *)
Definition KeepsCreatedTerm (C : Collaborators) (w : World C)
    (taxonomy : Taxonomy) (name : jsstring) : Prop :=
  forall term w',
    post_term C w taxonomy name = (Ok term, w') ->
    toLowerCase C (term_name term) = toLowerCase C name /\
    exists before after,
      get_terms C w taxonomy name = Ok before /\
      get_terms C w' taxonomy name = Ok after /\
      In term after /\
      forall t, In t after -> t = term \/ In t before.

(** The title shown in a result: [row.title || 'Untitled']. *)
Definition displayTitle (row : Row) : jsstring :=
  match row_title row with
  | Some (c :: s) => c :: s
  | _ => js "Untitled"
  end.

(** The no-index markers of the two SEO plugins. *)
Definition yoastNoindex (meta : gmap string MetaVal) : bool :=
  match meta !! "_yoast_wpseo_meta-robots-noindex" with
  | Some _ => true
  | None => false
  end.

Definition rankMathNoindex (meta : gmap string MetaVal) : bool :=
  match meta !! "rank_math_robots" with
  | Some (MArr robots) => existsb (strEq (js "noindex")) robots
  | _ => false
  end.

(** ** What the properties use of [toLowerCase]

    [String.prototype.toLowerCase] is not embedded.  Where a property
    depends on what it does, the property names what it uses:
    - on code units below 128 the method is the case map of Basic Latin;
    - it leaves the markup characters and the white space where they
      are, turns every other code unit into one or more code units that
      are neither, and does so unit by unit from left to right;
    - applied twice it gives what it gives applied once;
    - it commutes with [trim]: white space has no case, and taking it
      off the two ends changes no letter and no letter's neighbours;
    - its result holds no capital letter of Basic Latin. *)

Definition isBasicLatin (s : jsstring) : bool := forallb (fun c => c <? 128) s.

(** [<], [>], [&], [;] and white space: what the patterns of
    [normalizeTitle] look for. *)
Definition isMarkup (c : N) : bool :=
  (c =? LT_SIGN) || (c =? GT_SIGN) || (c =? AMPERSAND) || (c =? SEMICOLON)
  || isSpace c.

(** [t] is [s] with every code unit that is not markup replaced by one or
    more such code units. *)
Inductive SameMarkup : jsstring -> jsstring -> Prop :=
  | same_nil : SameMarkup [] []
  | same_markup c s t :
      isMarkup c = true -> SameMarkup s t -> SameMarkup (c :: s) (c :: t)
  | same_letters c d ds s t :
      isMarkup c = false ->
      forallb (fun x => negb (isMarkup x)) (d :: ds) = true ->
      SameMarkup s t -> SameMarkup (c :: s) ((d :: ds) ++ t).

Definition LowerOnBasicLatin (lower : jsstring -> jsstring) : Prop :=
  forall s, isBasicLatin s = true -> lower s = asciiLowerCase s.

Definition LowerKeepsMarkup (lower : jsstring -> jsstring) : Prop :=
  forall s, SameMarkup s (lower s).



Definition LowerLeavesNoCapital (lower : jsstring -> jsstring) : Prop :=
  forall s c, In c (lower s) -> lowerUnit c = c.

(** The focus keyword of both plugins. *)
Definition focusKeywords (meta : gmap string MetaVal)
    : option MetaVal * option MetaVal :=
  (meta !! "_yoast_wpseo_focuskw", meta !! "rank_math_focus_keyword").

(** ** A small site to run the engine against

    Its titles and names are Basic Latin, and its [toLowerCase] is the
    case map of Basic Latin. *)

Module TestSite.

Record Site := {
  site_posts : list Post;
  site_terms : list (Taxonomy * Term);
  site_next_id : Z;
  site_listing_down : bool
}.

Definition sameTaxonomy (a b : Taxonomy) : bool :=
  match a, b with
  | Categories, Categories | Tags, Tags => true
  | _, _ => false
  end.

Definition termsOf (s : Site) (taxonomy : Taxonomy) : list Term :=
  List.map snd (List.filter (fun p => sameTaxonomy (fst p) taxonomy) (site_terms s)).

Definition unreachable : JsError := newError (js "connect ECONNREFUSED").

Definition createTerm (s : Site) (taxonomy : Taxonomy) (name : jsstring)
    : Reply Term * Site :=
  let term := {| term_id := site_next_id s; term_name := name |} in
  (Ok term,
   {| site_posts := site_posts s;
      site_terms := site_terms s ++ [(taxonomy, term)];
      site_next_id := site_next_id s + 1;
      site_listing_down := site_listing_down s |}).

Definition createMedia (s : Site) (f : MediaFile) : Reply Z * Site :=
  (Ok (site_next_id s),
   {| site_posts := site_posts s; site_terms := site_terms s;
      site_next_id := site_next_id s + 1;
      site_listing_down := site_listing_down s |}).

Definition writePostTo (s : Site) (target : option Z) (pd : PostData)
    : Reply WriteBody * Site :=
  match target with
  | None =>
      let post := {| post_id := site_next_id s;
                     post_slug := default [] (pd_slug pd);
                     post_title := TitleObject (Some (pd_title pd)) None;
                     post_status := pd_status pd |} in
      (Ok (PostBody post),
       {| site_posts := post :: site_posts s; site_terms := site_terms s;
          site_next_id := site_next_id s + 1;
          site_listing_down := site_listing_down s |})
  | Some id =>
      match List.find (fun p => (post_id p =? id)%Z) (site_posts s) with
      | None => (Fail (newError (js "Request failed with status code 404")), s)
      | Some old =>
          let post := {| post_id := id;
                         post_slug := default (post_slug old) (pd_slug pd);
                         post_title := TitleObject (Some (pd_title pd)) None;
                         post_status := pd_status pd |} in
          (Ok (PostBody post),
           {| site_posts :=
                List.map (fun p => if (post_id p =? id)%Z then post else p)
                         (site_posts s);
              site_terms := site_terms s;
              site_next_id := site_next_id s;
              site_listing_down := site_listing_down s |})
      end
  end.

Definition listPage (s : Site) (page : N) : Reply (list Post) :=
  if site_listing_down s then Fail unreachable
  else Ok (firstn perPage (skipn (perPage * (N.to_nat page - 1)) (site_posts s))).

Definition collaborators : Collaborators :=
  {| World := Site;
     JSON_parse := fun _ => None;
     toLowerCase := asciiLowerCase;
     get_posts_probe := fun s => Ok (firstn 1 (site_posts s));
     get_terms := fun s taxonomy _ => Ok (firstn 100 (termsOf s taxonomy));
     post_term := createTerm;
     get_image := fun _ _ => Fail unreachable;
     read_file := fun _ _ => FileMissing;
     post_media := createMedia;
     get_posts_by_slug := fun s slug =>
       Ok (firstn 1 (List.filter (fun p => strEq (post_slug p) slug) (site_posts s)));
     get_posts_page := listPage;
     post_post := writePostTo;
     write_log := fun _ _ => Ok tt |}.

Definition config : Config :=
  {| DEFAULT_STATUS := js "draft"; REQUEST_DELAY_MS := 300 |}.

Definition emptyRow : Row :=
  {| row_title := None; row_content := None; row_status := None;
     row_slug := None; row_excerpt := None; row_meta_description := None;
     row_focus_keyword := None; row_primary_keyword := None;
     row_seo_title := None; row_og_title := None; row_og_description := None;
     row_twitter_title := None; row_twitter_description := None;
     row_canonical_url := None; row_noindex := None; row_nofollow := None;
     row_schema_json := None; row_acf_json := None; row_categories := None;
     row_tags := None; row_featured_image_path := None;
     row_featured_image_url := None |}.

(** A row with a title, a content and, possibly, a slug. *)
Definition simpleRow (title content : string) (slug : option string) : Row :=
  {| row_title := Some (js title); row_content := Some (js content);
     row_status := None; row_slug := option_map js slug;
     row_excerpt := None; row_meta_description := None;
     row_focus_keyword := None; row_primary_keyword := None;
     row_seo_title := None; row_og_title := None; row_og_description := None;
     row_twitter_title := None; row_twitter_description := None;
     row_canonical_url := None; row_noindex := None; row_nofollow := None;
     row_schema_json := None; row_acf_json := None; row_categories := None;
     row_tags := None; row_featured_image_path := None;
     row_featured_image_url := None |}.

Definition withNoindex (row : Row) (v : option string) : Row :=
  {| row_title := row_title row; row_content := row_content row;
     row_status := row_status row; row_slug := row_slug row;
     row_excerpt := row_excerpt row;
     row_meta_description := row_meta_description row;
     row_focus_keyword := row_focus_keyword row;
     row_primary_keyword := row_primary_keyword row;
     row_seo_title := row_seo_title row; row_og_title := row_og_title row;
     row_og_description := row_og_description row;
     row_twitter_title := row_twitter_title row;
     row_twitter_description := row_twitter_description row;
     row_canonical_url := row_canonical_url row;
     row_noindex := option_map js v; row_nofollow := row_nofollow row;
     row_schema_json := row_schema_json row; row_acf_json := row_acf_json row;
     row_categories := row_categories row; row_tags := row_tags row;
     row_featured_image_path := row_featured_image_path row;
     row_featured_image_url := row_featured_image_url row |}.

Definition withKeywords (row : Row) (focus primary : option string) : Row :=
  {| row_title := row_title row; row_content := row_content row;
     row_status := row_status row; row_slug := row_slug row;
     row_excerpt := row_excerpt row;
     row_meta_description := row_meta_description row;
     row_focus_keyword := option_map js focus;
     row_primary_keyword := option_map js primary;
     row_seo_title := row_seo_title row; row_og_title := row_og_title row;
     row_og_description := row_og_description row;
     row_twitter_title := row_twitter_title row;
     row_twitter_description := row_twitter_description row;
     row_canonical_url := row_canonical_url row;
     row_noindex := row_noindex row; row_nofollow := row_nofollow row;
     row_schema_json := row_schema_json row; row_acf_json := row_acf_json row;
     row_categories := row_categories row; row_tags := row_tags row;
     row_featured_image_path := row_featured_image_path row;
     row_featured_image_url := row_featured_image_url row |}.

Definition withCategoryNames (row : Row) (names : string) : Row :=
  {| row_title := row_title row; row_content := row_content row;
     row_status := row_status row; row_slug := row_slug row;
     row_excerpt := row_excerpt row;
     row_meta_description := row_meta_description row;
     row_focus_keyword := row_focus_keyword row;
     row_primary_keyword := row_primary_keyword row;
     row_seo_title := row_seo_title row; row_og_title := row_og_title row;
     row_og_description := row_og_description row;
     row_twitter_title := row_twitter_title row;
     row_twitter_description := row_twitter_description row;
     row_canonical_url := row_canonical_url row;
     row_noindex := row_noindex row; row_nofollow := row_nofollow row;
     row_schema_json := row_schema_json row; row_acf_json := row_acf_json row;
     row_categories := Some (js names); row_tags := row_tags row;
     row_featured_image_path := row_featured_image_path row;
     row_featured_image_url := row_featured_image_url row |}.

Definition publishedPost (id : Z) (slug title : string) : Post :=
  {| post_id := id; post_slug := js slug;
     post_title := TitleObject (Some (js title)) None;
     post_status := js "publish" |}.

(** A site with two posts and one category. *)
Definition blog : Site :=
  {| site_posts := [publishedPost 12 "weekend-brunch" "Weekend <em>Brunch</em>";
                    publishedPost 7 "hello-world" "Hello World"];
     site_terms := [(Categories, {| term_id := 5; term_name := js "Tutorials" |})];
     site_next_id := 20;
     site_listing_down := false |}.

(** The same site with an untitled draft on top: the API renders its title
    as the empty string. *)
Definition blogWithDraft : Site :=
  {| site_posts := {| post_id := 15; post_slug := [];
                      post_title := TitleObject (Some []) None;
                      post_status := js "draft" |} :: site_posts blog;
     site_terms := site_terms blog;
     site_next_id := site_next_id blog; site_listing_down := false |}.

(** The same site while its post listing is out of order. *)
Definition blogListingDown : Site :=
  {| site_posts := site_posts blog; site_terms := site_terms blog;
     site_next_id := site_next_id blog; site_listing_down := true |}.

Definition start (s : Site) : State collaborators :=
  Build_State collaborators s [] [].

(** The engine on one row, as row 1, from a fresh state. *)
Definition run (row : Row) (s : Site) : RowResult * State collaborators :=
  createOrUpdatePost collaborators config row 1 (start s).

(** The three rows of the end-to-end scenario. *)
Definition threeRows : list Row :=
  [simpleRow "My first post" "Text" (Some "my-first-post");
   simpleRow "Greetings" "Text" (Some "hello-world");
   simpleRow "Empty" "" None].

(** The summary of a finished batch. *)
Definition summaryOf (r : Reply Summary) : Summary :=
  match r with
  | Ok s => s
  | Fail _ => {| total := 0; success := 0; failed := 0; results := [] |}
  end.

End TestSite.

(** ** Shapes of strings, for the analysis of [normalizeTitle] *)

Definition hasUnit (c : N) (s : jsstring) : bool := existsb (N.eqb c) s.

Definition headIsSpace (s : jsstring) : bool :=
  match s with
  | c :: _ => isSpace c
  | [] => false
  end.

(** No [<] has a [>] after it: nothing for [/<[^>]*>/] to match. *)
Fixpoint tagFree (s : jsstring) : bool :=
  match s with
  | [] => true
  | c :: r => (negb (c =? LT_SIGN) || negb (hasUnit GT_SIGN r)) && tagFree r
  end.

(** What must follow an ampersand for [/&[^;]+;/] to match there. *)
Definition entityBody (s : jsstring) : bool :=
  match s with
  | d :: r => negb (d =? SEMICOLON) && hasUnit SEMICOLON r
  | [] => false
  end.

Fixpoint entityFree (s : jsstring) : bool :=
  match s with
  | [] => true
  | c :: r => (negb (c =? AMPERSAND) || negb (entityBody r)) && entityFree r
  end.

(** Every white space is one plain space on its own. *)
Fixpoint spacesNormal (s : jsstring) : bool :=
  match s with
  | [] => true
  | c :: r =>
      (if isSpace c then (c =? SPACE) && negb (headIsSpace r) else true)
      && spacesNormal r
  end.

(** A literal that the catch-all entity pattern matches as well. *)
Definition entityShaped (lit : jsstring) : bool :=
  match lit with
  | a :: d :: rest => (a =? AMPERSAND) && negb (d =? SEMICOLON) && hasUnit SEMICOLON rest
  | _ => false
  end.

Definition noSleep (evs : list Event) : bool :=
  forallb (fun e => match e with Sleep _ => false | Call _ => true end) evs.

(** ** Runs

    What a computation leaves behind: the events it adds to the trace
    (newest first) obey [P], and [logResults] is as before. *)

Definition Extends {C : Collaborators} (P : list Event -> Prop)
    (st st' : State C) : Prop :=
  logResults st' = logResults st /\
  exists evs, trace st' = evs ++ trace st /\ P evs.

Definition Respects {C : Collaborators} {A : Type} (P : list Event -> Prop)
    (m : M C A) : Prop :=
  forall st, Extends P st (snd (m st)).

(** A computation that leaves the world as it is. *)
Definition ReadOnly {C : Collaborators} {A : Type} (m : M C A) : Prop :=
  forall st, world (snd (m st)) = world st.

(** A property of traces that holds of the empty trace, of a newer trace
    put before an older one, of a read among [readable], and of a write
    that [allowed] lets through when it follows a sleep of [d]
    milliseconds. *)
Record TraceLaw (P : list Event -> Prop) (d : Z)
    (allowed readable : Request -> bool) : Prop := {
  law_nil : P [];
  law_app : forall newer older, P newer -> P older -> P (newer ++ older);
  law_read : forall r, isWrite r = false -> readable r = true -> P [Call r];
  law_write : forall r, allowed r = true -> P [Call r; Sleep d]
}.

Definition DelayedWrites (d : Z) (evs : list Event) : Prop :=
  delayedWrites d evs = true.

Definition NoPostWrite (evs : list Event) : Prop :=
  Forall (fun e => isPostWrite e = false) evs.

Definition PausesOnly (d : Z) (evs : list Event) : Prop :=
  pausesOnly d None evs = true.

Definition LeadsOn (evs : list Event) : Prop :=
  sleepsLeadOn evs = true /\ startsWell evs = true.

(** The reads of the term and media resolution. *)
Definition resolutionRead (r : Request) : bool :=
  match r with
  | GetTerms _ _ | GetImage _ => true
  | _ => false
  end.

Definition notPostPost (r : Request) : bool :=
  match r with
  | PostPost _ _ => false
  | _ => true
  end.

(** Two payloads with the same fields apart from the resolved terms and
    media. *)
Definition sameCore (a b : PostData) : Prop :=
  pd_title a = pd_title b /\ pd_content a = pd_content b /\
  pd_status a = pd_status b /\ pd_slug a = pd_slug b /\
  pd_excerpt a = pd_excerpt b /\ pd_meta a = pd_meta b /\ pd_acf a = pd_acf b.

(** ** More of what the properties speak of *)

(** The names [resolveTerms] goes through: the pieces between commas,
    trimmed, the empty ones dropped. *)
Definition termNames (termString : jsstring) : list jsstring :=
  List.filter truthyStr (List.map trim (splitOn COMMA termString)).

(** What the search for [name] finds in world [w]: the ID of the first
    term delivered whose name is [name] up to letter case. *)
Definition lookupTerm (C : Collaborators) (w : World C) (taxonomy : Taxonomy)
    (name : jsstring) : option Z :=
  match get_terms C w taxonomy name with
  | Ok data =>
      option_map term_id
        (List.find (fun term => strEq (toLowerCase C (term_name term))
                                      (toLowerCase C name)) data)
  | Fail _ => None
  end.

(** The row without its two JSON fields. *)
Definition withoutJson (row : Row) : Row :=
  {| row_title := row_title row; row_content := row_content row;
     row_status := row_status row; row_slug := row_slug row;
     row_excerpt := row_excerpt row;
     row_meta_description := row_meta_description row;
     row_focus_keyword := row_focus_keyword row;
     row_primary_keyword := row_primary_keyword row;
     row_seo_title := row_seo_title row; row_og_title := row_og_title row;
     row_og_description := row_og_description row;
     row_twitter_title := row_twitter_title row;
     row_twitter_description := row_twitter_description row;
     row_canonical_url := row_canonical_url row;
     row_noindex := row_noindex row; row_nofollow := row_nofollow row;
     row_schema_json := None; row_acf_json := None;
     row_categories := row_categories row; row_tags := row_tags row;
     row_featured_image_path := row_featured_image_path row;
     row_featured_image_url := row_featured_image_url row |}.

(** The path or URL of the featured image, as [createOrUpdatePost] picks
    it: the path before the URL. *)
Definition imagePathOf (row : Row) : jsstring :=
  if truthyStr (optTrim (row_featured_image_path row))
  then optTrim (row_featured_image_path row)
  else optTrim (row_featured_image_url row).

Definition isUrl (s : jsstring) : bool :=
  startsWith (trim s) (js "http://") || startsWith (trim s) (js "https://").

(** The simple SEO fields and the meta keys they are stored under. *)
Definition seoFields (row : Row) : list (string * option jsstring) :=
  [("_yoast_wpseo_metadesc", row_meta_description row);
   ("rank_math_description", row_meta_description row);
   ("_yoast_wpseo_title", row_seo_title row);
   ("rank_math_title", row_seo_title row);
   ("_yoast_wpseo_canonical", row_canonical_url row);
   ("rank_math_canonical_url", row_canonical_url row)]%string.


(** The meta keys of the six statements that assign to a difference
    (lines 441, 446, 451, 456, 467 and 471). *)
Definition hyphenKeys : list string :=
  ["_yoast_wpseo_opengraph-title"; "_yoast_wpseo_opengraph-description";
   "_yoast_wpseo_twitter-title"; "_yoast_wpseo_twitter-description";
   "_yoast_wpseo_meta-robots-noindex"; "_yoast_wpseo_meta-robots-nofollow"]%string.

(** What the write step of [writePost] makes of a reply, [target] being
    the post it wrote to. *)
Definition writeOutcome (result : RowResult) (target : option Z)
    (response : Reply WriteBody) : Attempt :=
  let done := match target with
              | Some _ => updated
              | None => created
              end in
  match response with
  | Fail e => Thrown e None
  | Ok (NoBody typeError) => Thrown (newError typeError) (Some done)
  | Ok (PostBody post) =>
      Completed {| rowNumber := rowNumber result;
                   res_title := res_title result;
                   action := Some done;
                   postId := Some (post_id post);
                   res_status := Some (post_status post);
                   error := None |}
  end.


(** The result of row [n] when its write was answered with [response]:
    what the [try] block completed, or what the [catch] block made of
    the exception. *)
Definition resultOfWrite (row : Row) (n : N) (target : option Z)
    (response : Reply WriteBody) : RowResult :=
  let result := {| rowNumber := n; res_title := displayTitle row;
                   action := None; postId := None; res_status := None;
                   error := None |} in
  match writeOutcome result target response with
  | Completed done => done
  | Thrown e action =>
      {| rowNumber := n; res_title := displayTitle row; action := action;
         postId := None; res_status := None; error := Some (errorText e) |}
  end.

(** ** [server.js]: the authentication middleware and the upload route

    The web interface puts [requireAuth] in front of every route declared
    after it; [/login] and [/logout] are declared before it.  The session
    store is the module-level [Map]; the clock ([Date.now()]) and the
    random part of a fresh identifier are inputs.  Cookies, headers and
    body fields are taken to be strings where they are present. *)

Module Server.

(** [String.prototype.endsWith]: [lit] read backwards opens [s] read
    backwards. *)
Definition endsWith (s lit : jsstring) : bool := startsWith (rev s) (rev lit).

(** A possibly-undefined string as a condition. *)
Definition truthyOpt (o : option jsstring) : bool :=
  match o with
  | Some (_ :: _) => true
  | _ => false
  end.

(** [a || lit] on a possibly-undefined string. *)
Definition orDefault (a : option jsstring) (lit : jsstring) : jsstring :=
  match a with
  | Some (c :: r) => c :: r
  | _ => lit
  end.

(** The part of [process.env] the server reads. *)
Record Env := {
  VERCEL : option jsstring;
  VERCEL_ENV : option jsstring;
  ENV_AUTH_USERNAME : option jsstring;
  ENV_AUTH_PASSWORD : option jsstring
}.

(** [Buffer.from(s).toString('base64')] and
    [Buffer.from(t, 'base64').toString('utf-8')]. *)
Record Codec := {
  toBase64 : jsstring -> jsstring;
  fromBase64 : jsstring -> jsstring
}.

(** [process.env.VERCEL || process.env.VERCEL_ENV] as a condition. *)
Definition isVercel (env : Env) : bool :=
  truthyOpt (orElse (VERCEL env) (VERCEL_ENV env)).

(** [(process.env.AUTH_USERNAME || 'admin').trim()] *)
Definition AUTH_USERNAME (env : Env) : jsstring :=
  trim (orDefault (ENV_AUTH_USERNAME env) (js "admin")).

(** [(process.env.AUTH_PASSWORD || 'admin123').trim()] *)
Definition AUTH_PASSWORD (env : Env) : jsstring :=
  trim (orDefault (ENV_AUTH_PASSWORD env) (js "admin123")).

Definition AUTH_SECRET (env : Env) : jsstring :=
  AUTH_PASSWORD env ++ js "_auth_secret".

Record Session := {
  username : option jsstring;
  createdAt : Z;
  expiresAt : Z
}.

(** [const sessions = new Map()] *)
Abbreviation Sessions := (gmap jsstring Session).

(** [generateSessionId]; [random] is
    [Math.random().toString(36).substr(2, 9)]. *)
Definition generateSessionId (now : Z) (random : jsstring) : jsstring :=
  numToString now ++ js "-" ++ random.

(** [generateAuthToken] *)
Definition generateAuthToken (env : Env) (codec : Codec) (now : Z)
    (random : jsstring) : jsstring :=
  toBase64 codec
    (numToString now ++ js "-" ++ random ++ js "-" ++ AUTH_SECRET env).

(** [validateAuthToken] *)
Definition validateAuthToken (env : Env) (codec : Codec)
    (token : option jsstring) : bool :=
  if negb (truthyOpt token) then false
  else endsWith (fromBase64 codec (default [] token))
                (js "-" ++ AUTH_SECRET env).

(** What [requireAuth] reads of a request; [accepts_html] is
    [req.accepts('html')] as a condition. *)
Record HttpRequest := {
  req_path : jsstring;
  cookie_sessionId : option jsstring;
  cookie_authToken : option jsstring;
  header_x_session_id : option jsstring;
  accepts_html : bool
}.

(** [next()], [res.status(401).json(...)], [res.redirect('/login.html')]. *)
Inductive Verdict := Next | Unauthorized | RedirectToLogin.

Definition isPublicPath (p : jsstring) : bool :=
  strEq p (js "/login") || strEq p (js "/login.html")
  || strEq p (js "/login.css") || strEq p (js "/login.js")
  || strEq p (js "/health").

(** The tail of [requireAuth]: no valid session. *)
Definition refuse (req : HttpRequest) : Verdict :=
  if startsWith (req_path req) (js "/api/")
     || strEq (req_path req) (js "/upload")
     || startsWith (req_path req) (js "/progress/")
     || endsWith (req_path req) (js ".json")
  then Unauthorized
  else if strEq (req_path req) (js "/")
          || endsWith (req_path req) (js ".html")
          || accepts_html req
  then RedirectToLogin
  else Unauthorized.

(** The session presented:
    [req.cookies?.sessionId || req.headers['x-session-id']]. *)
Definition sessionIdOf (req : HttpRequest) : option jsstring :=
  orElse (cookie_sessionId req) (header_x_session_id req).

(** [requireAuth] at time [now]: the verdict and the session store it
    leaves. *)
Definition requireAuth (env : Env) (codec : Codec) (req : HttpRequest)
    (now : Z) (sessions : Sessions) : Verdict * Sessions :=
  if isPublicPath (req_path req) then (Next, sessions)
  else
    let sessionId := sessionIdOf req in
    let authToken := cookie_authToken req in
    if isVercel env then
      if truthyOpt authToken && validateAuthToken env codec authToken
      then (Next, sessions)
      else (refuse req, sessions)
    else
      if truthyOpt sessionId then
        match sessions !! default [] sessionId with
        | Some session =>
            if (now <? expiresAt session)%Z then (Next, sessions)
            else (refuse req, delete (default [] sessionId) sessions)
        | None => (refuse req, sessions)
        end
      else (refuse req, sessions).

(** The body of [POST /login]. *)
Record LoginBody := {
  body_username : option jsstring;
  body_password : option jsstring;
  body_rememberme : option jsstring
}.

Inductive Cookie :=
  | SessionCookie (sessionId : jsstring) (maxAge : Z)
  | TokenCookie (authToken : jsstring) (maxAge : Z).

(** Status 200 with the cookie set, or status 401. *)
Inductive LoginReply := LoginOk (cookie : Cookie) | LoginRefused.

(** [rememberme === 'forever' ? 30 * 24 * 60 * 60 * 1000 : 24 * 60 * 60 * 1000] *)
Definition maxAgeOf (rememberme : option jsstring) : Z :=
  match rememberme with
  | Some r => if strEq r (js "forever") then (30 * 24 * 60 * 60 * 1000)%Z
              else (24 * 60 * 60 * 1000)%Z
  | None => (24 * 60 * 60 * 1000)%Z
  end.

(** The three readings of the clock a local login takes: in
    [generateSessionId], for [createdAt] and for [expiresAt]. *)
Record Readings := {
  atId : Z;
  atCreated : Z;
  atExpires : Z
}.

(** The handler of [POST /login]. *)
Definition login (env : Env) (codec : Codec) (body : LoginBody)
    (clock : Readings) (random : jsstring) (sessions : Sessions)
    : LoginReply * Sessions :=
  let inputUsername := trim (orDefault (body_username body) []) in
  let inputPassword := trim (orDefault (body_password body) []) in
  if strEq inputUsername (AUTH_USERNAME env)
     && strEq inputPassword (AUTH_PASSWORD env)
  then
    let maxAge := maxAgeOf (body_rememberme body) in
    if isVercel env then
      (LoginOk (TokenCookie (generateAuthToken env codec (atId clock) random)
                            maxAge),
       sessions)
    else
      let sessionId := generateSessionId (atId clock) random in
      (LoginOk (SessionCookie sessionId maxAge),
       <[sessionId := {| username := body_username body;
                         createdAt := atCreated clock;
                         expiresAt := (atExpires clock + maxAge)%Z |}]> sessions)
  else (LoginRefused, sessions).

(** The handler of [POST /logout], on the session store. *)
Definition logout (req : HttpRequest) (sessions : Sessions) : Sessions :=
  if truthyOpt (cookie_sessionId req)
  then delete (default [] (cookie_sessionId req)) sessions
  else sessions.

(** The hourly sweep at time [now]. *)
Definition sweep (now : Z) (sessions : Sessions) : Sessions :=
  filter (fun entry => ~ (expiresAt entry.2 < now)%Z) sessions.

(** The handler of [POST /upload].  [file] is [req.file], given as what
    [loadCsv] delivers for it; the file system answers the removals of
    the uploaded file. *)
Record UploadFs := {
  unlink_done : Reply unit;      (* [fs.unlinkSync] after the run *)
  exists_on_error : bool;        (* [fs.existsSync] in the [catch] *)
  unlink_on_error : Reply unit   (* [fs.unlinkSync] in the [catch] *)
}.

Inductive UploadReply :=
  | Status400                                          (* no file uploaded *)
  | Status200 (result : Summary) (sessionId : jsstring)
  | Status500 (error : jsstring) (sessionId : jsstring)
  | Unanswered (thrown : JsError).                     (* the handler rejects *)

(** [error.message || 'An error occurred during upload'] *)
Definition uploadErrorText (e : JsError) : jsstring :=
  if truthyStr (err_message e) then err_message e
  else js "An error occurred during upload".

Definition upload (C : Collaborators) (cfg : Config)
    (file : option (Reply (list Row))) (body_sessionId : option jsstring)
    (now : Z) (fs : UploadFs) : M C UploadReply :=
  match file with
  | None => ret C Status400
  | Some loaded =>
      let sessionId := orDefault body_sessionId (numToString now) in
      let onError (error : JsError) : M C UploadReply :=
        if exists_on_error fs then
          match unlink_on_error fs with
          | Ok _ => ret C (Status500 (uploadErrorText error) sessionId)
          | Fail thrown => ret C (Unanswered thrown)
          end
        else ret C (Status500 (uploadErrorText error) sessionId) in
      bind C (processCsvFile C cfg loaded) (fun result =>
        match result with
        | Ok summary =>
            match unlink_done fs with
            | Ok _ => ret C (Status200 summary sessionId)
            | Fail error => onError error
            end
        | Fail error => onError error
        end)
  end.

End Server.

(** A server for the instances: the codec is the identity. *)
Module TestServer.
Import Server.

Definition localEnv : Env :=
  {| VERCEL := None; VERCEL_ENV := None;
     ENV_AUTH_USERNAME := Some (js " editor ");
     ENV_AUTH_PASSWORD := Some (js "s3cret") |}.

Definition vercelEnv : Env :=
  {| VERCEL := Some (js "1"); VERCEL_ENV := None;
     ENV_AUTH_USERNAME := Some (js " editor ");
     ENV_AUTH_PASSWORD := Some (js "s3cret") |}.

Definition codec : Codec := {| toBase64 := fun s => s; fromBase64 := fun s => s |}.

Definition credentials (rememberme : option jsstring) : LoginBody :=
  {| body_username := Some (js "editor  ");
     body_password := Some (js " s3cret");
     body_rememberme := rememberme |}.

Definition clock (now : Z) : Readings :=
  {| atId := now; atCreated := now; atExpires := now |}.

Definition withCookie (path : string) (sessionId : jsstring) : HttpRequest :=
  {| req_path := js path; cookie_sessionId := Some sessionId;
     cookie_authToken := None; header_x_session_id := None;
     accepts_html := true |}.

Definition withToken (path : string) (token : jsstring) : HttpRequest :=
  {| req_path := js path; cookie_sessionId := None;
     cookie_authToken := Some token; header_x_session_id := None;
     accepts_html := false |}.

Definition session (expires : Z) : Session :=
  {| username := Some (js "editor"); createdAt := 0; expiresAt := expires |}.

Definition twoSessions : Sessions :=
  <[js "1000-abc" := session 5000]> (<[js "2000-def" := session 9000]> ∅).

Definition fsFine : UploadFs :=
  {| unlink_done := Ok tt; exists_on_error := true; unlink_on_error := Ok tt |}.

End TestServer.

(** More rows, and a disk that refuses a read, for the instances. *)
Module TestMore.
Import TestSite.

Definition withFields (row : Row)
    (meta_description schema_json image_path : option string) : Row :=
  {| row_title := row_title row; row_content := row_content row;
     row_status := row_status row; row_slug := row_slug row;
     row_excerpt := row_excerpt row;
     row_meta_description := option_map js meta_description;
     row_focus_keyword := row_focus_keyword row;
     row_primary_keyword := row_primary_keyword row;
     row_seo_title := row_seo_title row; row_og_title := row_og_title row;
     row_og_description := row_og_description row;
     row_twitter_title := row_twitter_title row;
     row_twitter_description := row_twitter_description row;
     row_canonical_url := row_canonical_url row;
     row_noindex := row_noindex row; row_nofollow := row_nofollow row;
     row_schema_json := option_map js schema_json;
     row_acf_json := row_acf_json row;
     row_categories := row_categories row; row_tags := row_tags row;
     row_featured_image_path := option_map js image_path;
     row_featured_image_url := row_featured_image_url row |}.

Definition accessDenied : JsError :=
  newError (js "EACCES: permission denied, open 'locked.png'").

(** The small site behind a disk on which [locked.png] cannot be read. *)
Definition lockedDisk : Collaborators :=
  {| World := Site;
     JSON_parse := fun _ => None;
     toLowerCase := toLowerCase collaborators;
     get_posts_probe := get_posts_probe collaborators;
     get_terms := get_terms collaborators;
     post_term := post_term collaborators;
     get_image := get_image collaborators;
     read_file := fun _ path =>
       if strEq path (js "locked.png") then FileThrows accessDenied
       else FileMissing;
     post_media := post_media collaborators;
     get_posts_by_slug := get_posts_by_slug collaborators;
     get_posts_page := get_posts_page collaborators;
     post_post := post_post collaborators;
     write_log := write_log collaborators |}.

(** The small site while its slug lookup is out of order. *)
Definition slugLookupDown : Collaborators :=
  {| World := Site;
     JSON_parse := fun _ => None;
     toLowerCase := toLowerCase collaborators;
     get_posts_probe := get_posts_probe collaborators;
     get_terms := get_terms collaborators;
     post_term := post_term collaborators;
     get_image := get_image collaborators;
     read_file := read_file collaborators;
     post_media := post_media collaborators;
     get_posts_by_slug := fun _ _ => Fail unreachable;
     get_posts_page := get_posts_page collaborators;
     post_post := post_post collaborators;
     write_log := write_log collaborators |}.



(** The post write a trace ends with. *)
Definition lastWrite (evs : list Event) (row : Row) : option Z * PostData :=
  match evs with
  | Call (PostPost target pd) :: _ => (target, pd)
  | _ => (None, preparePostData collaborators config row)
  end.

End TestMore.
(** * Properties *)

#[local] Arguments N.eqb : simpl never.
#[local] Arguments N.leb : simpl never.
#[local] Arguments N.ltb : simpl never.
#[local] Arguments N.add : simpl never.
#[local] Arguments isSpace : simpl never.
#[local] Arguments lowerUnit : simpl never.
#[local] Arguments matchTag : simpl never.
#[local] Arguments matchEntity : simpl never.
#[local] Arguments matchSpaces : simpl never.
#[local] Arguments matchLit : simpl never.

(** ** Strings *)

Lemma strEq_true a : forall b, strEq a b = true <-> a = b.
Proof.
  induction a as [|x a IH]; intros [|y b]; simpl; split; intros H;
    try reflexivity; try discriminate.
  - apply andb_true_iff in H as [Hx Hr]. apply N.eqb_eq in Hx.
    apply IH in Hr. congruence.
  - injection H as -> ->. rewrite N.eqb_refl. simpl. apply IH. reflexivity.
Qed.

Lemma strEq_refl a : strEq a a = true.
Proof. apply strEq_true. reflexivity. Qed.

Lemma startsWith_app s lit : startsWith s lit = true -> exists x, s = lit ++ x.
Proof.
  revert s. induction lit as [|c lit IH]; intros s H.
  - exists s. reflexivity.
  - destruct s as [|d s]; simpl in H; [discriminate|].
    apply andb_true_iff in H as [Hc Hr]. apply N.eqb_eq in Hc. subst d.
    destruct (IH _ Hr) as [x ->]. exists x. reflexivity.
Qed.

Lemma hasUnit_app c a b : hasUnit c (a ++ b) = hasUnit c a || hasUnit c b.
Proof. unfold hasUnit. apply existsb_app. Qed.

Lemma hasUnit_In c s : hasUnit c s = true <-> In c s.
Proof.
  unfold hasUnit. rewrite existsb_exists. split.
  - intros [x [Hin Heq]]. apply N.eqb_eq in Heq. subst. exact Hin.
  - intros Hin. exists c. split; [exact Hin | apply N.eqb_refl].
Qed.

Lemma hasUnit_false_incl c s t :
  (forall x, In x t -> In x s) -> hasUnit c s = false -> hasUnit c t = false.
Proof.
  intros Hsub Hs. destruct (hasUnit c t) eqn:Ht; [|reflexivity].
  apply hasUnit_In in Ht. apply Hsub in Ht. apply hasUnit_In in Ht. congruence.
Qed.

Lemma indexOfUnit_None c s : indexOfUnit c s = None <-> hasUnit c s = false.
Proof.
  induction s as [|x s IH]; simpl; [tauto|].
  rewrite (N.eqb_sym c x). destruct (x =? c); simpl.
  - split; discriminate.
  - destruct (indexOfUnit c s) as [n|]; simpl.
    + split; intros H; [discriminate | apply IH in H; discriminate].
    + split; intros _; [apply IH|]; reflexivity.
Qed.

(** *** The global replace *)

Lemma replaceAll_In m rep x s : forall k,
  In x (replaceAll m rep k s) -> In x s \/ In x rep.
Proof.
  induction s as [|c r IH]; intros k H; simpl in H; [contradiction|].
  destruct k as [|k].
  - destruct (m (c :: r)) as [[|j]|].
    + destruct H as [->|H]; [left; left; reflexivity|].
      destruct (IH _ H); [left; right|right]; assumption.
    + apply in_app_or in H as [H|H]; [right; exact H|].
      destruct (IH _ H); [left; right|right]; assumption.
    + destruct H as [->|H]; [left; left; reflexivity|].
      destruct (IH _ H); [left; right|right]; assumption.
  - destruct (IH _ H); [left; right|right]; assumption.
Qed.

Lemma replaceAll_hasUnit_false m rep c s k :
  hasUnit c s = false -> hasUnit c rep = false ->
  hasUnit c (replaceAll m rep k s) = false.
Proof.
  intros Hs Hrep. destruct (hasUnit c (replaceAll m rep k s)) eqn:E; [|reflexivity].
  apply hasUnit_In in E. apply replaceAll_In in E as [E|E];
    apply hasUnit_In in E; congruence.
Qed.
(** *** Tags *)

Lemma hasUnit_cons c x s : hasUnit c (x :: s) = (c =? x) || hasUnit c s.
Proof. reflexivity. Qed.

Lemma matchTag_None c r :
  negb (c =? LT_SIGN) || negb (hasUnit GT_SIGN r) = true ->
  matchTag (c :: r) = None.
Proof.
  intros H. unfold matchTag. destruct (c =? LT_SIGN); [|reflexivity].
  simpl in H. apply negb_true_iff in H. apply indexOfUnit_None in H.
  rewrite H. reflexivity.
Qed.

Lemma matchTag_not_Some c r k :
  matchTag (c :: r) = Some k ->
  (negb (c =? LT_SIGN) || negb (hasUnit GT_SIGN r) = false) /\ exists j, k = S j.
Proof.
  unfold matchTag. destruct (c =? LT_SIGN); [|discriminate]. simpl.
  destruct (indexOfUnit GT_SIGN r) as [n|] eqn:E; [|discriminate].
  simpl. intros [= <-]. split; [|eexists; reflexivity].
  destruct (hasUnit GT_SIGN r) eqn:Hu; [reflexivity|].
  apply indexOfUnit_None in Hu. congruence.
Qed.

Lemma tagFree_app_clean a b :
  hasUnit LT_SIGN a = false -> tagFree (a ++ b) = tagFree b.
Proof.
  induction a as [|c a IH]; intros H; [reflexivity|].
  rewrite hasUnit_cons in H. apply orb_false_iff in H as [Hc Ha].
  rewrite N.eqb_sym in Hc. simpl. rewrite Hc. simpl. apply IH. exact Ha.
Qed.

Lemma stripTags_tagFree s : forall k, tagFree (replaceAll matchTag [] k s) = true.
Proof.
  induction s as [|c r IH]; intros k; simpl; [reflexivity|].
  destruct k as [|k]; [|apply IH].
  destruct (matchTag (c :: r)) as [[|j]|] eqn:E; simpl.
  - apply matchTag_not_Some in E as [_ [j Hj]]. discriminate.
  - apply IH.
  - rewrite IH, andb_true_r.
    unfold matchTag in E. destruct (c =? LT_SIGN); [|reflexivity]. simpl.
    destruct (indexOfUnit GT_SIGN r) eqn:Ei; [discriminate|].
    apply indexOfUnit_None in Ei.
    rewrite replaceAll_hasUnit_false; auto.
Qed.

(** The later steps neither add [<] or [>] nor reorder the code units. *)
Lemma replaceAll_tagFree m rep s :
  hasUnit LT_SIGN rep = false -> hasUnit GT_SIGN rep = false ->
  forall k, tagFree s = true -> tagFree (replaceAll m rep k s) = true.
Proof.
  intros Hl Hg. induction s as [|c r IH]; intros k H; [reflexivity|].
  simpl in H. apply andb_true_iff in H as [Hc Hr]. simpl.
  assert (Hcopy : tagFree (c :: replaceAll m rep 0 r) = true).
  { simpl. rewrite (IH _ Hr), andb_true_r.
    destruct (c =? LT_SIGN); [|reflexivity]. simpl in *.
    apply negb_true_iff in Hc. rewrite replaceAll_hasUnit_false; auto. }
  destruct k as [|k]; [|apply IH; exact Hr].
  destruct (m (c :: r)) as [[|j]|]; try exact Hcopy.
  rewrite tagFree_app_clean by exact Hl. apply IH. exact Hr.
Qed.

Lemma stripTags_fixed rep s :
  tagFree s = true -> replaceAll matchTag rep 0 s = s.
Proof.
  induction s as [|c r IH]; intros H; [reflexivity|].
  simpl in H. apply andb_true_iff in H as [Hc Hr].
  simpl. rewrite (matchTag_None _ _ Hc). f_equal. apply IH. exact Hr.
Qed.

(** *** Entities *)

Lemma matchEntity_Some c r :
  (exists j, matchEntity (c :: r) = Some (S j)) <->
  (c =? AMPERSAND) && entityBody r = true.
Proof.
  unfold matchEntity. destruct (c =? AMPERSAND); simpl.
  2:{ split; [intros [j H]|intros H]; discriminate. }
  destruct r as [|d r]; simpl.
  { split; [intros [j H]|intros H]; discriminate. }
  destruct (d =? SEMICOLON) eqn:Ed; simpl.
  { split; [intros [j H]|intros H]; discriminate. }
  destruct (indexOfUnit SEMICOLON r) as [n|] eqn:Ei; simpl.
  - split; [intros _|intros _; eexists; reflexivity].
    destruct (hasUnit SEMICOLON r) eqn:Hu; [reflexivity|].
    apply indexOfUnit_None in Hu. congruence.
  - apply indexOfUnit_None in Ei. rewrite Ei.
    split; [intros [j H]|intros H]; discriminate.
Qed.

Lemma matchEntity_None c r :
  negb (c =? AMPERSAND) || negb (entityBody r) = true ->
  matchEntity (c :: r) = None \/ matchEntity (c :: r) = Some O.
Proof.
  intros H. destruct (matchEntity (c :: r)) as [[|j]|] eqn:E; auto.
  assert (Hs : (c =? AMPERSAND) && entityBody r = true).
  { apply matchEntity_Some. exists j. exact E. }
  apply andb_true_iff in Hs as [H1 H2]. rewrite H1, H2 in H. discriminate.
Qed.

Lemma entityFree_app_clean a b :
  hasUnit AMPERSAND a = false -> entityFree (a ++ b) = entityFree b.
Proof.
  induction a as [|c a IH]; intros H; [reflexivity|].
  rewrite hasUnit_cons in H. apply orb_false_iff in H as [Hc Ha].
  rewrite N.eqb_sym in Hc. simpl. rewrite Hc. simpl. apply IH. exact Ha.
Qed.

(** After the catch-all removal an ampersand is followed by a semicolon or
    by no semicolon at all. *)
Lemma stripEntities_body r :
  entityBody (replaceAll matchEntity [] 0 r) = true -> entityBody r = true.
Proof.
  destruct r as [|d r]; [discriminate|]. simpl.
  destruct (matchEntity (d :: r)) as [[|j]|] eqn:E; simpl.
  - intros H. apply andb_true_iff in H as [H1 H2]. rewrite H1. simpl.
    destruct (hasUnit SEMICOLON r) eqn:Hu; [reflexivity|].
    rewrite replaceAll_hasUnit_false in H2; auto.
  - intros _.
    assert (Hs : (d =? AMPERSAND) && entityBody r = true).
    { apply matchEntity_Some. exists j. exact E. }
    apply andb_true_iff in Hs as [H1 H2]. apply N.eqb_eq in H1. subst d.
    change (negb (AMPERSAND =? SEMICOLON)) with true. simpl.
    destruct r as [|e r]; [discriminate|]. simpl in H2.
    apply andb_true_iff in H2 as [_ H2]. rewrite hasUnit_cons, H2.
    apply orb_true_r.
  - intros H. apply andb_true_iff in H as [H1 H2]. rewrite H1. simpl.
    destruct (hasUnit SEMICOLON r) eqn:Hu; [reflexivity|].
    rewrite replaceAll_hasUnit_false in H2; auto.
Qed.

Lemma stripEntities_entityFree s :
  forall k, entityFree (replaceAll matchEntity [] k s) = true.
Proof.
  induction s as [|c r IH]; intros k; simpl; [reflexivity|].
  destruct k as [|k]; [|apply IH].
  assert (Hcopy : matchEntity (c :: r) = None \/ matchEntity (c :: r) = Some O ->
                  entityFree (c :: replaceAll matchEntity [] 0 r) = true).
  { intros Hn. simpl. rewrite IH, andb_true_r.
    destruct (c =? AMPERSAND) eqn:Ec; [|reflexivity]. simpl.
    destruct (entityBody (replaceAll matchEntity [] 0 r)) eqn:Eb; [|reflexivity].
    apply stripEntities_body in Eb.
    assert (Hs : exists j, matchEntity (c :: r) = Some (S j)).
    { apply matchEntity_Some. rewrite Ec, Eb. reflexivity. }
    destruct Hs as [j Hj]. destruct Hn as [Hn|Hn]; congruence. }
  destruct (matchEntity (c :: r)) as [[|j]|] eqn:E; simpl.
  - apply Hcopy. right. reflexivity.
  - apply IH.
  - apply Hcopy. left. reflexivity.
Qed.



(** *** White space *)

Lemma replaceAll_cons m rep k c r :
  replaceAll m rep k (c :: r) =
  match k with
  | S k' => replaceAll m rep k' r
  | O => match m (c :: r) with
         | Some (S j) => rep ++ replaceAll m rep j r
         | _ => c :: replaceAll m rep O r
         end
  end.
Proof. reflexivity. Qed.

Lemma isSpace_plain : forall x, In x [LT_SIGN; GT_SIGN; AMPERSAND; SEMICOLON] -> isSpace x = false.
Proof. intros x [<-|[<-|[<-|[<-|[]]]]]; reflexivity. Qed.

Lemma matchSpaces_cons c r :
  matchSpaces (c :: r) = if isSpace c then Some (S (spanSpaces r)) else None.
Proof. unfold matchSpaces. simpl. destruct (isSpace c); reflexivity. Qed.

Lemma collapse_head r :
  headIsSpace (replaceAll matchSpaces [SPACE] (spanSpaces r) r) = false.
Proof.
  induction r as [|c r IH]; [reflexivity|].
  simpl spanSpaces. destruct (isSpace c) eqn:Ec.
  - simpl. exact IH.
  - simpl. rewrite matchSpaces_cons, Ec. simpl. exact Ec.
Qed.

Lemma collapse_spacesNormal s :
  forall k, spacesNormal (replaceAll matchSpaces [SPACE] k s) = true.
Proof.
  induction s as [|c r IH]; intros k; [reflexivity|].
  simpl. destruct k as [|k]; [|apply IH].
  rewrite matchSpaces_cons. destruct (isSpace c) eqn:Ec.
  - simpl. change (isSpace SPACE) with true. cbv iota.
    rewrite collapse_head, IH. reflexivity.
  - simpl. rewrite Ec, IH. reflexivity.
Qed.


Lemma collapse_body r :
  entityBody (replaceAll matchSpaces [SPACE] 0 r) = true -> entityBody r = true.
Proof.
  destruct r as [|d r]; [discriminate|]. simpl.
  rewrite matchSpaces_cons. destruct (isSpace d) eqn:Ed; simpl.
  - intros H2.
    assert (Hd : (d =? SEMICOLON) = false).
    { destruct (N.eqb_spec d SEMICOLON) as [->|]; [discriminate|reflexivity]. }
    rewrite Hd. simpl.
    destruct (hasUnit SEMICOLON r) eqn:Hu; [reflexivity|].
    rewrite replaceAll_hasUnit_false in H2; auto.
  - intros H. apply andb_true_iff in H as [H1 H2]. rewrite H1. simpl.
    destruct (hasUnit SEMICOLON r) eqn:Hu; [reflexivity|].
    rewrite replaceAll_hasUnit_false in H2; auto.
Qed.

Lemma collapse_entityFree s :
  forall k, entityFree s = true ->
  entityFree (replaceAll matchSpaces [SPACE] k s) = true.
Proof.
  induction s as [|c r IH]; intros k H; [reflexivity|].
  simpl in H. apply andb_true_iff in H as [Hc Hr].
  rewrite replaceAll_cons. destruct k as [|k]; [|apply IH; exact Hr].
  rewrite matchSpaces_cons. destruct (isSpace c) eqn:Ec.
  - rewrite entityFree_app_clean by reflexivity. apply IH. exact Hr.
  - simpl. rewrite (IH _ Hr), andb_true_r.
    destruct (c =? AMPERSAND); [|reflexivity]. simpl in *.
    destruct (entityBody (replaceAll matchSpaces [SPACE] 0 r)) eqn:Eb; [|reflexivity].
    apply collapse_body in Eb. rewrite Eb in Hc. discriminate.
Qed.

(** *** The case map of Basic Latin *)

Lemma lowerUnit_idem c : lowerUnit (lowerUnit c) = lowerUnit c.
Proof.
  unfold lowerUnit.
  destruct (N.leb_spec 65 c), (N.leb_spec c 90); simpl; try reflexivity.
  - destruct (N.leb_spec 65 (c + 32)), (N.leb_spec (c + 32) 90); simpl;
      try reflexivity; lia.
  - destruct (N.leb_spec 65 c), (N.leb_spec c 90); simpl; try reflexivity; lia.
  - destruct (N.leb_spec 65 c), (N.leb_spec c 90); simpl; try reflexivity; lia.
  - destruct (N.leb_spec 65 c), (N.leb_spec c 90); simpl; try reflexivity; lia.
Qed.

Lemma lowerUnit_cases c :
  (65 <= c <= 90 /\ lowerUnit c = c + 32) \/ (~ 65 <= c <= 90 /\ lowerUnit c = c).
Proof.
  unfold lowerUnit.
  destruct (N.leb_spec 65 c), (N.leb_spec c 90); simpl; [left|right..];
    split; try reflexivity; lia.
Qed.

(** Lowering leaves a code unit below [A] where it is, and maps no other
    code unit to it. *)
Lemma lowerUnit_eqb c x : x < 65 -> (lowerUnit c =? x) = (c =? x).
Proof.
  intros Hx. destruct (lowerUnit_cases c) as [[Hc ->]|[_ ->]]; [|reflexivity].
  destruct (N.eqb_spec (c + 32) x), (N.eqb_spec c x); try reflexivity; lia.
Qed.

Lemma isSpace_spec c :
  isSpace c = true <->
  (9 <= c <= 13 \/ c = 32 \/ c = 160 \/ c = 5760 \/ 8192 <= c <= 8202 \/
   c = 8232 \/ c = 8233 \/ c = 8239 \/ c = 8287 \/ c = 12288 \/ c = 65279).
Proof.
  unfold isSpace.
  rewrite !orb_true_iff, !andb_true_iff, !N.leb_le, !N.eqb_eq. tauto.
Qed.

Lemma isSpace_lowerUnit c : isSpace (lowerUnit c) = isSpace c.
Proof.
  destruct (lowerUnit_cases c) as [[Hc ->]|[_ ->]]; [|reflexivity].
  destruct (isSpace (c + 32)) eqn:E1, (isSpace c) eqn:E2; try reflexivity;
    try (apply isSpace_spec in E1); try (apply isSpace_spec in E2); lia.
Qed.

Lemma asciiLowerCase_hasUnit x s :
  x < 65 -> hasUnit x (asciiLowerCase s) = hasUnit x s.
Proof.
  intros Hx. induction s as [|c r IH]; [reflexivity|].
  change (asciiLowerCase (c :: r)) with (lowerUnit c :: asciiLowerCase r).
  rewrite !hasUnit_cons, IH, (N.eqb_sym x (lowerUnit c)),
    lowerUnit_eqb, (N.eqb_sym c x) by exact Hx. reflexivity.
Qed.

Lemma asciiLowerCase_tagFree s : tagFree (asciiLowerCase s) = tagFree s.
Proof.
  induction s as [|c r IH]; [reflexivity|].
  simpl. rewrite IH, lowerUnit_eqb by reflexivity.
  rewrite asciiLowerCase_hasUnit by reflexivity. reflexivity.
Qed.

Lemma asciiLowerCase_entityBody s : entityBody (asciiLowerCase s) = entityBody s.
Proof.
  destruct s as [|d r]; [reflexivity|]. simpl.
  rewrite lowerUnit_eqb by reflexivity.
  rewrite asciiLowerCase_hasUnit by reflexivity. reflexivity.
Qed.

Lemma asciiLowerCase_entityFree s : entityFree (asciiLowerCase s) = entityFree s.
Proof.
  induction s as [|c r IH]; [reflexivity|].
  simpl. rewrite IH, lowerUnit_eqb by reflexivity.
  rewrite asciiLowerCase_entityBody. reflexivity.
Qed.

Lemma asciiLowerCase_spacesNormal s : spacesNormal (asciiLowerCase s) = spacesNormal s.
Proof.
  induction s as [|c r IH]; [reflexivity|].
  simpl. rewrite IH, isSpace_lowerUnit, lowerUnit_eqb by reflexivity.
  destruct r; simpl; [reflexivity|]. rewrite isSpace_lowerUnit. reflexivity.
Qed.

(** *** Trimming *)

Lemma trimStart_suffix s : exists w, s = w ++ trimStart s.
Proof.
  induction s as [|c r [w IH]]; [exists []; reflexivity|].
  simpl. destruct (isSpace c).
  - exists (c :: w). simpl. f_equal. exact IH.
  - exists []. reflexivity.
Qed.

Lemma trimEnd_prefix s : exists w, s = trimEnd s ++ w.
Proof.
  induction s as [|c r [w IH]]; [exists []; reflexivity|].
  simpl. destruct (trimEnd r) as [|d t].
  - destruct (isSpace c); [exists (c :: r)|exists r]; reflexivity.
  - exists w. simpl. f_equal. exact IH.
Qed.

Lemma trimStart_head s : headIsSpace (trimStart s) = false.
Proof.
  induction s as [|c r IH]; [reflexivity|].
  simpl. destruct (isSpace c) eqn:E; [exact IH|]. simpl. exact E.
Qed.

Lemma trimStart_fixed s : headIsSpace s = false -> trimStart s = s.
Proof. destruct s as [|c r]; [reflexivity|]. simpl. intros ->. reflexivity. Qed.

Lemma trimEnd_head s : headIsSpace s = false -> headIsSpace (trimEnd s) = false.
Proof.
  destruct s as [|c r]; [reflexivity|]. simpl. intros H.
  destruct (trimEnd r); [rewrite H|]; simpl; try rewrite H; reflexivity.
Qed.

Lemma trimEnd_idem s : trimEnd (trimEnd s) = trimEnd s.
Proof.
  induction s as [|c r IH]; [reflexivity|].
  simpl. destruct (trimEnd r) as [|d t] eqn:E.
  - destruct (isSpace c) eqn:Ec; [reflexivity|]. simpl. rewrite Ec. reflexivity.
  - change (trimEnd (c :: d :: t)) with
      (match trimEnd (d :: t) with
       | [] => if isSpace c then [] else [c]
       | x => c :: x
       end).
    rewrite IH. reflexivity.
Qed.

Lemma trim_idem s : trim (trim s) = trim s.
Proof.
  unfold trim. rewrite (trimStart_fixed (trimEnd (trimStart s))).
  - apply trimEnd_idem.
  - apply trimEnd_head, trimStart_head.
Qed.

(** The three shapes pass to prefixes and to suffixes, hence to the
    trimmed string. *)
Lemma tagFree_prefix a w : tagFree (a ++ w) = true -> tagFree a = true.
Proof.
  induction a as [|c a IH]; [reflexivity|]. simpl. intros H.
  apply andb_true_iff in H as [Hc Hr]. rewrite (IH Hr), andb_true_r.
  rewrite hasUnit_app in Hc. destruct (c =? LT_SIGN); [|reflexivity].
  simpl in *. destruct (hasUnit GT_SIGN a); [discriminate|reflexivity].
Qed.

Lemma tagFree_suffix w b : tagFree (w ++ b) = true -> tagFree b = true.
Proof.
  induction w as [|c w IH]; [tauto|]. simpl. intros H.
  apply andb_true_iff in H as [_ Hr]. exact (IH Hr).
Qed.

Lemma entityBody_app a w : entityBody a = true -> entityBody (a ++ w) = true.
Proof.
  destruct a as [|d t]; [discriminate|]. simpl. intros H.
  apply andb_true_iff in H as [H1 H2].
  rewrite H1, hasUnit_app, H2. reflexivity.
Qed.

Lemma entityFree_prefix a w : entityFree (a ++ w) = true -> entityFree a = true.
Proof.
  induction a as [|c a IH]; [reflexivity|]. simpl. intros H.
  apply andb_true_iff in H as [Hc Hr]. rewrite (IH Hr), andb_true_r.
  destruct (c =? AMPERSAND); [|reflexivity]. simpl in *.
  destruct (entityBody a) eqn:E; [|reflexivity].
  rewrite (entityBody_app _ w E) in Hc. discriminate.
Qed.

Lemma entityFree_suffix w b : entityFree (w ++ b) = true -> entityFree b = true.
Proof.
  induction w as [|c w IH]; [tauto|]. simpl. intros H.
  apply andb_true_iff in H as [_ Hr]. exact (IH Hr).
Qed.

Lemma spacesNormal_prefix a w : spacesNormal (a ++ w) = true -> spacesNormal a = true.
Proof.
  induction a as [|c a IH]; [reflexivity|]. simpl. intros H.
  apply andb_true_iff in H as [Hc Hr]. rewrite (IH Hr), andb_true_r.
  destruct (isSpace c); [|reflexivity].
  apply andb_true_iff in Hc as [H1 H2]. rewrite H1. simpl.
  destruct a as [|d a]; [reflexivity|]. exact H2.
Qed.

Lemma spacesNormal_suffix w b : spacesNormal (w ++ b) = true -> spacesNormal b = true.
Proof.
  induction w as [|c w IH]; [tauto|]. simpl. intros H.
  apply andb_true_iff in H as [_ Hr]. exact (IH Hr).
Qed.

Section Trimmed.

Variable shape : jsstring -> bool.
Hypothesis shape_prefix : forall a w, shape (a ++ w) = true -> shape a = true.
Hypothesis shape_suffix : forall w b, shape (w ++ b) = true -> shape b = true.

Lemma trim_shape s : shape s = true -> shape (trim s) = true.
Proof.
  intros H. unfold trim.
  destruct (trimStart_suffix s) as [w Hw].
  destruct (trimEnd_prefix (trimStart s)) as [v Hv].
  rewrite Hw in H. apply shape_suffix in H.
  rewrite Hv in H. apply shape_prefix in H. exact H.
Qed.

End Trimmed.

(** Lowering commutes with a global replace whose matcher does not look at
    letter case on the strings at hand. *)
Lemma replaceAll_asciiLowerCase m rep (ok : jsstring -> Prop) :
  (forall c r, ok (c :: r) -> ok r) ->
  (forall s, ok s -> m (asciiLowerCase s) = m s) ->
  asciiLowerCase rep = rep ->
  forall s k, ok s ->
  replaceAll m rep k (asciiLowerCase s) = asciiLowerCase (replaceAll m rep k s).
Proof.
  intros Htail Hm Hrep. induction s as [|c r IH]; intros k Hok; [reflexivity|].
  change (asciiLowerCase (c :: r)) with (lowerUnit c :: asciiLowerCase r).
  rewrite !replaceAll_cons. destruct k as [|k]; [|apply IH, (Htail c), Hok].
  change (lowerUnit c :: asciiLowerCase r) with (asciiLowerCase (c :: r)).
  rewrite (Hm _ Hok).
  destruct (m (c :: r)) as [[|j]|].
  - change (asciiLowerCase (c :: ?x)) with (lowerUnit c :: asciiLowerCase x).
    simpl. f_equal. apply IH, (Htail c), Hok.
  - transitivity (asciiLowerCase rep ++ asciiLowerCase (replaceAll m rep j r)).
    + rewrite Hrep. f_equal. apply IH, (Htail c), Hok.
    + symmetry. apply List.map_app.
  - simpl. f_equal. apply IH, (Htail c), Hok.
Qed.

Lemma asciiLowerCase_indexOfUnit x s :
  x < 65 -> indexOfUnit x (asciiLowerCase s) = indexOfUnit x s.
Proof.
  intros Hx. induction s as [|c r IH]; [reflexivity|].
  simpl. rewrite lowerUnit_eqb, IH by exact Hx. reflexivity.
Qed.

Lemma asciiLowerCase_spanSpaces s : spanSpaces (asciiLowerCase s) = spanSpaces s.
Proof.
  induction s as [|c r IH]; [reflexivity|].
  simpl. rewrite isSpace_lowerUnit, IH. reflexivity.
Qed.


Lemma asciiLowerCase_idem s : asciiLowerCase (asciiLowerCase s) = asciiLowerCase s.
Proof.
  induction s as [|c r IH]; [reflexivity|].
  simpl. rewrite lowerUnit_idem. f_equal. exact IH.
Qed.

Lemma matchLit_no_ampersand lit s :
  entityShaped lit = true -> hasUnit AMPERSAND s = false -> matchLit lit s = None.
Proof.
  intros Hlit Hs. unfold matchLit.
  destruct (startsWith s lit) eqn:E; [|reflexivity].
  apply startsWith_app in E as [x ->].
  destruct lit as [|a [|d rest]]; try discriminate.
  simpl in Hlit. apply andb_true_iff in Hlit as [Hlit _].
  apply andb_true_iff in Hlit as [Ha _]. apply N.eqb_eq in Ha. subst a.
  change ((AMPERSAND :: d :: rest) ++ x) with (AMPERSAND :: (d :: rest) ++ x) in Hs.
  rewrite hasUnit_cons, N.eqb_refl in Hs. discriminate.
Qed.

(** With the case map of Basic Latin, letter case is disregarded on a
    string without an ampersand. (The names of the entities are matched
    as they are written: see [normalizeTitle_entity_names] below.) *)
Lemma normalizeTitle_ignores_case s :
  hasUnit AMPERSAND s = false ->
  normalizeTitle asciiLowerCase (asciiLowerCase s) =
  normalizeTitle asciiLowerCase s.
Proof.
  intros Hs. unfold normalizeTitle.
  destruct s as [|c0 s0]; [reflexivity|].
  set (s := c0 :: s0) in *.
  change (negb (truthyStr (asciiLowerCase s))) with false.
  change (negb (truthyStr s)) with false. cbv iota zeta.
  set (ok := fun t : jsstring => hasUnit AMPERSAND t = false).
  assert (Htail : forall c r, ok (c :: r) -> ok r).
  { unfold ok. intros c r H. rewrite hasUnit_cons in H.
    apply orb_false_iff in H. tauto. }
  assert (Hkeep : forall m rep t, hasUnit AMPERSAND rep = false -> ok t ->
                    ok (replaceAll m rep 0 t)).
  { unfold ok. intros m rep t Hrep Ht. apply replaceAll_hasUnit_false; assumption. }
  assert (Hlow : forall t, ok t -> ok (asciiLowerCase t)).
  { unfold ok. intros t Ht. rewrite asciiLowerCase_hasUnit by reflexivity. exact Ht. }
  assert (Htag : forall t, ok t ->
            replaceAll matchTag [] 0 (asciiLowerCase t) =
            asciiLowerCase (replaceAll matchTag [] 0 t)).
  { intros t Ht. apply (replaceAll_asciiLowerCase _ _ ok); auto.
    intros [|c r] _; [reflexivity|].
    change (asciiLowerCase (c :: r)) with (lowerUnit c :: asciiLowerCase r).
    unfold matchTag. rewrite lowerUnit_eqb, asciiLowerCase_indexOfUnit by reflexivity.
    reflexivity. }
  assert (Hlit : forall lit rep t, entityShaped lit = true -> ok t ->
            replaceAll (matchLit lit) rep 0 t = t).
  { intros lit rep t Hl Ht. induction t as [|c r IH]; [reflexivity|].
    rewrite replaceAll_cons, (matchLit_no_ampersand _ _ Hl Ht).
    f_equal. apply IH, (Htail c), Ht. }
  assert (Hent : forall t, ok t -> replaceAll matchEntity [] 0 t = t).
  { intros t Ht. induction t as [|c r IH]; [reflexivity|].
    rewrite replaceAll_cons. unfold matchEntity at 1.
    unfold ok in Ht. rewrite hasUnit_cons in Ht.
    apply orb_false_iff in Ht as [Hc Hr]. rewrite N.eqb_sym in Hc. rewrite Hc.
    f_equal. apply IH, Hr. }
  assert (Hsp : forall t,
            replaceAll matchSpaces [SPACE] 0 (asciiLowerCase t) =
            asciiLowerCase (replaceAll matchSpaces [SPACE] 0 t)).
  { intros t. apply (replaceAll_asciiLowerCase _ _ (fun _ => True)); auto.
    intros u _. unfold matchSpaces. rewrite asciiLowerCase_spanSpaces. reflexivity. }
  change (js " ") with [SPACE].
  assert (Hs1 : ok (replaceAll matchTag [] 0 s)) by (apply Hkeep; [reflexivity|exact Hs]).
  rewrite (Htag s Hs).
  set (t1 := replaceAll matchTag [] 0 s) in *.
  rewrite !(Hlit _ _ (asciiLowerCase t1)) by first [reflexivity | apply Hlow; exact Hs1].
  rewrite !(Hlit _ _ t1) by first [reflexivity | exact Hs1].
  rewrite (Hent (asciiLowerCase t1)) by (apply Hlow; exact Hs1).
  rewrite (Hent t1) by exact Hs1.
  rewrite Hsp, asciiLowerCase_idem. reflexivity.
Qed.


(** *** Markup kept in place *)

Lemma plain_hasUnit x l :
  isMarkup x = true -> forallb (fun y => negb (isMarkup y)) l = true ->
  hasUnit x l = false.
Proof.
  intros Hx. induction l as [|c l IH]; [reflexivity|].
  cbn [forallb]. intros H. apply andb_true_iff in H as [Hc Hl].
  rewrite hasUnit_cons, (IH Hl), orb_false_r.
  destruct (N.eqb_spec x c) as [->|]; [|reflexivity].
  rewrite Hx in Hc. discriminate.
Qed.

Lemma isMarkup_false c :
  isMarkup c = false ->
  (c =? LT_SIGN) = false /\ (c =? GT_SIGN) = false /\
  (c =? AMPERSAND) = false /\ (c =? SEMICOLON) = false /\ isSpace c = false.
Proof.
  unfold isMarkup. intros H. repeat (apply orb_false_iff in H as [H ?]).
  repeat split; assumption.
Qed.


Lemma sameMarkup_hasUnit x s t :
  isMarkup x = true -> SameMarkup s t -> hasUnit x t = hasUnit x s.
Proof.
  intros Hx. induction 1 as [|c s t Hc _ IH|c d ds s t Hc Hd _ IH].
  - reflexivity.
  - rewrite !hasUnit_cons, IH. reflexivity.
  - rewrite hasUnit_app, (plain_hasUnit x _ Hx Hd), hasUnit_cons, IH.
    destruct (N.eqb_spec x c) as [->|]; [|reflexivity].
    rewrite Hx in Hc. discriminate.
Qed.

Lemma sameMarkup_tagFree s t : SameMarkup s t -> tagFree t = tagFree s.
Proof.
  induction 1 as [|c s t Hc Hst IH|c d ds s t Hc Hd Hst IH].
  - reflexivity.
  - cbn [tagFree]. rewrite IH, (sameMarkup_hasUnit GT_SIGN s t); auto.
  - rewrite tagFree_app_clean by (apply plain_hasUnit; [reflexivity|exact Hd]).
    cbn [tagFree]. apply isMarkup_false in Hc as (-> & _). rewrite IH. reflexivity.
Qed.

Lemma sameMarkup_entityBody s t : SameMarkup s t -> entityBody t = entityBody s.
Proof.
  destruct 1 as [|c s t Hc Hst|c d ds s t Hc Hd Hst].
  - reflexivity.
  - cbn [entityBody]. rewrite (sameMarkup_hasUnit SEMICOLON s t); auto.
  - cbn [app entityBody].
    rewrite hasUnit_app, (sameMarkup_hasUnit SEMICOLON s t) by auto.
    cbn [forallb] in Hd. apply andb_true_iff in Hd as [Hd Hds].
    rewrite (plain_hasUnit SEMICOLON ds) by auto.
    apply negb_true_iff, isMarkup_false in Hd as (_ & _ & _ & -> & _).
    apply isMarkup_false in Hc as (_ & _ & _ & -> & _). reflexivity.
Qed.

Lemma sameMarkup_entityFree s t : SameMarkup s t -> entityFree t = entityFree s.
Proof.
  induction 1 as [|c s t Hc Hst IH|c d ds s t Hc Hd Hst IH].
  - reflexivity.
  - cbn [entityFree]. rewrite IH, (sameMarkup_entityBody s t Hst). reflexivity.
  - rewrite entityFree_app_clean by (apply plain_hasUnit; [reflexivity|exact Hd]).
    cbn [entityFree]. apply isMarkup_false in Hc as (_ & _ & -> & _).
    rewrite IH. reflexivity.
Qed.

Lemma sameMarkup_headIsSpace s t : SameMarkup s t -> headIsSpace t = headIsSpace s.
Proof.
  destruct 1 as [|c s t Hc Hst|c d ds s t Hc Hd Hst]; try reflexivity.
  cbn [app headIsSpace]. cbn [forallb] in Hd. apply andb_true_iff in Hd as [Hd _].
  apply negb_true_iff, isMarkup_false in Hd as (_ & _ & _ & _ & ->).
  apply isMarkup_false in Hc as (_ & _ & _ & _ & ->). reflexivity.
Qed.

Lemma spacesNormal_app_clean l t :
  forallb (fun y => negb (isMarkup y)) l = true ->
  spacesNormal (l ++ t) = spacesNormal t.
Proof.
  induction l as [|c l IH]; [reflexivity|].
  cbn [forallb]. intros H. apply andb_true_iff in H as [Hc Hl].
  cbn [app spacesNormal]. rewrite (IH Hl).
  apply negb_true_iff, isMarkup_false in Hc as (_ & _ & _ & _ & ->). reflexivity.
Qed.

Lemma sameMarkup_spacesNormal s t : SameMarkup s t -> spacesNormal t = spacesNormal s.
Proof.
  induction 1 as [|c s t Hc Hst IH|c d ds s t Hc Hd Hst IH].
  - reflexivity.
  - cbn [spacesNormal]. rewrite IH, (sameMarkup_headIsSpace s t Hst). reflexivity.
  - rewrite spacesNormal_app_clean by exact Hd.
    cbn [spacesNormal]. apply isMarkup_false in Hc as (_ & _ & _ & _ & ->).
    rewrite IH. reflexivity.
Qed.

(** *** The five properties, of the case map of Basic Latin *)

Lemma isMarkup_lowerUnit c : isMarkup (lowerUnit c) = isMarkup c.
Proof.
  unfold isMarkup. rewrite !lowerUnit_eqb, isSpace_lowerUnit by reflexivity.
  reflexivity.
Qed.

Lemma lowerUnit_markup c : isMarkup c = true -> lowerUnit c = c.
Proof.
  intros H. destruct (lowerUnit_cases c) as [[Hc _]|[_ ->]]; [|reflexivity].
  exfalso. unfold isMarkup in H. rewrite !orb_true_iff, !N.eqb_eq in H.
  destruct H as [[[[H|H]|H]|H]|H];
    [unfold LT_SIGN in H | unfold GT_SIGN in H | unfold AMPERSAND in H
    | unfold SEMICOLON in H | apply isSpace_spec in H]; lia.
Qed.

Lemma asciiLowerCase_on_basic_latin : LowerOnBasicLatin asciiLowerCase.
Proof. intros s _. reflexivity. Qed.

Lemma asciiLowerCase_keeps_markup : LowerKeepsMarkup asciiLowerCase.
Proof.
  intros s. induction s as [|c s IH]; [constructor|].
  change (asciiLowerCase (c :: s)) with (lowerUnit c :: asciiLowerCase s).
  destruct (isMarkup c) eqn:Hc.
  - rewrite (lowerUnit_markup c Hc). apply same_markup; assumption.
  - apply (same_letters c (lowerUnit c) []); [exact Hc| |exact IH].
    cbn [forallb]. rewrite isMarkup_lowerUnit, Hc. reflexivity.
Qed.



Lemma asciiLowerCase_leaves_no_capital : LowerLeavesNoCapital asciiLowerCase.
Proof.
  intros s c H. apply in_map_iff in H as [x [<- _]]. apply lowerUnit_idem.
Qed.

Lemma asciiLowerCase_basic_latin s :
  isBasicLatin s = true -> isBasicLatin (asciiLowerCase s) = true.
Proof.
  unfold isBasicLatin, asciiLowerCase. rewrite !forallb_forall.
  intros H x Hx. apply in_map_iff in Hx as [c [<- Hc]].
  apply H, N.ltb_lt in Hc. apply N.ltb_lt.
  destruct (lowerUnit_cases c) as [[Hr ->]|[_ ->]]; lia.
Qed.

(** *** [normalizeTitle] *)

Lemma isBasicLatin_In s :
  isBasicLatin s = true <-> forall c, In c s -> c < 128.
Proof.
  unfold isBasicLatin. rewrite forallb_forall. split; intros H c Hc.
  - apply N.ltb_lt, H, Hc.
  - apply N.ltb_lt, H, Hc.
Qed.

Lemma replaceAll_basic_latin m rep s k :
  isBasicLatin rep = true -> isBasicLatin s = true ->
  isBasicLatin (replaceAll m rep k s) = true.
Proof.
  rewrite !isBasicLatin_In. intros Hrep Hs c Hc.
  apply replaceAll_In in Hc as [Hc|Hc]; auto.
Qed.

Lemma trim_In c s : In c (trim s) -> In c s.
Proof.
  unfold trim. intros H.
  destruct (trimStart_suffix s) as [w Hw].
  destruct (trimEnd_prefix (trimStart s)) as [v Hv].
  rewrite Hw. apply in_or_app. right. rewrite Hv. apply in_or_app. left. exact H.
Qed.

Lemma trim_basic_latin s : isBasicLatin s = true -> isBasicLatin (trim s) = true.
Proof.
  rewrite !isBasicLatin_In. intros H c Hc. apply H, trim_In, Hc.
Qed.

Section NormalizeTitle.

Variable lower : jsstring -> jsstring.

Lemma normalizeTitle_shape s :
  LowerKeepsMarkup lower ->
  tagFree (normalizeTitle lower s) = true /\
  entityFree (normalizeTitle lower s) = true /\
  spacesNormal (normalizeTitle lower s) = true /\
  trim (normalizeTitle lower s) = normalizeTitle lower s.
Proof.
  intros Hkeep. unfold normalizeTitle. destruct (negb (truthyStr s)).
  { repeat split. }
  cbv zeta. repeat split.
  - apply (trim_shape tagFree tagFree_prefix tagFree_suffix).
    rewrite (sameMarkup_tagFree _ _ (Hkeep _)).
    do 9 (apply replaceAll_tagFree; [reflexivity|reflexivity|]).
    apply stripTags_tagFree.
  - apply (trim_shape entityFree entityFree_prefix entityFree_suffix).
    rewrite (sameMarkup_entityFree _ _ (Hkeep _)).
    apply collapse_entityFree, stripEntities_entityFree.
  - apply (trim_shape spacesNormal spacesNormal_prefix spacesNormal_suffix).
    rewrite (sameMarkup_spacesNormal _ _ (Hkeep _)).
    apply collapse_spacesNormal.
  - apply trim_idem.
Qed.




(** Tags, as the pattern matches them, are disregarded whatever the
    string. *)
Lemma normalizeTitle_ignores_tags s :
  lower [] = [] ->
  normalizeTitle lower (replaceAll matchTag [] 0 s) = normalizeTitle lower s.
Proof.
  intros Hnil. unfold normalizeTitle.
  rewrite (stripTags_fixed [] _ (stripTags_tagFree s 0)).
  destruct s as [|c s]; [reflexivity|].
  destruct (replaceAll matchTag [] 0 (c :: s)); [|reflexivity].
  cbn. rewrite Hnil. reflexivity.
Qed.


(** On Basic Latin the method of the runtime and the case map of Basic
    Latin give the same normalized title, which is Basic Latin again. *)
Lemma normalizeTitle_basic_latin s :
  LowerOnBasicLatin lower -> isBasicLatin s = true ->
  normalizeTitle lower s = normalizeTitle asciiLowerCase s /\
  isBasicLatin (normalizeTitle lower s) = true.
Proof.
  intros Hlow Hs. unfold normalizeTitle.
  destruct (negb (truthyStr s)); [split; reflexivity|].
  cbv zeta.
  match goal with
  | |- trim (lower ?x) = _ /\ _ =>
      assert (Hx : isBasicLatin x = true)
        by (repeat (apply replaceAll_basic_latin; [reflexivity|]); exact Hs);
      rewrite (Hlow x Hx)
  end.
  split; [reflexivity|].
  apply trim_basic_latin, asciiLowerCase_basic_latin, Hx.
Qed.

End NormalizeTitle.


Example normalizeTitle_ex1 :
  normalizeTitle asciiLowerCase (js "Hello <b>World</b>") = js "hello world".
Proof. reflexivity. Qed.

Example normalizeTitle_ex2 :
  normalizeTitle asciiLowerCase (js "  Tom &amp; Jerry&#8217;s&nbsp;&nbsp;Day ") = js "tom & jerry's day".
Proof. vm_compute. reflexivity. Qed.

(** The catch-all entity pattern runs from a decoded ampersand to the next
    semicolon, however far away it is. *)
Example normalizeTitle_ex3 :
  normalizeTitle asciiLowerCase (js "Tom &amp; Jerry &hellip; again") = js "tom again".
Proof. vm_compute. reflexivity. Qed.

(** The names of the entities are matched as they are written: the
    lower-case name is decoded, the upper-case one falls to the catch-all
    pattern.  The strings are Basic Latin, on which every [toLowerCase]
    is the case map. *)
Example normalizeTitle_entity_names :
  normalizeTitle asciiLowerCase (js "R&amp;D") = js "r&d" /\
  normalizeTitle asciiLowerCase (js "R&AMP;D") = js "rd".
Proof. split; vm_compute; reflexivity. Qed.

(** ** Runs of the engine *)

Section Runs.

Context {C : Collaborators} (cfg : Config).

Lemma bind_run {A B} (m : M C A) (k : A -> M C B) st :
  bind C m k st = k (fst (m st)) (snd (m st)).
Proof. unfold bind. destruct (m st). reflexivity. Qed.

Lemma bind_pair {A B} (m : M C A) (k : A -> M C B) st a st' :
  m st = (a, st') -> bind C m k st = k a st'.
Proof. intros H. unfold bind. rewrite H. reflexivity. Qed.

Lemma extends_refl P (st : State C) : P [] -> Extends P st st.
Proof. intros H. split; [reflexivity|]. exists []. split; [reflexivity|exact H]. Qed.

Lemma extends_trans P (st1 st2 st3 : State C) :
  (forall newer older, P newer -> P older -> P (newer ++ older)) ->
  Extends P st1 st2 -> Extends P st2 st3 -> Extends P st1 st3.
Proof.
  intros Happ [Hl1 [e1 [Ht1 Hp1]]] [Hl2 [e2 [Ht2 Hp2]]].
  split; [congruence|]. exists (e2 ++ e1). split.
  - rewrite Ht2, Ht1. apply app_assoc.
  - apply Happ; assumption.
Qed.

Section Law.

Variable P : list Event -> Prop.
Variable allowed readable : Request -> bool.
Hypothesis law : TraceLaw P (REQUEST_DELAY_MS cfg) allowed readable.

Lemma respects_ret {A} (a : A) : Respects P (ret C a).
Proof. intros st. apply extends_refl, (law_nil _ _ _ _ law). Qed.

Lemma respects_bind {A B} (m : M C A) (k : A -> M C B) :
  Respects P m -> (forall a, Respects P (k a)) -> Respects P (bind C m k).
Proof.
  intros Hm Hk st. rewrite bind_run.
  eapply extends_trans; [apply (law_app _ _ _ _ law) | apply Hm | apply Hk].
Qed.

Lemma respects_pure {A} (f : State C -> A) : Respects P (fun st => (f st, st)).
Proof. intros st. apply extends_refl, (law_nil _ _ _ _ law). Qed.

Lemma respects_readCall {A} r (f : World C -> Reply A) :
  isWrite r = false -> readable r = true -> Respects P (readCall C r f).
Proof.
  intros Hr Hread st. split; [reflexivity|]. exists [Call r].
  split; [reflexivity | apply (law_read _ _ _ _ law); assumption].
Qed.

(** A write right after the delay. *)
Lemma respects_delayed_write {A B} r (f : World C -> Reply A * World C)
    (k : Reply A -> M C B) :
  allowed r = true -> (forall a, Respects P (k a)) ->
  Respects P (bind C (sleep C (REQUEST_DELAY_MS cfg))
                (fun _ => bind C (writeCall C r f) k)).
Proof.
  intros Hr Hk st. rewrite !bind_run.
  eapply extends_trans; [apply (law_app _ _ _ _ law) | | apply Hk].
  unfold writeCall, sleep, record. rewrite bind_run. cbn [fst snd world trace logResults].
  destruct (f (world st)) as [a w]. cbn [snd world trace logResults].
  split; [reflexivity|]. exists [Call r; Sleep (REQUEST_DELAY_MS cfg)].
  split; [reflexivity | apply (law_write _ _ _ _ law), Hr].
Qed.

Hypothesis media_allowed : forall f, allowed (PostMedia f) = true.
Hypothesis image_readable : forall url, readable (GetImage url) = true.

Ltac step :=
  first
    [ apply respects_ret
    | apply respects_delayed_write; [solve [auto] | intros ?]
    | apply respects_readCall; [reflexivity | solve [auto]]
    | apply respects_bind; [|intros ?]
    | apply respects_pure
    | match goal with
      | |- Respects _ (if ?b then _ else _) => destruct b
      | |- Respects _ (match ?x with _ => _ end) => destruct x
      end ].

(** With a law that holds of a lone sleep, the pause after each name
    included. *)
Section Pause.

Hypothesis terms_allowed : forall taxonomy name, allowed (PostTerm taxonomy name) = true.
Hypothesis search_readable : forall taxonomy name, readable (GetTerms taxonomy name) = true.
Hypothesis law_sleep : forall ms, P [Sleep ms].

Lemma respects_sleep ms : Respects P (sleep C ms).
Proof.
  intros st. split; [reflexivity|]. exists [Sleep ms].
  split; [reflexivity | apply law_sleep].
Qed.

Lemma getOrCreateTerm_respects name taxonomy :
  Respects P (getOrCreateTerm C cfg name taxonomy).
Proof. unfold getOrCreateTerm. repeat step. Qed.

Lemma resolveNames_respects names taxonomy : forall termIds,
  Respects P (resolveNames C cfg names taxonomy termIds).
Proof.
  induction names as [|name rest IH]; intros termIds; simpl.
  - apply respects_ret.
  - apply respects_bind; [apply getOrCreateTerm_respects|intros id].
    apply respects_bind; [apply respects_sleep|intros _]. apply IH.
Qed.

Lemma resolveTerms_respects termString taxonomy :
  Respects P (resolveTerms C cfg termString taxonomy).
Proof.
  unfold resolveTerms. destruct (negb _); [apply respects_ret|].
  apply resolveNames_respects.
Qed.

End Pause.

(** The rest of the engine, given that [resolveTerms] obeys the law. *)
Hypothesis terms_respect : forall termString taxonomy,
  Respects P (resolveTerms C cfg termString taxonomy).

Lemma uploadMedia_respects filePathOrUrl :
  Respects P (uploadMedia C cfg filePathOrUrl).
Proof. unfold uploadMedia, downloadImageFromUrl. repeat step. Qed.

Lemma enrichPostData_respects row pd : Respects P (enrichPostData C cfg row pd).
Proof.
  unfold enrichPostData, resolveCategories, resolveTags, resolveFeaturedImage.
  repeat first
    [ apply terms_respect | apply uploadMedia_respects | step ].
Qed.

Hypothesis slug_readable : forall slug, readable (GetPostsBySlug slug) = true.
Hypothesis page_readable : forall page, readable (GetPostsPage page) = true.

Lemma findPostBySlug_respects slug : Respects P (findPostBySlug C slug).
Proof. unfold findPostBySlug. repeat step. Qed.

Lemma scanLoop_respects fuel normalized : forall page,
  Respects P (scanLoop C fuel normalized page).
Proof.
  induction fuel as [|fuel IH]; intros page; simpl; [apply respects_ret|].
  apply respects_bind; [apply respects_readCall; [reflexivity|auto]|intros response].
  destruct response as [[|post data]|e]; try apply respects_ret.
  destruct (scanPage _ _); try apply respects_ret.
  destruct (_ <? _)%nat; [apply respects_ret|].
  destruct (10 <? page + 1); [apply respects_ret|apply IH].
Qed.

Lemma findPostByTitle_respects title : Respects P (findPostByTitle C title).
Proof.
  unfold findPostByTitle. destruct (negb _); [apply respects_ret|].
  apply respects_bind; [apply scanLoop_respects|intros r].
  destruct r; apply respects_ret.
Qed.

Lemma checkDuplicate_respects pd : Respects P (checkDuplicate C pd).
Proof.
  unfold checkDuplicate.
  apply respects_bind; [apply findPostByTitle_respects|intros r].
  repeat step.
Qed.

Hypothesis posts_allowed : forall target pd, allowed (PostPost target pd) = true.

Lemma writePost_respects result pd : Respects P (writePost C cfg result pd).
Proof.
  unfold writePost.
  apply respects_bind.
  { destruct (pd_slug pd) as [[|c s]|]; try apply respects_ret.
    apply findPostBySlug_respects. }
  intros existingPostId. repeat step.
Qed.

Lemma createOrUpdatePost_respects row rowNumber :
  Respects P (createOrUpdatePost C cfg row rowNumber).
Proof.
  unfold createOrUpdatePost, tryCreateOrUpdate.
  apply respects_bind; [|intros r; destruct r; apply respects_ret].
  destruct (validateRow row); [|apply respects_ret].
  apply respects_bind; [apply enrichPostData_respects|intros enriched].
  destruct enriched as [pd|e]; [|apply respects_ret].
  apply respects_bind; [apply checkDuplicate_respects|intros guard].
  destruct guard; [apply writePost_respects|apply respects_ret].
Qed.

End Law.

End Runs.

(** ** The two trace laws *)

Lemma delayedWrites_app d newer older :
  delayedWrites d newer = true -> delayedWrites d older = true ->
  delayedWrites d (newer ++ older) = true.
Proof.
  induction newer as [|e newer IH]; intros Hn Ho; [exact Ho|].
  simpl in Hn. apply andb_true_iff in Hn as [He Hn].
  simpl. rewrite (IH Hn Ho), andb_true_r.
  destruct (isWriteEvent e); [|reflexivity].
  destruct newer as [|[ms|r] newer]; try discriminate. exact He.
Qed.

Lemma delayedWrites_law d :
  TraceLaw (DelayedWrites d) d (fun _ => true) (fun _ => true).
Proof.
  split; unfold DelayedWrites.
  - reflexivity.
  - apply delayedWrites_app.
  - intros r Hr _. simpl. rewrite Hr. reflexivity.
  - intros r _. simpl. rewrite Z.eqb_refl. destruct (isWrite r); reflexivity.
Qed.

Lemma noPostWrite_law d : TraceLaw NoPostWrite d notPostPost (fun _ => true).
Proof.
  split; unfold NoPostWrite.
  - constructor.
  - intros newer older Hn Ho. apply Forall_app. split; assumption.
  - intros [] Hr _; try discriminate; repeat constructor.
  - intros [] Hr; try discriminate; repeat constructor.
Qed.

(** What follows a sleep.  A piece of trace put on top of a trace whose
    newest event is a sleep has to start well; on top of a request it
    need not. *)
Lemma sleepsLeadOn_cons e older :
  sleepsLeadOn (e :: older) =
  match older with
  | Sleep _ :: _ => mayFollowSleep e
  | _ => true
  end && sleepsLeadOn older.
Proof. reflexivity. Qed.

Lemma sleepsLeadOn_app newer older :
  sleepsLeadOn newer = true -> startsWell newer = true ->
  sleepsLeadOn older = true -> sleepsLeadOn (newer ++ older) = true.
Proof.
  unfold startsWell.
  induction newer as [|e newer IH]; intros Hn Hs Ho; [exact Ho|].
  rewrite sleepsLeadOn_cons in Hn. apply andb_true_iff in Hn as [He Hn].
  cbn [app]. rewrite sleepsLeadOn_cons.
  destruct newer as [|e' newer].
  - cbn [app]. rewrite Ho, andb_true_r. cbn [List.last] in Hs.
    destruct older as [|[ms|r] older]; auto.
  - rewrite IH; [|exact Hn|exact Hs|exact Ho]. cbn [app]. rewrite andb_true_r. exact He.
Qed.

Lemma sleepsLeadOn_on_call newer r older :
  sleepsLeadOn newer = true -> sleepsLeadOn (Call r :: older) = true ->
  sleepsLeadOn (newer ++ Call r :: older) = true.
Proof.
  induction newer as [|e newer IH]; intros Hn Ho; [exact Ho|].
  rewrite sleepsLeadOn_cons in Hn. apply andb_true_iff in Hn as [He Hn].
  cbn [app]. rewrite sleepsLeadOn_cons, (IH Hn Ho), andb_true_r.
  destruct newer as [|e' newer]; [reflexivity|exact He].
Qed.

Lemma startsWell_app newer older :
  older <> [] -> startsWell (newer ++ older) = startsWell older.
Proof.
  intros Ho. unfold startsWell. f_equal.
  induction newer as [|e newer IH]; [reflexivity|].
  cbn [app List.last]. rewrite IH.
  destruct (newer ++ older) eqn:E; [|reflexivity].
  apply app_eq_nil in E as [_ E]. contradiction.
Qed.

Lemma noSleep_sleepsLeadOn evs : noSleep evs = true -> sleepsLeadOn evs = true.
Proof.
  induction evs as [|e evs IH]; [reflexivity|].
  cbn [noSleep forallb]. intros H. apply andb_true_iff in H as [_ H].
  rewrite sleepsLeadOn_cons, (IH H), andb_true_r.
  destruct evs as [|[ms|r] evs]; try reflexivity.
  cbn [noSleep forallb] in H. discriminate.
Qed.

Lemma leadsOn_app newer older :
  LeadsOn newer -> LeadsOn older -> LeadsOn (newer ++ older).
Proof.
  intros [Hn Hsn] [Ho Hso]. split.
  - apply sleepsLeadOn_app; assumption.
  - destruct older as [|e older]; [rewrite app_nil_r; exact Hsn|].
    rewrite startsWell_app by discriminate. exact Hso.
Qed.

Lemma leadsOn_law d : TraceLaw LeadsOn d isWrite resolutionRead.
Proof.
  split.
  - split; reflexivity.
  - apply leadsOn_app.
  - intros [] _ Hr; try discriminate; split; reflexivity.
  - intros r Hr. split; [|reflexivity]. cbn. rewrite andb_true_r.
    destruct r; try discriminate; reflexivity.
Qed.

(** Why a sleep is there.  The law holds of no lone sleep: the pause
    after a name is accounted for by the request before it. *)
Lemma pausesOnly_cons d next e older :
  pausesOnly d next (e :: older) =
  match e with
  | Sleep ms =>
      (ms =? d)%Z &&
      (match next with
       | Some after => isWriteEvent after
       | None => false
       end
       || match older with
          | before :: _ => isTermEvent before
          | [] => false
          end)
  | Call _ => true
  end && pausesOnly d (Some e) older.
Proof. reflexivity. Qed.

Lemma pausesOnly_next d next evs :
  pausesOnly d None evs = true -> pausesOnly d next evs = true.
Proof.
  destruct evs as [|e older]; [reflexivity|].
  rewrite !pausesOnly_cons. intros H. apply andb_true_iff in H as [He Ho].
  rewrite Ho, andb_true_r. destruct e as [ms|r]; [|reflexivity].
  apply andb_true_iff in He as [Hms He]. rewrite Hms. cbn [andb].
  cbn [orb] in He. rewrite He. apply orb_true_r.
Qed.

Lemma pausesOnly_app d newer : forall next older,
  pausesOnly d next newer = true -> pausesOnly d None older = true ->
  pausesOnly d next (newer ++ older) = true.
Proof.
  induction newer as [|e newer IH]; intros next older Hn Ho.
  - apply pausesOnly_next, Ho.
  - cbn [app]. rewrite pausesOnly_cons in Hn |- *.
    apply andb_true_iff in Hn as [He Hn]. rewrite (IH _ _ Hn Ho), andb_true_r.
    destruct e as [ms|r]; [|reflexivity].
    apply andb_true_iff in He as [Hms He]. rewrite Hms. cbn [andb].
    apply orb_true_iff in He as [He|He]; [rewrite He; reflexivity|].
    destruct newer as [|before newer]; [discriminate|].
    cbn [app]. rewrite He. apply orb_true_r.
Qed.

Lemma pausesOnly_law d : TraceLaw (PausesOnly d) d isWrite (fun _ => true).
Proof.
  split; unfold PausesOnly.
  - reflexivity.
  - intros newer older. apply pausesOnly_app.
  - reflexivity.
  - intros r Hr. cbn. rewrite Z.eqb_refl, Hr. reflexivity.
Qed.

(** ** The laws and the engine *)

Section Laws.

Context {C : Collaborators} (cfg : Config).

Lemma readCall_run {A} r (f : World C -> Reply A) (st : State C) :
  readCall C r f st =
  (f (world st), Build_State C (world st) (Call r :: trace st) (logResults st)).
Proof. reflexivity. Qed.

Lemma resolveTerms_noPostWrite termString taxonomy :
  Respects NoPostWrite (resolveTerms C cfg termString taxonomy).
Proof.
  apply (resolveTerms_respects cfg NoPostWrite notPostPost (fun _ => true)
           (noPostWrite_law (REQUEST_DELAY_MS cfg))); try reflexivity.
  intros ms. repeat constructor.
Qed.

Lemma enrichPostData_noPostWrite row pd :
  Respects NoPostWrite (enrichPostData C cfg row pd).
Proof.
  apply (enrichPostData_respects cfg NoPostWrite notPostPost (fun _ => true)
           (noPostWrite_law (REQUEST_DELAY_MS cfg))); try reflexivity.
  apply resolveTerms_noPostWrite.
Qed.

Lemma findPostBySlug_noPostWrite slug :
  Respects NoPostWrite (findPostBySlug C slug).
Proof.
  apply (findPostBySlug_respects cfg NoPostWrite notPostPost (fun _ => true)
           (noPostWrite_law (REQUEST_DELAY_MS cfg))); reflexivity.
Qed.

Lemma checkDuplicate_noPostWrite pd :
  Respects NoPostWrite (checkDuplicate C pd).
Proof.
  apply (checkDuplicate_respects cfg NoPostWrite notPostPost (fun _ => true)
           (noPostWrite_law (REQUEST_DELAY_MS cfg))); reflexivity.
Qed.

Lemma enrichPostData_leadsOn row pd :
  Respects LeadsOn (enrichPostData C cfg row pd).
Proof.
  apply (enrichPostData_respects cfg LeadsOn isWrite resolutionRead
           (leadsOn_law (REQUEST_DELAY_MS cfg))); try reflexivity.
  apply (resolveTerms_respects cfg LeadsOn isWrite resolutionRead
           (leadsOn_law (REQUEST_DELAY_MS cfg))); try reflexivity.
  intros ms. split; reflexivity.
Qed.

Lemma createOrUpdatePost_delayed row n :
  Respects (DelayedWrites (REQUEST_DELAY_MS cfg)) (createOrUpdatePost C cfg row n).
Proof.
  apply (createOrUpdatePost_respects cfg _ (fun _ => true) (fun _ => true)
           (delayedWrites_law (REQUEST_DELAY_MS cfg))); try reflexivity.
  apply (resolveTerms_respects cfg _ (fun _ => true) (fun _ => true)
           (delayedWrites_law (REQUEST_DELAY_MS cfg))); reflexivity.
Qed.

(** What a term resolution adds for a name that is not blank: its
    search, or its search, the delay and the creation. *)
Lemma getOrCreateTerm_events name taxonomy (st : State C) :
  truthyStr (trim name) = true ->
  logResults (snd (getOrCreateTerm C cfg name taxonomy st)) = logResults st /\
  (trace (snd (getOrCreateTerm C cfg name taxonomy st)) =
     [Call (GetTerms taxonomy (trim name))] ++ trace st \/
   trace (snd (getOrCreateTerm C cfg name taxonomy st)) =
     [Call (PostTerm taxonomy (trim name)); Sleep (REQUEST_DELAY_MS cfg);
      Call (GetTerms taxonomy (trim name))] ++ trace st).
Proof.
  intros Ht. unfold getOrCreateTerm. rewrite Ht. cbn [negb].
  rewrite bind_run, readCall_run. cbn [fst snd].
  destruct (get_terms C (world st) taxonomy (trim name)) as [data|e].
  2:{ split; [reflexivity|left; reflexivity]. }
  destruct (List.find _ data).
  { split; [reflexivity|left; reflexivity]. }
  rewrite !bind_run. unfold writeCall, sleep, record. rewrite bind_run.
  cbn [fst snd world trace logResults].
  destruct (post_term C (world st) taxonomy (trim name)) as [[term|e] w'];
    (split; [reflexivity|right; reflexivity]).
Qed.

Lemma resolveNames_pauses names taxonomy : forall termIds,
  Forall (fun name => truthyStr (trim name) = true) names ->
  Respects (PausesOnly (REQUEST_DELAY_MS cfg))
    (resolveNames C cfg names taxonomy termIds).
Proof.
  induction names as [|name rest IH]; intros termIds Hnames st.
  - split; [reflexivity|]. exists []. split; reflexivity.
  - inversion Hnames as [|? ? Hname Hrest]; subst.
    cbn [resolveNames]. rewrite !bind_run.
    destruct (getOrCreateTerm_events name taxonomy st Hname) as [Hlog Hevs].
    set (st1 := snd (getOrCreateTerm C cfg name taxonomy st)) in *.
    unfold sleep, record. cbn [fst snd].
    match goal with
    | |- Extends _ _ (snd (resolveNames C cfg rest taxonomy ?ids ?st2)) =>
        destruct (IH ids Hrest st2) as [Hlog2 [evs [Ht2 Hp2]]]
    end.
    cbn [logResults trace] in Hlog2, Ht2.
    split; [congruence|].
    assert (Hblock : exists block,
              Sleep (REQUEST_DELAY_MS cfg) :: trace st1 = block ++ trace st /\
              PausesOnly (REQUEST_DELAY_MS cfg) block).
    { destruct Hevs as [-> | ->]; eexists; (split; [rewrite app_comm_cons; reflexivity|]);
        unfold PausesOnly; cbn; rewrite Z.eqb_refl; reflexivity. }
    destruct Hblock as [block [Hb Hpb]].
    exists (evs ++ block). rewrite Ht2, Hb, app_assoc. split; [reflexivity|].
    apply pausesOnly_app; assumption.
Qed.

Lemma resolveTerms_pauses termString taxonomy :
  Respects (PausesOnly (REQUEST_DELAY_MS cfg))
    (resolveTerms C cfg termString taxonomy).
Proof.
  unfold resolveTerms. destruct (negb _).
  - intros st. split; [reflexivity|]. exists []. split; reflexivity.
  - apply resolveNames_pauses. apply List.Forall_forall. intros name Hin.
    apply filter_In in Hin as [Hin Ht].
    apply in_map_iff in Hin as [x [<- _]]. rewrite trim_idem. exact Ht.
Qed.

Lemma createOrUpdatePost_pauses row n :
  Respects (PausesOnly (REQUEST_DELAY_MS cfg)) (createOrUpdatePost C cfg row n).
Proof.
  apply (createOrUpdatePost_respects cfg _ isWrite (fun _ => true)
           (pausesOnly_law (REQUEST_DELAY_MS cfg))); try reflexivity.
  apply resolveTerms_pauses.
Qed.

End Laws.

(** ** The title scan *)

Section Scan.

Context {C : Collaborators} (cfg : Config).

Lemma scanPage_app normalized a b :
  scanPage C normalized (a ++ b) =
  match scanPage C normalized a with
  | PageMiss => scanPage C normalized b
  | r => r
  end.
Proof.
  induction a as [|post a IH]; [reflexivity|]. simpl.
  destruct (postTitleRaw post); [|reflexivity].
  destruct (strEq _ _); [reflexivity|exact IH].
Qed.

(** The loop finds what a scan of the corpus in one piece finds, and it
    leaves the world as it is. *)
Lemma scanLoop_run normalized fuel : forall page (st : State C),
  N.of_nat fuel + page = 11 -> page <= 10 ->
  world (snd (scanLoop C fuel normalized page st)) = world st /\
  match scanPage C normalized (scannedFrom C (world st) fuel page) with
  | PageHit id => fst (scanLoop C fuel normalized page st) = ScanFound id
  | PageThrew => fst (scanLoop C fuel normalized page st) = ScanThrew
  | PageMiss => fst (scanLoop C fuel normalized page st) = ScanNone \/
                fst (scanLoop C fuel normalized page st) = ScanThrew
  end.
Proof.
  induction fuel as [|fuel IH]; intros page st Hsum Hpage; [lia|].
  cbn [scanLoop scannedFrom]. rewrite bind_run, readCall_run. cbn [fst snd].
  destruct (get_posts_page C (world st) page) as [data|e].
  2:{ simpl. auto. }
  destruct data as [|post data].
  { simpl. auto. }
  set (page1 := post :: data).
  destruct (length page1 <? perPage)%nat eqn:Eshort.
  - destruct (scanPage C normalized page1); simpl; auto.
  - rewrite scanPage_app.
    destruct (scanPage C normalized page1); simpl; auto.
    destruct (N.ltb_spec 10 (page + 1)) as [Hlast|Hmore].
    + assert (fuel = O) by lia. subst fuel. simpl. auto.
    + specialize (IH (page + 1)
        (Build_State C (world st) (Call (GetPostsPage page) :: trace st) (logResults st))).
      cbn [world] in IH. apply IH; lia.
Qed.

Lemma scanLoop_fails normalized (st : State C) page :
  ScanRequestFails C (world st) normalized page ->
  forall fuel tr, N.of_nat fuel + page = 11 -> page <= 10 ->
  fst (scanLoop C fuel normalized page
         (Build_State C (world st) tr (logResults st))) = ScanThrew.
Proof.
  induction 1 as [page e Hfail|page data Hok Hmiss Hfull Hnext Hrest IH];
    intros fuel tr Hsum Hpage.
  - destruct fuel as [|fuel]; [lia|].
    cbn [scanLoop]. rewrite bind_run, readCall_run. cbn [fst snd world].
    rewrite Hfail. reflexivity.
  - destruct fuel as [|fuel]; [lia|].
    cbn [scanLoop]. rewrite bind_run, readCall_run. cbn [fst snd world].
    rewrite Hok. destruct data as [|post data]; [simpl in Hfull; unfold perPage in Hfull; lia|].
    rewrite Hmiss.
    destruct (Nat.ltb_spec (length (post :: data)) perPage) as [Hlt|_]; [lia|].
    destruct (N.ltb_spec 10 (page + 1)) as [Hlast|_]; [lia|].
    apply IH; lia.
Qed.

(** A well-formed corpus that holds a match yields a hit: the first
    match. *)
Lemma scanPage_hit normalized corpus p :
  In p corpus -> titleMatches C normalized p = true ->
  (forall q, In q corpus -> postTitleRaw q <> None) ->
  exists q, In q corpus /\ titleMatches C normalized q = true /\
            scanPage C normalized corpus = PageHit (post_id q).
Proof.
  induction corpus as [|post corpus IH]; intros Hin Hm Hwf; [contradiction|].
  simpl. destruct (postTitleRaw post) as [raw|] eqn:Eraw.
  2:{ exfalso. apply (Hwf post); [left; reflexivity|exact Eraw]. }
  destruct (strEq (normalizeTitle (toLowerCase C) raw) normalized) eqn:Eeq.
  - exists post. split; [left; reflexivity|]. split; [|reflexivity].
    unfold titleMatches. rewrite Eraw. exact Eeq.
  - destruct Hin as [->|Hin].
    { unfold titleMatches in Hm. rewrite Eraw in Hm. congruence. }
    destruct IH as [q [Hq [Hmq Hs]]]; auto.
    { intros q Hq. apply Hwf. right. exact Hq. }
    exists q. split; [right; exact Hq|]. split; assumption.
Qed.

Lemma scanPage_no_hit normalized corpus id :
  (forall q, In q corpus -> titleMatches C normalized q = false) ->
  scanPage C normalized corpus <> PageHit id.
Proof.
  induction corpus as [|post corpus IH]; intros Hno; [discriminate|].
  simpl. pose proof (Hno post (or_introl eq_refl)) as Hp.
  unfold titleMatches in Hp. destruct (postTitleRaw post); [|discriminate].
  rewrite Hp. apply IH. intros q Hq. apply Hno. right. exact Hq.
Qed.

Lemma findPostByTitle_world title (st : State C) :
  world (snd (findPostByTitle C title st)) = world st.
Proof.
  unfold findPostByTitle. destruct (negb _); [reflexivity|].
  rewrite bind_run.
  destruct (scanLoop_run (normalizeTitle (toLowerCase C) title) 10 1 st) as [Hw _]; [reflexivity|lia|].
  destruct (fst (scanLoop C 10 (normalizeTitle (toLowerCase C) title) 1 st)); exact Hw.
Qed.


Lemma findPostByTitle_none title (st : State C) :
  (forall id, scanPage C (normalizeTitle (toLowerCase C) title) (scannedCorpus C (world st)) <> PageHit id) ->
  fst (findPostByTitle C title st) = None.
Proof.
  intros Hno. unfold findPostByTitle. destruct (negb _); [reflexivity|].
  rewrite bind_run.
  destruct (scanLoop_run (normalizeTitle (toLowerCase C) title) 10 1 st) as [_ Hr]; [reflexivity|lia|].
  unfold scannedCorpus in Hno.
  destruct (scanPage _ _) as [id| |].
  - exfalso. apply (Hno id). reflexivity.
  - destruct Hr as [-> | ->]; reflexivity.
  - rewrite Hr. reflexivity.
Qed.

(** The loop never runs out of rounds. *)
Lemma scanLoop_finishes normalized (st : State C) :
  fst (scanLoop C 10 normalized 1 st) <> ScanUnfinished.
Proof.
  destruct (scanLoop_run normalized 10 1 st) as [_ Hr]; [reflexivity|lia|].
  destruct (scanPage _ _); [rewrite Hr; discriminate | | rewrite Hr; discriminate].
  destruct Hr as [-> | ->]; discriminate.
Qed.

Lemma findPostByTitle_fails title (st : State C) :
  ScanRequestFails C (world st) (normalizeTitle (toLowerCase C) title) 1 ->
  fst (findPostByTitle C title st) = None.
Proof.
  intros Hf. unfold findPostByTitle. destruct (negb _); [reflexivity|].
  rewrite bind_run.
  pose proof (scanLoop_fails _ st 1 Hf 10%nat (trace st) eq_refl) as Hr.
  destruct st as [w tr lg]. cbn [world logResults trace] in Hr.
  rewrite Hr by lia. reflexivity.
Qed.

Lemma findPostBySlug_world slug (st : State C) :
  world (snd (findPostBySlug C slug st)) = world st.
Proof.
  unfold findPostBySlug. destruct (negb _); [reflexivity|].
  rewrite bind_run, readCall_run. cbn [fst snd].
  destruct (get_posts_by_slug C (world st) (trim slug)) as [[|p l]|e]; reflexivity.
Qed.

(** The requests of the loop: the pages from [page] on, one after the
    other, and at least one of them when the loop has a round to run. *)
Lemma scanLoop_pages normalized fuel : forall page (st : State C),
  exists k,
    (k <= fuel)%nat /\ (fuel <> O -> k <> O) /\
    trace (snd (scanLoop C fuel normalized page st)) =
    rev (List.map (fun i => Call (GetPostsPage (page + N.of_nat i))) (seq 0 k))
    ++ trace st.
Proof.
  induction fuel as [|fuel IH]; intros page st.
  - exists O. split; [lia|]. split; [congruence|reflexivity].
  - cbn [scanLoop]. rewrite bind_run, readCall_run. cbn [fst snd].
    assert (Hstop : forall r : ScanResult,
      exists k,
        (k <= S fuel)%nat /\ (S fuel <> O -> k <> O) /\
        trace (snd (ret C r
          (Build_State C (world st) (Call (GetPostsPage page) :: trace st)
             (logResults st)))) =
        rev (List.map (fun i => Call (GetPostsPage (page + N.of_nat i))) (seq 0 k))
        ++ trace st).
    { intros r. exists 1%nat. split; [lia|]. split; [congruence|].
      simpl. rewrite N.add_0_r. reflexivity. }
    destruct (get_posts_page C (world st) page) as [[|post data]|e];
      try apply Hstop.
    destruct (scanPage C normalized (post :: data)); try apply Hstop.
    destruct (_ <? _)%nat; [apply Hstop|].
    destruct (10 <? page + 1); [apply Hstop|].
    destruct (IH (page + 1)
      (Build_State C (world st) (Call (GetPostsPage page) :: trace st) (logResults st)))
      as [k [Hk [_ Ht]]].
    exists (S k). split; [lia|]. split; [congruence|]. rewrite Ht. cbn [trace].
    cbn [seq List.map rev]. rewrite <- seq_shift, List.map_map.
    rewrite N.add_0_r, <- app_assoc. cbn [app]. f_equal. f_equal.
    apply List.map_ext. intros i. do 2 f_equal. lia.
Qed.


End Scan.

(** ** The steps of [createOrUpdatePost] *)

Section Steps.

Context {C : Collaborators} (cfg : Config).

Lemma validateRow_ok row :
  validateRow row = Ok tt <->
  truthyStr (optTrim (row_title row)) = true /\
  truthyStr (optTrim (row_content row)) = true.
Proof.
  unfold validateRow.
  destruct (truthyStr (optTrim (row_title row))),
           (truthyStr (optTrim (row_content row))); simpl;
    split; try discriminate; try tauto; intros [? ?]; discriminate.
Qed.

Lemma optTrim_trim o : trim (optTrim o) = optTrim o.
Proof. destruct o as [s|]; [apply trim_idem|reflexivity]. Qed.

Lemma sameCore_refl pd : sameCore pd pd.
Proof. repeat split. Qed.

Lemma sameCore_trans a b c : sameCore a b -> sameCore b c -> sameCore a c.
Proof.
  unfold sameCore. intros (?&?&?&?&?&?&?) (?&?&?&?&?&?&?).
  repeat split; congruence.
Qed.

Lemma resolveCategories_core row pd (st : State C) :
  sameCore (fst (resolveCategories C cfg row pd st)) pd.
Proof.
  unfold resolveCategories. destruct (truthyStr _); [|apply sameCore_refl].
  rewrite bind_run. destruct (_ <? _)%nat; repeat split.
Qed.

Lemma resolveTags_core row pd (st : State C) :
  sameCore (fst (resolveTags C cfg row pd st)) pd.
Proof.
  unfold resolveTags. destruct (truthyStr _); [|apply sameCore_refl].
  rewrite bind_run. destruct (_ <? _)%nat; repeat split.
Qed.

Lemma resolveFeaturedImage_core row pd (st : State C) pd' :
  fst (resolveFeaturedImage C cfg row pd st) = Ok pd' -> sameCore pd' pd.
Proof.
  unfold resolveFeaturedImage. cbv zeta.
  match goal with
  | |- context [truthyStr (if ?b then ?x else ?y)] =>
      destruct (truthyStr (if b then x else y))
  end.
  2:{ intros [= <-]. apply sameCore_refl. }
  rewrite bind_run. destruct (fst (uploadMedia C cfg _ st)) as [[id|]|e];
    simpl; try discriminate.
  - intros [= <-]. destruct (truthyNum id); repeat split.
  - intros [= <-]. apply sameCore_refl.
Qed.

Lemma enrichPostData_core row pd (st : State C) pd' :
  fst (enrichPostData C cfg row pd st) = Ok pd' -> sameCore pd' pd.
Proof.
  unfold enrichPostData. rewrite !bind_run. intros H.
  apply resolveFeaturedImage_core in H.
  eapply sameCore_trans; [exact H|].
  eapply sameCore_trans; [apply resolveTags_core|apply resolveCategories_core].
Qed.

Lemma findPostBySlug_run slug (st : State C) :
  truthyStr (trim slug) = true ->
  findPostBySlug C slug st =
  (match get_posts_by_slug C (world st) (trim slug) with
   | Ok (post :: _) => Some (post_id post)
   | _ => None
   end,
   Build_State C (world st) (Call (GetPostsBySlug (trim slug)) :: trace st)
     (logResults st)).
Proof.
  intros Ht. unfold findPostBySlug. rewrite Ht. cbn [negb].
  rewrite bind_run, readCall_run. cbn [fst snd].
  destruct (get_posts_by_slug C (world st) (trim slug)) as [[|p l]|e]; reflexivity.
Qed.

(** The write step, given what the slug lookup returned and left. *)
Lemma writePost_after result pd existingPostId (st2 : State C) :
  let target := match existingPostId with
                | Some id => if truthyNum id then Some id else None
                | None => None
                end in
  bind C (sleep C (REQUEST_DELAY_MS cfg))
    (fun _ =>
       bind C (writeCall C (PostPost target pd) (fun w => post_post C w target pd))
         (fun response =>
            let done := match target with
                        | Some _ => updated
                        | None => created
                        end in
            match response with
            | Fail e => ret C (Thrown e None)
            | Ok (NoBody typeError) =>
                ret C (Thrown (newError typeError) (Some done))
            | Ok (PostBody post) =>
                ret C (Completed {| rowNumber := rowNumber result;
                                    res_title := res_title result;
                                    action := Some done;
                                    postId := Some (post_id post);
                                    res_status := Some (post_status post);
                                    error := None |})
            end)) st2 =
  (writeOutcome result target (fst (post_post C (world st2) target pd)),
   Build_State C (snd (post_post C (world st2) target pd))
     (Call (PostPost target pd) :: Sleep (REQUEST_DELAY_MS cfg) :: trace st2)
     (logResults st2)).
Proof.
  intros target. rewrite !bind_run. unfold writeCall, sleep, record.
  rewrite !bind_run. cbn [fst snd world trace logResults].
  destruct (post_post C (world st2) target pd) as [[[post|typeError]|e] w];
    reflexivity.
Qed.

Lemma tryCreateOrUpdate_ok row result (st : State C) done :
  fst (tryCreateOrUpdate C cfg row result st) = Completed done ->
  rowNumber done = rowNumber result /\ res_title done = res_title result /\
  action done <> None /\ postId done <> None /\ error done = None.
Proof.
  unfold tryCreateOrUpdate. destruct (validateRow row); [|discriminate].
  rewrite bind_run. destruct (fst (enrichPostData C cfg row _ st)) as [pd|e];
    [|discriminate].
  rewrite bind_run. destruct (fst (checkDuplicate C pd _)); [|discriminate].
  unfold writePost. rewrite bind_run.
  rewrite (writePost_after result pd). cbn [fst]. unfold writeOutcome.
  destruct (fst (post_post C _ _ pd)) as [[post|typeError]|e]; try discriminate.
  intros [= <-]. repeat split; discriminate.
Qed.

(** A row's result: a success, with its action and the ID of the post and
    no error, or a failure, with its error and no ID. *)
Lemma createOrUpdatePost_result row n (st : State C) :
  let result := fst (createOrUpdatePost C cfg row n st) in
  rowNumber result = n /\ res_title result = displayTitle row /\
  ((error result = None /\ action result <> None /\ postId result <> None) \/
   (error result <> None /\ postId result = None)).
Proof.
  unfold createOrUpdatePost. rewrite bind_run. cbv zeta.
  destruct (fst (tryCreateOrUpdate C cfg row _ st)) as [done|e act] eqn:E.
  - apply tryCreateOrUpdate_ok in E as (H1 & H2 & H3 & H4 & H5). cbn [fst ret].
    rewrite H1, H2. cbn. split; [reflexivity|]. split; [reflexivity|].
    left. repeat split; assumption.
  - cbn. split; [reflexivity|]. split; [reflexivity|].
    right. split; [discriminate|reflexivity].
Qed.

End Steps.

(** ** The reconciliation engine, row by row *)

Section Reconciliation.

Context (C : Collaborators) (cfg : Config).

(** C3. A row whose title or content is missing, empty or blank is
    answered with the "Missing required field" error of the first such
    field and no action, and the engine does nothing else: no request, no
    delay, no change of the world. *)
Theorem missing_field_rejected row n (st : State C) :
  truthyStr (optTrim (row_title row)) = false \/
  truthyStr (optTrim (row_content row)) = false ->
  createOrUpdatePost C cfg row n st =
  ({| rowNumber := n; res_title := displayTitle row; action := None;
      postId := None; res_status := None;
      error := Some (if truthyStr (optTrim (row_title row))
                     then missingContent else missingTitle) |}, st).
Proof.
  intros H. unfold createOrUpdatePost, tryCreateOrUpdate, validateRow.
  destruct (truthyStr (optTrim (row_title row))) eqn:Et; cbn [negb].
  - destruct H as [H|H]; [discriminate|]. rewrite H. reflexivity.
  - reflexivity.
Qed.

(** What a valid row leaves in the trace: nothing that writes a post, or a
    post write as the last event, carrying the prepared payload with the
    resolved terms and media added. *)
Lemma createOrUpdatePost_trace row n (st : State C) :
  exists evs,
    trace (snd (createOrUpdatePost C cfg row n st)) = evs ++ trace st /\
    (NoPostWrite evs \/
     exists target pd rest,
       evs = Call (PostPost target pd) :: rest /\ NoPostWrite rest /\
       sameCore pd (preparePostData C cfg row)).
Proof.
  unfold createOrUpdatePost. rewrite bind_run.
  assert (Hsame : forall (r : Attempt) (s : State C) x,
            trace (snd (match r with
                        | Completed done => ret C done
                        | Thrown e action => ret C (x e action)
                        end s)) = trace s) by (intros [|]; reflexivity).
  rewrite Hsame. clear Hsame.
  unfold tryCreateOrUpdate. destruct (validateRow row).
  2:{ exists []. split; [reflexivity|]. left. constructor. }
  rewrite bind_run.
  destruct (enrichPostData_noPostWrite cfg row
              (preparePostData C cfg row) st) as [_ [e1 [Ht1 Hp1]]].
  destruct (enrichPostData C cfg row (preparePostData C cfg row) st)
    as [[pd|e] st1] eqn:Eenrich; cbn [fst snd] in *.
  2:{ exists e1. split; [exact Ht1|]. left. exact Hp1. }
  assert (Hcore : sameCore pd (preparePostData C cfg row)).
  { apply (enrichPostData_core cfg row _ st). rewrite Eenrich. reflexivity. }
  rewrite bind_run.
  destruct (checkDuplicate_noPostWrite cfg pd st1)
    as [_ [e2 [Ht2 Hp2]]].
  destruct (checkDuplicate C pd st1) as [[[]|e] st2]; cbn [fst snd] in *.
  2:{ exists (e2 ++ e1). cbn [ret snd].
      split; [rewrite Ht2, Ht1; apply app_assoc|].
      left. apply Forall_app. split; assumption. }
  unfold writePost. rewrite bind_run.
  assert (Hslug : exists e3, trace (snd (match pd_slug pd with
                                        | Some (c :: s) => findPostBySlug C (c :: s)
                                        | _ => ret C None
                                        end st2)) = e3 ++ trace st2 /\
                             NoPostWrite e3).
  { destruct (pd_slug pd) as [[|c s]|];
      try (exists []; split; [reflexivity|constructor]).
    destruct (findPostBySlug_noPostWrite cfg (c :: s) st2)
      as [_ [e3 [Ht3 Hp3]]].
    exists e3. split; assumption. }
  destruct Hslug as [e3 [Ht3 Hp3]].
  rewrite (writePost_after cfg _ pd). cbn [snd trace].
  eexists. split.
  - rewrite Ht3, Ht2, Ht1.
    change (?a :: ?b :: ?x ++ ?y ++ ?z ++ ?t)
      with ((a :: b :: x) ++ (y ++ z ++ t)).
    rewrite !app_assoc. reflexivity.
  - right. eexists _, pd, _. split; [rewrite <- !app_assoc; reflexivity|].
    split; [|exact Hcore].
    constructor; [reflexivity|]. apply Forall_app. split; [exact Hp3|].
    apply Forall_app. split; assumption.
Qed.


(** A valid row that passes the duplicate check: the slug lookup, the
    delay and the write, in that order, and a result made from the reply
    to the write. *)
Lemma createOrUpdatePost_passes row n (st : State C) pd st1 :
  validateRow row = Ok tt ->
  enrichPostData C cfg row (preparePostData C cfg row) st = (Ok pd, st1) ->
  fst (findPostByTitle C (pd_title pd) st1) = None ->
  let st2 := snd (findPostByTitle C (pd_title pd) st1) in
  let existing :=
    match pd_slug pd with
    | Some slug =>
        match get_posts_by_slug C (world st1) slug with
        | Ok (post :: _) => Some (post_id post)
        | _ => None
        end
    | None => None
    end in
  let target :=
    match existing with
    | Some id => if truthyNum id then Some id else None
    | None => None
    end in
  let lookup :=
    match pd_slug pd with
    | Some slug => [Call (GetPostsBySlug slug)]
    | None => []
    end in
  createOrUpdatePost C cfg row n st =
  (resultOfWrite row n target (fst (post_post C (world st1) target pd)),
   Build_State C (snd (post_post C (world st1) target pd))
     (Call (PostPost target pd) :: Sleep (REQUEST_DELAY_MS cfg)
        :: lookup ++ trace st2)
     (logResults st2)).
Proof.
  intros Hvalid Henrich Hnone st2 existing target lookup.
  assert (Hcore : sameCore pd (preparePostData C cfg row)).
  { apply (enrichPostData_core cfg row _ st). rewrite Henrich. reflexivity. }
  destruct Hcore as (_ & _ & _ & Hslug & _). cbn [pd_slug preparePostData] in Hslug.
  assert (Hw : world st2 = world st1) by apply findPostByTitle_world.
  assert (Hcheck : checkDuplicate C pd st1 = (Ok tt, st2)).
  { assert (Efind : findPostByTitle C (pd_title pd) st1 = (None, st2)).
    { rewrite <- Hnone. subst st2. apply surjective_pairing. }
    unfold checkDuplicate. rewrite (bind_pair _ _ _ _ _ Efind). reflexivity. }
  set (result0 := {| rowNumber := n; res_title := displayTitle row;
                     action := None; postId := None; res_status := None;
                     error := None |}).
  assert (Hlookup :
    match pd_slug pd with
    | Some (c :: s) => findPostBySlug C (c :: s)
    | _ => ret C None
    end st2 =
    (existing, Build_State C (world st1) (lookup ++ trace st2) (logResults st2))).
  { subst existing lookup. destruct (pd_slug pd) as [slug|] eqn:Es.
    - destruct (truthyStr (optTrim (row_slug row))) eqn:Et; [|discriminate].
      injection Hslug as ->.
      destruct (optTrim (row_slug row)) as [|c s] eqn:Eo; [discriminate|].
      assert (Htrim : trim (c :: s) = c :: s).
      { rewrite <- Eo. apply optTrim_trim. }
      rewrite findPostBySlug_run by (rewrite Htrim; reflexivity).
      rewrite Htrim, Hw. reflexivity.
    - cbn [ret app]. rewrite <- Hw. destruct st2; reflexivity. }
  assert (Htry : tryCreateOrUpdate C cfg row result0 st =
    (writeOutcome result0 target (fst (post_post C (world st1) target pd)),
     Build_State C (snd (post_post C (world st1) target pd))
       (Call (PostPost target pd) :: Sleep (REQUEST_DELAY_MS cfg)
          :: lookup ++ trace st2)
       (logResults st2))).
  { unfold tryCreateOrUpdate. rewrite Hvalid.
    rewrite (bind_pair _ _ _ _ _ Henrich).
    rewrite (bind_pair _ _ _ _ _ Hcheck).
    unfold writePost. rewrite (bind_pair _ _ _ _ _ Hlookup).
    exact (writePost_after cfg result0 pd existing _). }
  unfold createOrUpdatePost. fold (displayTitle row). fold result0.
  rewrite (bind_pair _ _ _ _ _ Htry). unfold resultOfWrite. fold result0.
  destruct (writeOutcome result0 target _); reflexivity.
Qed.

(** C10. When a request of the title scan fails, [findPostByTitle] answers
    [null]; a valid row is then not held back: the engine looks the slug
    up, if there is one, waits, and writes the post, and the result is
    made from the reply to that write: the written post, the exception
    of a failed request, or, the reply having no body, the action next to
    the error of reading it. *)
Theorem scan_failure_lets_row_through row n (st : State C) pd st1 :
  validateRow row = Ok tt ->
  enrichPostData C cfg row (preparePostData C cfg row) st = (Ok pd, st1) ->
  ScanRequestFails C (world st1) (normalizeTitle (toLowerCase C) (optTrim (row_title row))) 1 ->
  fst (findPostByTitle C (optTrim (row_title row)) st1) = None /\
  exists target w2 reply evs,
    post_post C (world st1) target pd = (reply, w2) /\
    trace (snd (createOrUpdatePost C cfg row n st)) =
      Call (PostPost target pd) :: Sleep (REQUEST_DELAY_MS cfg) :: evs /\
    (forall slug, pd_slug pd = Some slug ->
       exists evs', evs = Call (GetPostsBySlug slug) :: evs') /\
    match reply with
    | Ok (PostBody post) =>
        action (fst (createOrUpdatePost C cfg row n st)) <> None /\
        postId (fst (createOrUpdatePost C cfg row n st)) = Some (post_id post) /\
        error (fst (createOrUpdatePost C cfg row n st)) = None
    | Ok (NoBody typeError) =>
        action (fst (createOrUpdatePost C cfg row n st)) <> None /\
        postId (fst (createOrUpdatePost C cfg row n st)) = None /\
        error (fst (createOrUpdatePost C cfg row n st)) = Some typeError
    | Fail e =>
        action (fst (createOrUpdatePost C cfg row n st)) = None /\
        error (fst (createOrUpdatePost C cfg row n st)) = Some (errorText e)
    end.
Proof.
  intros Hvalid Henrich Hfail.
  assert (Hcore : sameCore pd (preparePostData C cfg row)).
  { apply (enrichPostData_core cfg row _ st). rewrite Henrich. reflexivity. }
  destruct Hcore as (Htitle & _). cbn [pd_title preparePostData] in Htitle.
  assert (Hnone : fst (findPostByTitle C (optTrim (row_title row)) st1) = None).
  { apply findPostByTitle_fails. exact Hfail. }
  split; [exact Hnone|].
  rewrite <- Htitle in Hnone.
  rewrite (createOrUpdatePost_passes row n st pd st1 Hvalid Henrich Hnone).
  cbn [fst snd trace].
  match goal with
  | |- context [post_post C (world st1) ?t pd] =>
      exists t; destruct (post_post C (world st1) t pd) as [reply w2] eqn:Ew
  end.
  exists w2, reply. eexists. split; [reflexivity|]. split; [reflexivity|].
  cbn [fst]. split.
  - intros slug Hs. rewrite Hs. eexists. reflexivity.
  - destruct reply as [[post|typeError]|e]; cbn; repeat split; discriminate.
Qed.

(** C2. A valid row with a slug and no duplicate title in the scanned
    corpus: when the slug lookup delivers a post, the write is an update
    and, the reply to it carrying that post's ID, the result says
    [updated] with that ID; when the lookup delivers nothing, the write is
    a creation and the result says [created] with the ID of the reply. *)
Theorem slug_decides_update_or_create row n (st : State C) pd st1 slug :
  validateRow row = Ok tt ->
  enrichPostData C cfg row (preparePostData C cfg row) st = (Ok pd, st1) ->
  (forall q, In q (scannedCorpus C (world st1)) ->
             titleMatches C (normalizeTitle (toLowerCase C) (optTrim (row_title row))) q = false) ->
  optTrim (row_slug row) = slug -> truthyStr slug = true ->
  (forall p rest q w2,
     get_posts_by_slug C (world st1) slug = Ok (p :: rest) ->
     post_id p <> 0%Z ->
     post_post C (world st1) (Some (post_id p)) pd = (Ok (PostBody q), w2) ->
     post_id q = post_id p ->
     action (fst (createOrUpdatePost C cfg row n st)) = Some updated /\
     postId (fst (createOrUpdatePost C cfg row n st)) = Some (post_id p) /\
     error (fst (createOrUpdatePost C cfg row n st)) = None) /\
  (forall q w2,
     get_posts_by_slug C (world st1) slug = Ok [] ->
     post_post C (world st1) None pd = (Ok (PostBody q), w2) ->
     action (fst (createOrUpdatePost C cfg row n st)) = Some created /\
     postId (fst (createOrUpdatePost C cfg row n st)) = Some (post_id q) /\
     error (fst (createOrUpdatePost C cfg row n st)) = None).
Proof.
  intros Hvalid Henrich Hnodup Hslug Htruthy.
  assert (Hcore : sameCore pd (preparePostData C cfg row)).
  { apply (enrichPostData_core cfg row _ st). rewrite Henrich. reflexivity. }
  destruct Hcore as (Htitle & _ & _ & Hs & _).
  cbn [pd_title pd_slug preparePostData] in Htitle, Hs.
  rewrite Hslug, Htruthy in Hs.
  assert (Hnone : fst (findPostByTitle C (pd_title pd) st1) = None).
  { apply findPostByTitle_none. intros id. rewrite Htitle.
    apply scanPage_no_hit. exact Hnodup. }
  rewrite (createOrUpdatePost_passes row n st pd st1 Hvalid Henrich Hnone).
  cbn [fst]. rewrite Hs. split.
  - intros p rest q w2 Hlook Hid Hwrite Hecho. rewrite Hlook.
    assert (Ht : truthyNum (post_id p) = true).
    { unfold truthyNum. apply negb_true_iff, Z.eqb_neq, Hid. }
    rewrite Ht, Hwrite. cbn. rewrite Hecho. repeat split.
  - intros q w2 Hlook Hwrite. rewrite Hlook, Hwrite. cbn. repeat split.
Qed.

End Reconciliation.

(** ** Terms *)

Section Terms.

Context (C : Collaborators) (cfg : Config).

(** C5. Resolving a name a second time, with nothing but the first
    resolution in between, gives the ID the first one gave: the second
    search finds the term that the first call found or created, and no
    second term is created.  The store is taken to keep the term it
    creates. *)
Theorem term_resolution_repeats name taxonomy (st : State C) id st1 :
  KeepsCreatedTerm C (world st) taxonomy (trim name) ->
  getOrCreateTerm C cfg name taxonomy st = (Some id, st1) ->
  getOrCreateTerm C cfg name taxonomy st1 =
  (Some id,
   Build_State C (world st1)
     (Call (GetTerms taxonomy (trim name)) :: trace st1) (logResults st1)).
Proof.
  intros Hkeep H. unfold getOrCreateTerm in *.
  destruct (truthyStr (trim name)); cbn [negb] in *; [|discriminate H].
  rewrite bind_run, readCall_run in H. cbn [fst snd] in H.
  rewrite bind_run, readCall_run. cbn [fst snd].
  destruct (get_terms C (world st) taxonomy (trim name)) as [data|e] eqn:Es;
    [|discriminate H].
  set (same := fun term : Term =>
         strEq (toLowerCase C (term_name term)) (toLowerCase C (trim name))) in *.
  destruct (List.find same data) as [existing|] eqn:Ef.
  - injection H as <- <-. cbn [world]. rewrite Es, Ef. reflexivity.
  - rewrite !bind_run in H. unfold writeCall, sleep, record in H.
    rewrite bind_run in H. cbn [fst snd world trace logResults] in H.
    destruct (post_term C (world st) taxonomy (trim name)) as [[term|e] w'] eqn:Ep;
      [|discriminate H].
    injection H as <- <-. cbn [world].
    destruct (Hkeep _ _ Ep) as [Hname [before [after (Hb & Ha & Hin & Hold)]]].
    rewrite Es in Hb. injection Hb as <-. rewrite Ha.
    destruct (List.find same after) as [t|] eqn:Ef2.
    + apply find_some in Ef2 as [Ht Hsame].
      destruct (Hold t Ht) as [->|Hdata]; [reflexivity|].
      rewrite (find_none _ _ Ef t Hdata) in Hsame. discriminate.
    + pose proof (find_none _ _ Ef2 term Hin) as Hno.
      unfold same in Hno. rewrite Hname, strEq_refl in Hno. discriminate.
Qed.

End Terms.

(** ** The payload *)

Section Payload.

Context (C : Collaborators) (cfg : Config).

Open Scope string_scope.

Lemma setTrimmed_other key field (meta : gmap string MetaVal) k :
  key <> k -> setTrimmed key field meta !! k = meta !! k.
Proof.
  intros Hk. unfold setTrimmed. destruct (truthyStr _); [|reflexivity].
  apply lookup_insert_ne. exact Hk.
Qed.

Lemma setKeyword_other row (meta : gmap string MetaVal) k :
  "rank_math_focus_keyword" <> k -> "_yoast_wpseo_focuskw" <> k ->
  setKeyword row meta !! k = meta !! k.
Proof.
  intros H1 H2. unfold setKeyword. destruct (_ || _); [|reflexivity].
  rewrite !lookup_insert_ne by assumption. reflexivity.
Qed.

Lemma setNoindex_other row (meta : gmap string MetaVal) k :
  "rank_math_robots" <> k -> setNoindex C row meta !! k = meta !! k.
Proof.
  intros H1. unfold setNoindex. destruct (saysYes _ _); [|reflexivity].
  rewrite !lookup_insert_ne by assumption. reflexivity.
Qed.

Lemma setNofollow_other row (meta : gmap string MetaVal) k :
  "rank_math_robots" <> k -> setNofollow C row meta !! k = meta !! k.
Proof.
  intros H1. unfold setNofollow. destruct (saysYes _ _); [|reflexivity].
  destruct (_ !! "rank_math_robots") as [[s|robots]|];
    rewrite ?lookup_insert_ne by assumption; reflexivity.
Qed.

Lemma setSchema_other row (meta : gmap string MetaVal) k :
  "_schema_json" <> k -> setSchema C row meta !! k = meta !! k.
Proof.
  intros H1. unfold setSchema. destruct (truthyStr _); [|reflexivity].
  destruct (JSON_parse C _); [|reflexivity].
  apply lookup_insert_ne. exact H1.
Qed.

Ltac other_keys :=
  repeat first
    [ rewrite setSchema_other by discriminate
    | rewrite setNofollow_other by discriminate
    | rewrite setNoindex_other by discriminate
    | rewrite setKeyword_other by discriminate
    | rewrite setTrimmed_other by discriminate ].

Lemma buildMeta_robots row :
  buildMeta C row !! "rank_math_robots" =
  match saysYes C (row_noindex row), saysYes C (row_nofollow row) with
  | true, true => Some (MArr [js "noindex"; js "nofollow"])
  | true, false => Some (MArr [js "noindex"])
  | false, true => Some (MArr [js "nofollow"])
  | false, false => None
  end.
Proof.
  unfold buildMeta. cbv zeta. other_keys.
  unfold setNofollow, setNoindex.
  destruct (saysYes C (row_noindex row)), (saysYes C (row_nofollow row)).
  - rewrite lookup_insert_eq. apply lookup_insert_eq.
  - apply lookup_insert_eq.
  - other_keys. rewrite lookup_empty. apply lookup_insert_eq.
  - other_keys. apply lookup_empty.
Qed.

(** No key of the six statements that assign to a difference is in the
    meta mapping. *)
Lemma buildMeta_hyphen_keys row k :
  In k hyphenKeys -> buildMeta C row !! k = None.
Proof.
  intros Hk. unfold buildMeta. cbv zeta.
  repeat (destruct Hk as [<-|Hk]; [other_keys; apply lookup_empty|]).
  destruct Hk.
Qed.

Lemma buildMeta_keyword row :
  focusKeywords (buildMeta C row) =
  if truthyStr (optTrim (row_focus_keyword row))
     || truthyStr (optTrim (row_primary_keyword row))
  then (Some (MStr (optTrim (orElse (row_focus_keyword row)
                                    (row_primary_keyword row)))),
        Some (MStr (optTrim (orElse (row_focus_keyword row)
                                    (row_primary_keyword row)))))
  else (None, None).
Proof.
  unfold focusKeywords, buildMeta. cbv zeta. other_keys.
  unfold setKeyword. destruct (_ || _).
  - rewrite lookup_insert_ne by discriminate.
    rewrite !lookup_insert_eq. reflexivity.
  - other_keys. rewrite !lookup_empty. reflexivity.
Qed.

Close Scope string_scope.

(** The meta mapping of a row is that of every post write of the row. *)
Lemma post_write_meta row n (st : State C) evs target pd :
  trace (snd (createOrUpdatePost C cfg row n st)) = evs ++ trace st ->
  In (Call (PostPost target pd)) evs ->
  pd_meta pd = buildMeta C row.
Proof.
  intros Htrace Hin.
  destruct (createOrUpdatePost_trace C cfg row n st) as [evs' [Ht Hshape]].
  rewrite Ht in Htrace. apply app_inv_tail in Htrace. subst evs'.
  destruct Hshape as [Hnone|[target' [pd' [rest (-> & Hrest & Hcore)]]]].
  - exfalso. unfold NoPostWrite in Hnone. rewrite List.Forall_forall in Hnone.
    specialize (Hnone _ Hin). discriminate.
  - destruct Hin as [[= <- <-]|Hin].
    + apply Hcore.
    + exfalso. unfold NoPostWrite in Hrest. rewrite List.Forall_forall in Hrest.
      specialize (Hrest _ Hin). discriminate.
Qed.

(** C7, as the code has it.  The statement that is to store Yoast's
    marker (line 467) assigns to a difference: whatever [noindex] says,
    the meta mapping holds nothing under
    [_yoast_wpseo_meta-robots-noindex].  Rank Math's marker is in the
    mapping exactly when [noindex] is non-blank and ["yes"] once
    lower-cased; and this mapping is that of every post write of the
    row.  So a row that says yes gets one of the two markers, not
    both. *)
Theorem yoast_noindex_never_stored row :
  yoastNoindex (buildMeta C row) = false /\
  rankMathNoindex (buildMeta C row) = saysYes C (row_noindex row) /\
  (forall n (st : State C) evs target pd,
     trace (snd (createOrUpdatePost C cfg row n st)) = evs ++ trace st ->
     In (Call (PostPost target pd)) evs ->
     pd_meta pd = buildMeta C row).
Proof.
  split; [|split].
  - unfold yoastNoindex. rewrite buildMeta_hyphen_keys; [reflexivity|].
    unfold hyphenKeys. simpl. tauto.
  - unfold rankMathNoindex. rewrite buildMeta_robots.
    destruct (saysYes C (row_noindex row)), (saysYes C (row_nofollow row));
      reflexivity.
  - intros n st evs target pd. apply post_write_meta.
Qed.

End Payload.

(** ** The batch driver *)

Section Batch.

Context (C : Collaborators) (cfg : Config).

Lemma processRows_run rows : forall i (st : State C),
  exists rs evs,
    logResults (snd (processRows C cfg rows i st)) = logResults st ++ rs /\
    trace (snd (processRows C cfg rows i st)) = evs ++ trace st /\
    delayedWrites (REQUEST_DELAY_MS cfg) evs = true /\
    length rs = length rows /\
    forall k row, nth_error rows k = Some row ->
      exists r, nth_error rs k = Some r /\
                rowNumber r = i + N.of_nat k + 1 /\
                res_title r = displayTitle row /\
                ((error r = None /\ action r <> None /\ postId r <> None) \/
                 (error r <> None /\ postId r = None)).
Proof.
  induction rows as [|row rest IH]; intros i st.
  - exists [], []. simpl. rewrite app_nil_r. repeat split.
    intros [|k] row H; discriminate.
  - cbn [processRows]. rewrite !bind_run.
    destruct (createOrUpdatePost_delayed cfg row (i + 1) st) as [Hlog [e1 [Ht1 Hp1]]].
    destruct (createOrUpdatePost_result cfg row (i + 1) st) as (Hn & Htitle & Herr).
    set (r0 := fst (createOrUpdatePost C cfg row (i + 1) st)) in *.
    set (st1 := snd (createOrUpdatePost C cfg row (i + 1) st)) in *.
    unfold pushLogResult at 2. cbn [fst snd].
    unfold pushLogResult at 1. cbn [fst snd].
    destruct (IH (i + 1)
      (Build_State C (world st1) (trace st1) (logResults st1 ++ [r0])))
      as [rs [e2 (Hl2 & Ht2 & Hp2 & Hlen & Hnth)]].
    exists (r0 :: rs), (e2 ++ e1). cbn [logResults trace] in Hl2, Ht2.
    rewrite Hl2, Ht2, Hlog, Ht1, <- !app_assoc. repeat split.
    + apply delayedWrites_app; assumption.
    + simpl. rewrite Hlen. reflexivity.
    + intros [|k] row' Hk; simpl in Hk.
      * injection Hk as <-. exists r0. split; [reflexivity|].
        split; [rewrite Hn; simpl; lia|]. split; [exact Htitle|exact Herr].
      * destruct (Hnth k row' Hk) as [r (H1 & H2 & H3 & H4)].
        exists r. split; [exact H1|]. split; [rewrite H2; lia|].
        split; assumption.
Qed.

Lemma filter_split {A} (f : A -> bool) l :
  (length (List.filter (fun x => negb (f x)) l) + length (List.filter f l))%nat
  = length l.
Proof.
  induction l as [|x l IH]; [reflexivity|].
  simpl. destruct (f x); simpl; lia.
Qed.

(** C9. The driver appends one result for each row, in the order of the
    rows: result [k] carries row number [k + 1] and the title of row [k],
    and is either a success, with an action and the ID of the post and
    without an error, or a failure, with an error and without an ID.  The
    summary of [processCsvFile] holds exactly these results. *)
Theorem one_result_per_row :
  (forall rows i (st : State C),
     exists rs,
       logResults (snd (processRows C cfg rows i st)) = logResults st ++ rs /\
       length rs = length rows /\
       forall k row, nth_error rows k = Some row ->
         exists r, nth_error rs k = Some r /\
                   rowNumber r = i + N.of_nat k + 1 /\
                   res_title r = displayTitle row /\
                   ((error r = None /\ action r <> None /\ postId r <> None) \/
                    (error r <> None /\ postId r = None))) /\
  (forall loaded (st : State C) summary,
     fst (processCsvFile C cfg loaded st) = Ok summary ->
     exists rows,
       loaded = Ok rows /\
       total summary = length rows /\
       length (results summary) = length rows /\
       (success summary + failed summary)%nat = length rows /\
       forall k row, nth_error rows k = Some row ->
         exists r, nth_error (results summary) k = Some r /\
                   rowNumber r = N.of_nat k + 1 /\
                   res_title r = displayTitle row /\
                   ((error r = None /\ action r <> None /\ postId r <> None) \/
                    (error r <> None /\ postId r = None))).
Proof.
  split.
  - intros rows i st.
    destruct (processRows_run rows i st) as [rs [evs (H1 & _ & _ & H2 & H3)]].
    exists rs. repeat split; assumption.
  - intros loaded st summary. unfold processCsvFile.
    rewrite !bind_run. unfold resetLogResults at 1 2. cbn [fst snd].
    set (st0 := Build_State C (world st) (trace st) []).
    assert (Hlog : logResults (snd (checkConnectivity C st0)) = []).
    { unfold checkConnectivity. rewrite bind_run, readCall_run. cbn [fst snd].
      destruct (get_posts_probe C (world st0)); reflexivity. }
    destruct (fst (checkConnectivity C st0)); cbn [negb]; [|discriminate].
    destruct loaded as [[|row rows]|e]; try discriminate.
    rewrite !bind_run. unfold getLogResults. cbn [fst snd ret].
    destruct (processRows_run (row :: rows) 0 (snd (checkConnectivity C st0)))
      as [rs [evs (H1 & _ & _ & H2 & H3)]].
    rewrite Hlog in H1. cbn [app processRows] in H1 |- *.
    intros [= <-]. exists (row :: rows). cbn [total results success failed].
    rewrite H1. repeat split; auto.
    rewrite filter_split. exact H2.
Qed.

Lemma scanLoop_reads normalized fuel : forall page (st : State C),
  exists evs,
    trace (snd (scanLoop C fuel normalized page st)) = evs ++ trace st /\
    forallb isReadEvent evs = true.
Proof.
  induction fuel as [|fuel IH]; intros page st.
  - exists []. split; reflexivity.
  - cbn [scanLoop]. rewrite bind_run, readCall_run. cbn [fst snd].
    assert (Hstop : forall r : ScanResult,
              exists evs,
                trace (snd (ret C r
                  (Build_State C (world st) (Call (GetPostsPage page) :: trace st)
                     (logResults st)))) = evs ++ trace st /\
                forallb isReadEvent evs = true).
    { intros r. exists [Call (GetPostsPage page)]. split; reflexivity. }
    destruct (get_posts_page C (world st) page) as [[|post data]|e];
      try apply Hstop.
    destruct (scanPage C normalized (post :: data)); try apply Hstop.
    destruct (_ <? _)%nat; [apply Hstop|].
    destruct (10 <? page + 1); [apply Hstop|].
    destruct (IH (page + 1)
      (Build_State C (world st) (Call (GetPostsPage page) :: trace st) (logResults st)))
      as [evs [Ht Hr]].
    exists (evs ++ [Call (GetPostsPage page)]). split.
    + rewrite Ht. cbn [trace]. rewrite <- app_assoc. reflexivity.
    + rewrite forallb_app, Hr. reflexivity.
Qed.

Lemma pages_lead_on page k :
  k <> O ->
  exists r rest,
    rev (List.map (fun i => Call (GetPostsPage (page + N.of_nat i))) (seq 0 k))
    = Call r :: rest /\
    noSleep (Call r :: rest) = true /\
    List.last (Call r :: rest) (Sleep 0) = Call (GetPostsPage page).
Proof.
  intros Hk. destruct k as [|k]; [congruence|].
  set (f := fun i => Call (GetPostsPage (page + N.of_nat i))).
  assert (Hcalls : forall e, In e (rev (List.map f (seq 0 (S k)))) ->
                             exists r, e = Call r).
  { intros e He. apply in_rev, in_map_iff in He as [i [<- _]].
    eexists. reflexivity. }
  assert (Hlast : List.last (rev (List.map f (seq 0 (S k)))) (Sleep 0) =
                  Call (GetPostsPage page)).
  { cbn [seq List.map rev]. rewrite last_last. unfold f.
    rewrite N.add_0_r. reflexivity. }
  destruct (rev (List.map f (seq 0 (S k)))) as [|e rest] eqn:E.
  { apply (f_equal (@length _)) in E.
    rewrite length_rev, length_map, length_seq in E. discriminate. }
  destruct (Hcalls e (or_introl eq_refl)) as [r ->].
  exists r, rest. split; [reflexivity|]. split; [|exact Hlast].
  unfold noSleep. apply forallb_forall. intros x Hx.
  destruct (Hcalls x Hx) as [r' ->]. reflexivity.
Qed.

Lemma findPostByTitle_pages title (st : State C) :
  truthyStr (trim title) = true ->
  exists k,
    k <> O /\
    trace (snd (findPostByTitle C title st)) =
    rev (List.map (fun i => Call (GetPostsPage (1 + N.of_nat i))) (seq 0 k))
    ++ trace st.
Proof.
  intros Ht. unfold findPostByTitle. rewrite Ht. cbn [negb]. rewrite bind_run.
  destruct (scanLoop_pages (normalizeTitle (toLowerCase C) title) 10 1 st)
    as [k [_ [Hk Hpages]]].
  exists k. split; [apply Hk; discriminate|]. rewrite <- Hpages.
  destruct (fst (scanLoop C 10 _ 1 st)); reflexivity.
Qed.

Lemma checkDuplicate_trace pd (st : State C) :
  trace (snd (checkDuplicate C pd st)) =
  trace (snd (findPostByTitle C (pd_title pd) st)).
Proof.
  unfold checkDuplicate. rewrite bind_run.
  destruct (fst (findPostByTitle C (pd_title pd) st)) as [dup|]; [|reflexivity].
  destruct (truthyNum dup); reflexivity.
Qed.

(** What follows a sleep in the trace of a row. *)
Lemma createOrUpdatePost_leads_on row n (st : State C) :
  exists evs,
    trace (snd (createOrUpdatePost C cfg row n st)) = evs ++ trace st /\
    LeadsOn evs.
Proof.
  unfold createOrUpdatePost. rewrite bind_run.
  assert (Hsame : forall (r : Attempt) (s : State C) x,
            trace (snd (match r with
                        | Completed done => ret C done
                        | Thrown e action => ret C (x e action)
                        end s)) = trace s) by (intros [|]; reflexivity).
  rewrite Hsame. clear Hsame.
  unfold tryCreateOrUpdate. destruct (validateRow row) as [[]|e] eqn:Hvalid.
  2:{ exists []. split; [reflexivity|]. split; reflexivity. }
  rewrite bind_run.
  destruct (enrichPostData_leadsOn cfg row
              (preparePostData C cfg row) st) as [_ [e1 [Ht1 Hp1]]].
  destruct (enrichPostData C cfg row (preparePostData C cfg row) st)
    as [[pd|e] st1] eqn:Eenrich; cbn [fst snd] in *.
  2:{ exists e1. split; [exact Ht1|exact Hp1]. }
  assert (Hcore : sameCore pd (preparePostData C cfg row)).
  { apply (enrichPostData_core cfg row _ st). rewrite Eenrich. reflexivity. }
  destruct Hcore as (Htitle & _). cbn [pd_title preparePostData] in Htitle.
  assert (Hscan : exists r rest,
            trace (snd (checkDuplicate C pd st1)) = (Call r :: rest) ++ e1 ++ trace st /\
            LeadsOn ((Call r :: rest) ++ e1)).
  { destruct (findPostByTitle_pages (pd_title pd) st1) as [k [Hk Hpages]].
    { rewrite Htitle, optTrim_trim. apply validateRow_ok in Hvalid. tauto. }
    destruct (pages_lead_on 1 k Hk) as [r [rest (Hshape & Hquiet & Hfirst)]].
    exists r, rest. rewrite checkDuplicate_trace, Hpages, Hshape, Ht1.
    split; [reflexivity|]. apply leadsOn_app; [|exact Hp1].
    split; [apply noSleep_sleepsLeadOn, Hquiet|].
    unfold startsWell. rewrite Hfirst. reflexivity. }
  destruct Hscan as [r [rest [Ht2 Hp2]]].
  rewrite bind_run.
  destruct (checkDuplicate C pd st1) as [[[]|e] st2]; cbn [fst snd] in *.
  2:{ exists ((Call r :: rest) ++ e1). cbn [ret snd].
      split; [rewrite Ht2; apply app_assoc|exact Hp2]. }
  unfold writePost. rewrite bind_run.
  assert (Hslug : exists e3, trace (snd (match pd_slug pd with
                                        | Some (c :: s) => findPostBySlug C (c :: s)
                                        | _ => ret C None
                                        end st2)) = e3 ++ trace st2 /\
                             noSleep e3 = true).
  { destruct (pd_slug pd) as [[|c s]|];
      try (exists []; split; reflexivity).
    unfold findPostBySlug. destruct (negb _); [exists []; split; reflexivity|].
    rewrite bind_run, readCall_run. cbn [fst snd].
    exists [Call (GetPostsBySlug (trim (c :: s)))]. split; [|reflexivity].
    destruct (get_posts_by_slug C (world st2) _) as [[|p l]|e]; reflexivity. }
  destruct Hslug as [e3 [Ht3 Hp3]].
  rewrite (writePost_after cfg _ pd). cbn [snd trace].
  match goal with
  | |- context [Call (PostPost ?t pd)] =>
      exists ((Call (PostPost t pd) :: Sleep (REQUEST_DELAY_MS cfg) :: e3)
              ++ ((Call r :: rest) ++ e1))
  end.
  split.
  - rewrite Ht3, Ht2, <- !app_assoc. reflexivity.
  - destruct Hp2 as [Hp2 Hs2]. split.
    + cbn [app] in Hp2 |- *. apply (sleepsLeadOn_on_call (_ :: _ :: e3)); [|exact Hp2].
      rewrite !sleepsLeadOn_cons, (noSleep_sleepsLeadOn _ Hp3), !andb_true_r.
      destruct e3 as [|[ms|r3] e3]; reflexivity.
    + rewrite startsWell_app; [exact Hs2|discriminate].
Qed.

(** What holds of the trace of each row holds of the trace of a
    batch. *)
Lemma processRows_extends (P : list Event -> Prop) rows :
  P [] -> (forall newer older, P newer -> P older -> P (newer ++ older)) ->
  (forall row n (st : State C),
     exists evs,
       trace (snd (createOrUpdatePost C cfg row n st)) = evs ++ trace st /\
       P evs) ->
  forall i (st : State C),
  exists evs,
    trace (snd (processRows C cfg rows i st)) = evs ++ trace st /\ P evs.
Proof.
  intros Hnil Happ Hrow.
  induction rows as [|row rest IH]; intros i st.
  - exists []. split; [reflexivity|exact Hnil].
  - cbn [processRows]. rewrite !bind_run.
    destruct (Hrow row (i + 1) st) as [e1 [Ht1 Hp1]].
    set (r0 := fst (createOrUpdatePost C cfg row (i + 1) st)) in *.
    set (st1 := snd (createOrUpdatePost C cfg row (i + 1) st)) in *.
    unfold pushLogResult. cbn [fst snd].
    destruct (IH (i + 1)
      (Build_State C (world st1) (trace st1) (logResults st1 ++ [r0])))
      as [e2 [Ht2 Hp2]].
    exists (e2 ++ e1). cbn [trace] in Ht2. rewrite Ht2, Ht1, app_assoc.
    split; [reflexivity|]. apply Happ; assumption.
Qed.

Lemma processRows_leads_on rows i (st : State C) :
  exists evs,
    trace (snd (processRows C cfg rows i st)) = evs ++ trace st /\
    LeadsOn evs.
Proof.
  apply processRows_extends.
  - split; reflexivity.
  - apply leadsOn_app.
  - apply createOrUpdatePost_leads_on.
Qed.

Lemma processRows_pauses rows i (st : State C) :
  exists evs,
    trace (snd (processRows C cfg rows i st)) = evs ++ trace st /\
    PausesOnly (REQUEST_DELAY_MS cfg) evs.
Proof.
  apply processRows_extends.
  - reflexivity.
  - intros newer older. apply pausesOnly_app.
  - intros row n st0.
    destruct (createOrUpdatePost_pauses cfg row n st0) as [_ H]. exact H.
Qed.

(** C6, as far as it holds. In what the engine adds to the trace for a
    row, for a sequence of rows and for a whole file, every term creation,
    media upload and post write comes right after a sleep of
    [REQUEST_DELAY_MS].  Every sleep lasts [REQUEST_DELAY_MS] and is
    there for one of two reasons: a write comes right after it, or a
    request of a term resolution came right before it, which is the pause
    of [resolveTerms] after each name.  What comes right after a sleep is
    another sleep, a write, a term search, an image download or page 1 of
    the title scan, never a slug lookup, a later page of the scan or the
    pre-flight request.  The title scan and the slug lookup add reads
    only, and no sleep; a term resolution adds nothing, or its search, or
    its search followed by the delay and the creation. *)
Theorem writes_follow_a_delay :
  (forall row n (st : State C),
     exists evs,
       trace (snd (createOrUpdatePost C cfg row n st)) = evs ++ trace st /\
       delayedWrites (REQUEST_DELAY_MS cfg) evs = true /\
       pausesOnly (REQUEST_DELAY_MS cfg) None evs = true /\
       sleepsLeadOn evs = true /\ startsWell evs = true) /\
  (forall rows i (st : State C),
     exists evs,
       trace (snd (processRows C cfg rows i st)) = evs ++ trace st /\
       delayedWrites (REQUEST_DELAY_MS cfg) evs = true /\
       pausesOnly (REQUEST_DELAY_MS cfg) None evs = true /\
       sleepsLeadOn evs = true /\ startsWell evs = true) /\
  (forall loaded (st : State C),
     exists evs,
       trace (snd (processCsvFile C cfg loaded st)) = evs ++ trace st /\
       delayedWrites (REQUEST_DELAY_MS cfg) evs = true /\
       pausesOnly (REQUEST_DELAY_MS cfg) None evs = true /\
       sleepsLeadOn evs = true) /\
  (forall title (st : State C),
     exists evs,
       trace (snd (findPostByTitle C title st)) = evs ++ trace st /\
       forallb isReadEvent evs = true) /\
  (forall slug (st : State C),
     exists evs,
       trace (snd (findPostBySlug C slug st)) = evs ++ trace st /\
       forallb isReadEvent evs = true) /\
  (forall name taxonomy (st : State C),
     exists evs,
       trace (snd (getOrCreateTerm C cfg name taxonomy st)) = evs ++ trace st /\
       (evs = [] \/
        evs = [Call (GetTerms taxonomy (trim name))] \/
        evs = [Call (PostTerm taxonomy (trim name));
               Sleep (REQUEST_DELAY_MS cfg);
               Call (GetTerms taxonomy (trim name))])).
Proof.
  split; [|split; [|split; [|split; [|split]]]].
  - intros row n st.
    destruct (createOrUpdatePost_delayed cfg row n st) as [_ [evs [H1 H2]]].
    destruct (createOrUpdatePost_leads_on row n st) as [evs' [H3 [H4 H5]]].
    rewrite H1 in H3. apply app_inv_tail in H3. subst evs'.
    destruct (createOrUpdatePost_pauses cfg row n st) as [_ [evs' [H3 H6]]].
    rewrite H1 in H3. apply app_inv_tail in H3. subst evs'.
    exists evs. repeat split; assumption.
  - intros rows i st.
    destruct (processRows_run rows i st) as [rs [evs (_ & H1 & H2 & _)]].
    destruct (processRows_leads_on rows i st) as [evs' [H3 [H4 H5]]].
    rewrite H1 in H3. apply app_inv_tail in H3. subst evs'.
    destruct (processRows_pauses rows i st) as [evs' [H3 H6]].
    rewrite H1 in H3. apply app_inv_tail in H3. subst evs'.
    exists evs. repeat split; assumption.
  - intros loaded st. unfold processCsvFile.
    rewrite !bind_run. unfold resetLogResults at 1 2. cbn [fst snd].
    set (st0 := Build_State C (world st) (trace st) []).
    assert (Hprobe : trace (snd (checkConnectivity C st0)) =
                     [Call GetPostsProbe] ++ trace st).
    { unfold checkConnectivity. rewrite bind_run, readCall_run. cbn [fst snd].
      destruct (get_posts_probe C (world st0)); reflexivity. }
    destruct (fst (checkConnectivity C st0)); cbn [negb].
    2:{ exists [Call GetPostsProbe]. split; [exact Hprobe|repeat split]. }
    destruct loaded as [[|row rows]|e];
      try (exists [Call GetPostsProbe]; split; [exact Hprobe|repeat split]).
    rewrite !bind_run. unfold getLogResults. cbn [fst snd ret].
    destruct (processRows_run (row :: rows) 0 (snd (checkConnectivity C st0)))
      as [rs [evs (_ & H1 & H2 & _)]].
    destruct (processRows_leads_on (row :: rows) 0 (snd (checkConnectivity C st0)))
      as [evs' [H3 [H4 _]]].
    rewrite H1 in H3. apply app_inv_tail in H3. subst evs'.
    destruct (processRows_pauses (row :: rows) 0 (snd (checkConnectivity C st0)))
      as [evs' [H3 H6]].
    rewrite H1 in H3. apply app_inv_tail in H3. subst evs'.
    exists (evs ++ [Call GetPostsProbe]). split; [|split; [|split]].
    + cbn [processRows] in H1 |- *. rewrite H1, Hprobe. apply app_assoc.
    + apply delayedWrites_app; [exact H2|reflexivity].
    + apply pausesOnly_app; [exact H6|reflexivity].
    + apply sleepsLeadOn_on_call; [exact H4|reflexivity].
  - intros title st. unfold findPostByTitle.
    destruct (negb _); [exists []; split; reflexivity|].
    rewrite bind_run.
    destruct (scanLoop_reads (normalizeTitle (toLowerCase C) title) 10 1 st)
      as [evs [Ht Hr]].
    exists evs. split; [|exact Hr].
    destruct (fst (scanLoop C 10 (normalizeTitle (toLowerCase C) title) 1 st)); exact Ht.
  - intros slug st. unfold findPostBySlug.
    destruct (negb _); [exists []; split; reflexivity|].
    rewrite bind_run, readCall_run. cbn [fst snd].
    exists [Call (GetPostsBySlug (trim slug))]. split; [|reflexivity].
    destruct (get_posts_by_slug C (world st) (trim slug)) as [[|p l]|e]; reflexivity.
  - intros name taxonomy st. unfold getOrCreateTerm.
    destruct (negb _); [exists []; split; [reflexivity|left; reflexivity]|].
    rewrite bind_run, readCall_run. cbn [fst snd].
    destruct (get_terms C (world st) taxonomy (trim name)) as [data|e].
    2:{ eexists. split; [|right; left; reflexivity]. reflexivity. }
    destruct (List.find _ data).
    { eexists. split; [|right; left; reflexivity]. reflexivity. }
    rewrite !bind_run. unfold writeCall, sleep, record. rewrite bind_run.
    cbn [fst snd world trace logResults].
    destruct (post_term C (world st) taxonomy (trim name)) as [[term|e] w'];
      (eexists; split; [|right; right; reflexivity]); reflexivity.
Qed.

End Batch.

(** ** The engine on a small site *)

Import TestSite.

(** A blank content, and a title that is on the site already. *)
Lemma missing_field_witness :
  truthyStr (optTrim (row_content (simpleRow "hello   world" "  " None))) = false /\
  createOrUpdatePost collaborators config (simpleRow "hello   world" "  " None) 3 (start blog) =
  ({| rowNumber := 3; res_title := js "hello   world"; action := None;
      postId := None; res_status := None; error := Some missingContent |},
   start blog).
Proof.
  split; [reflexivity|].
  exact (missing_field_rejected collaborators config
           (simpleRow "hello   world" "  " None) 3 (start blog)
           (or_intror eq_refl)).
Defined.


(** An untitled post stops the scan: its title object is what the lookup
    of the title ends on, [normalizeTitle] throws on it, and the [catch]
    answers [null]; the post with the same title further down is not
    reached and the row is written. *)
Example untitled_post_stops_scan :
  scanPage collaborators (normalizeTitle (toLowerCase collaborators) (js "Hello World")) (scannedCorpus collaborators blogWithDraft)
    = PageThrew /\
  fst (findPostByTitle collaborators (js "Hello World") (start blogWithDraft)) = None /\
  action (fst (run (simpleRow "Hello World" "Text" None) blogWithDraft)) = Some created.
Proof. repeat split; vm_compute; reflexivity. Qed.


Lemma scan_failure_witness :
  ScanRequestFails collaborators blogListingDown
    (normalizeTitle (toLowerCase collaborators) (js "hello   world")) 1 /\
  fst (findPostByTitle collaborators (js "hello   world") (start blogListingDown)) = None /\
  action (fst (run (simpleRow "hello   world" "Text" None) blogListingDown)) = Some created.
Proof.
  assert (Hfail : ScanRequestFails collaborators blogListingDown
                    (normalizeTitle (toLowerCase collaborators) (js "hello   world")) 1).
  { apply fails_here with (e := unreachable). reflexivity. }
  split; [exact Hfail|].
  destruct (scan_failure_lets_row_through collaborators config
              (simpleRow "hello   world" "Text" None) 1 (start blogListingDown)
              (preparePostData collaborators config (simpleRow "hello   world" "Text" None))
              (start blogListingDown) eq_refl eq_refl Hfail) as [Hnone _].
  split; [exact Hnone|reflexivity].
Defined.

Lemma slug_witness :
  (action (fst (run (simpleRow "New" "Text" (Some "hello-world")) blog)) = Some updated /\
   postId (fst (run (simpleRow "New" "Text" (Some "hello-world")) blog)) = Some 7%Z /\
   error (fst (run (simpleRow "New" "Text" (Some "hello-world")) blog)) = None) /\
  (action (fst (run (simpleRow "New" "Text" (Some "my-first-post")) blog)) = Some created /\
   postId (fst (run (simpleRow "New" "Text" (Some "my-first-post")) blog)) = Some 20%Z /\
   error (fst (run (simpleRow "New" "Text" (Some "my-first-post")) blog)) = None).
Proof.
  assert (Hnodup : forall q, In q (scannedCorpus collaborators blog) ->
            titleMatches collaborators (normalizeTitle (toLowerCase collaborators) (js "New")) q = false).
  { intros q [<-|[<-|[]]]; reflexivity. }
  split.
  - refine (proj1 (slug_decides_update_or_create collaborators config
             (simpleRow "New" "Text" (Some "hello-world")) 1 (start blog)
             (preparePostData collaborators config
                (simpleRow "New" "Text" (Some "hello-world")))
             (start blog) (js "hello-world") eq_refl eq_refl Hnodup eq_refl eq_refl)
             (publishedPost 7 "hello-world" "Hello World") [] _ _ eq_refl _ eq_refl eq_refl).
    discriminate.
  - refine (proj2 (slug_decides_update_or_create collaborators config
             (simpleRow "New" "Text" (Some "my-first-post")) 1 (start blog)
             (preparePostData collaborators config
                (simpleRow "New" "Text" (Some "my-first-post")))
             (start blog) (js "my-first-post") eq_refl eq_refl Hnodup eq_refl eq_refl)
             _ _ eq_refl eq_refl).
Defined.

Lemma term_resolution_witness :
  getOrCreateTerm collaborators config (js " WordPress ") Categories (start blog) =
    (Some 20%Z,
     Build_State collaborators
       (fst (snd (createTerm blog Categories (js "WordPress")), tt))
       [Call (PostTerm Categories (js "WordPress")); Sleep 300;
        Call (GetTerms Categories (js "WordPress"))] []) /\
  fst (getOrCreateTerm collaborators config (js " WordPress ") Categories
         (snd (getOrCreateTerm collaborators config (js " WordPress ") Categories
                 (start blog)))) = Some 20%Z.
Proof.
  assert (Hfirst :
    getOrCreateTerm collaborators config (js " WordPress ") Categories (start blog) =
    (Some 20%Z,
     Build_State collaborators
       (fst (snd (createTerm blog Categories (js "WordPress")), tt))
       [Call (PostTerm Categories (js "WordPress")); Sleep 300;
        Call (GetTerms Categories (js "WordPress"))] [])) by reflexivity.
  split; [exact Hfirst|].
  rewrite (term_resolution_repeats collaborators config (js " WordPress ")
             Categories (start blog) 20%Z _).
  - reflexivity.
  - intros term w' H. injection H as <- <-. split; [reflexivity|].
    exists [{| term_id := 5; term_name := js "Tutorials" |}],
           [{| term_id := 5; term_name := js "Tutorials" |};
            {| term_id := 20; term_name := js "WordPress" |}].
    repeat split.
    + right. left. reflexivity.
    + intros t [<-|[<-|[]]]; [right; left|left]; reflexivity.
  - exact Hfirst.
Defined.

(** C6 as stated fails where a term is looked up: [resolveTerms] sleeps
    after each name, whether or not a term was created, so the delay that
    follows the lookup of ["Tutorials"] comes right before the first
    request of the title scan, a read. *)
Lemma delay_before_a_read :
  List.map (fun e => match e with
                     | Sleep ms => inl ms
                     | Call r => inr (isWrite r)
                     end)
    (rev (trace (snd (run (withCategoryNames (simpleRow "Hello" "Text" None)
                             "Tutorials") blog)))) =
    [inr false; inl 300%Z; inr false; inl 300%Z; inr true] /\
  nth_error (rev (trace (snd (run (withCategoryNames (simpleRow "Hello" "Text" None)
                                     "Tutorials") blog)))) 2 =
    Some (Call (GetPostsPage 1)) /\
  noDelayedRead (trace (snd (run (withCategoryNames (simpleRow "Hello" "Text" None)
                                    "Tutorials") blog))) = false.
Proof. repeat split. Qed.

(** An engine that slept before its slug lookup would leave a trace that
    the two conditions on sleeps refuse; so would one that slept before
    the first request of a row. *)
Example sleep_before_slug_lookup_is_excluded :
  pausesOnly 300 None
    [Call (GetPostsBySlug (js "hello-world")); Sleep 300; Call (GetPostsPage 1)] = false /\
  sleepsLeadOn
    [Call (GetPostsBySlug (js "hello-world")); Sleep 300; Call (GetPostsPage 1)] = false /\
  pausesOnly 300 None [Call (GetPostsPage 1); Sleep 300] = false.
Proof. repeat split. Qed.

(** C7 on a row that says yes: Rank Math's marker is in the payload,
    Yoast's is not. *)
Lemma yoast_marker_missing :
  saysYes collaborators
    (row_noindex (withNoindex (simpleRow "Hello" "Text" None) (Some "yes"))) = true /\
  yoastNoindex (buildMeta collaborators
                  (withNoindex (simpleRow "Hello" "Text" None) (Some "yes"))) = false /\
  rankMathNoindex (buildMeta collaborators
                     (withNoindex (simpleRow "Hello" "Text" None) (Some "yes"))) = true /\
  (forall target pd,
     In (Call (PostPost target pd))
        (trace (snd (run (withNoindex (simpleRow "Hello" "Text" None) (Some "yes")) blog))) ->
     pd_meta pd = buildMeta collaborators
                    (withNoindex (simpleRow "Hello" "Text" None) (Some "yes"))).
Proof.
  destruct (yoast_noindex_never_stored collaborators config
              (withNoindex (simpleRow "Hello" "Text" None) (Some "yes")))
    as (Hyoast & Hrank & Hmeta).
  split; [reflexivity|]. split; [exact Hyoast|]. split; [exact Hrank|].
  intros target pd Hin.
  apply (Hmeta 1 (start blog)
           (trace (snd (run (withNoindex (simpleRow "Hello" "Text" None) (Some "yes")) blog)))
           target pd).
  - symmetry. apply app_nil_r.
  - exact Hin.
Defined.



(** C8, at a blank focus keyword. The guard of the keyword block sees the
    trimmed fields, so the primary keyword lets the block run; the choice
    [row.focus_keyword || row.primary_keyword] sees the fields as they
    are, so the blank focus keyword, a truthy string, is chosen and
    trimmed: both plugins get the empty keyword, not ["seo"]. *)
Theorem blank_focus_keyword_hides_primary :
  optTrim (Some (js "   ")) = [] /\
  optTrim (Some (js "seo")) = js "seo" /\
  focusKeywords (buildMeta collaborators
                   (withKeywords (simpleRow "Hello" "Text" None)
                      (Some "   ") (Some "seo"))) =
    (Some (MStr []), Some (MStr [])) /\
  focusKeywords (buildMeta collaborators
                   (withKeywords (simpleRow "Hello" "Text" None)
                      (Some "") (Some "seo"))) =
    (Some (MStr (js "seo")), Some (MStr (js "seo"))).
Proof.
  repeat split; rewrite buildMeta_keyword; reflexivity.
Qed.

Lemma one_result_per_row_witness :
  (exists rs,
     logResults (snd (processRows collaborators config threeRows 0 (start blog))) = rs /\
     length rs = 3%nat /\
     List.map rowNumber rs = [1; 2; 3] /\
     List.map action rs = [Some created; Some updated; None] /\
     List.map postId rs = [Some 20%Z; Some 7%Z; None] /\
     List.map error rs = [None; None; Some missingContent]) /\
  (fst (processCsvFile collaborators config (Ok threeRows) (start blog)) =
     Ok (summaryOf (fst (processCsvFile collaborators config (Ok threeRows) (start blog)))) /\
   length (results (summaryOf (fst (processCsvFile collaborators config (Ok threeRows)
                                      (start blog))))) = 3%nat /\
   total (summaryOf (fst (processCsvFile collaborators config (Ok threeRows)
                            (start blog)))) = 3%nat /\
   success (summaryOf (fst (processCsvFile collaborators config (Ok threeRows)
                              (start blog)))) = 2%nat /\
   failed (summaryOf (fst (processCsvFile collaborators config (Ok threeRows)
                             (start blog)))) = 1%nat).
Proof.
  split.
  - destruct (proj1 (one_result_per_row collaborators config) threeRows 0 (start blog))
      as [rs (Hlog & Hlen & _)].
    exists rs. cbn [logResults start app] in Hlog. rewrite Hlog.
    split; [reflexivity|]. split; [exact Hlen|].
    rewrite <- Hlog. repeat split; vm_compute; reflexivity.
  - assert (Hrun : fst (processCsvFile collaborators config (Ok threeRows) (start blog)) =
      Ok (summaryOf (fst (processCsvFile collaborators config (Ok threeRows) (start blog)))))
      by (vm_compute; reflexivity).
    split; [exact Hrun|].
    destruct (proj2 (one_result_per_row collaborators config) (Ok threeRows)
                (start blog) _ Hrun) as [rows (Hrows & _ & Hlen & _)].
    injection Hrows as <-.
    split; [exact Hlen|]. repeat split; vm_compute; reflexivity.
Defined.

(** * More properties of the engine *)

(** ** Term resolution *)

Section MoreTerms.

Context (C : Collaborators) (cfg : Config).

Lemma trimStart_nil_spaces s : trimStart s = [] -> forallb isSpace s = true.
Proof.
  induction s as [|c r IH]; [reflexivity|].
  simpl. destruct (isSpace c); [exact IH|discriminate].
Qed.

Lemma trimEnd_nil_spaces s : trimEnd s = [] -> forallb isSpace s = true.
Proof.
  induction s as [|c r IH]; [reflexivity|].
  simpl. destruct (trimEnd r) as [|d t]; [|discriminate].
  destruct (isSpace c); [intros _; apply IH; reflexivity|discriminate].
Qed.

Lemma trim_nil_spaces s : trim s = [] -> forallb isSpace s = true.
Proof.
  unfold trim. intros H. apply trimEnd_nil_spaces in H.
  induction s as [|c r IH]; [reflexivity|].
  cbn [trimStart] in H. cbn [forallb]. destruct (isSpace c) eqn:Ec.
  - apply IH, H.
  - cbn [forallb] in H. rewrite Ec in H. discriminate.
Qed.

Lemma splitOn_spaces s : forallb isSpace s = true -> splitOn COMMA s = [s].
Proof.
  induction s as [|c r IH]; [reflexivity|].
  simpl. intros H. apply andb_true_iff in H as [Hc Hr].
  destruct (N.eqb_spec c COMMA) as [->|_]; [discriminate|].
  rewrite (IH Hr). reflexivity.
Qed.

(** A blank list names no term. *)
Lemma termNames_blank s : trim s = [] -> termNames s = [].
Proof.
  intros H. unfold termNames.
  rewrite (splitOn_spaces s (trim_nil_spaces s H)). simpl. rewrite H. reflexivity.
Qed.

Lemma termNames_trimmed s name :
  In name (termNames s) -> trim name = name /\ truthyStr name = true.
Proof.
  unfold termNames. intros H. apply filter_In in H as [H Ht].
  apply in_map_iff in H as [x [<- _]]. split; [apply trim_idem|exact Ht].
Qed.

Lemma getOrCreateTerm_found name taxonomy (st : State C) id :
  truthyStr (trim name) = true ->
  lookupTerm C (world st) taxonomy (trim name) = Some id ->
  getOrCreateTerm C cfg name taxonomy st =
  (Some id,
   Build_State C (world st)
     (Call (GetTerms taxonomy (trim name)) :: trace st) (logResults st)).
Proof.
  unfold getOrCreateTerm, lookupTerm.
  intros -> H. cbn [negb]. rewrite bind_run, readCall_run. cbn [fst snd].
  destruct (get_terms C (world st) taxonomy (trim name)) as [data|e];
    [|discriminate].
  destruct (List.find _ data) as [t|]; [|discriminate].
  injection H as <-. reflexivity.
Qed.

Lemma find_first {A} (f : A -> bool) pre t post :
  Forall (fun u => f u = false) pre -> f t = true ->
  List.find f (pre ++ t :: post) = Some t.
Proof.
  intros Hpre Ht. induction Hpre as [|u pre Hu _ IH].
  - cbn [app List.find]. rewrite Ht. reflexivity.
  - cbn [app List.find]. rewrite Hu. exact IH.
Qed.

Lemma strEq_false a b : a <> b -> strEq a b = false.
Proof.
  intros H. destruct (strEq a b) eqn:E; [|reflexivity].
  apply strEq_true in E. contradiction.
Qed.

(** X1. A term that the search delivers is not created again, and nothing
    is created when the search fails.  When the search delivers a term
    whose name is the trimmed name once both are lower-cased,
    [getOrCreateTerm] answers with the ID of the first such term
    delivered; when the search fails, it answers [null]; either way it
    does so after the one search request and leaves the world as it is.
    A blank name is answered [null] without a request. *)
Theorem term_lookup_without_creation name taxonomy (st : State C) :
  (truthyStr (trim name) = false ->
   getOrCreateTerm C cfg name taxonomy st = (None, st)) /\
  (forall pre t post,
     truthyStr (trim name) = true ->
     get_terms C (world st) taxonomy (trim name) = Ok (pre ++ t :: post) ->
     Forall (fun u => toLowerCase C (term_name u) <> toLowerCase C (trim name)) pre ->
     toLowerCase C (term_name t) = toLowerCase C (trim name) ->
     getOrCreateTerm C cfg name taxonomy st =
     (Some (term_id t),
      Build_State C (world st)
        (Call (GetTerms taxonomy (trim name)) :: trace st) (logResults st))) /\
  (forall e,
     truthyStr (trim name) = true ->
     get_terms C (world st) taxonomy (trim name) = Fail e ->
     getOrCreateTerm C cfg name taxonomy st =
     (None,
      Build_State C (world st)
        (Call (GetTerms taxonomy (trim name)) :: trace st) (logResults st))).
Proof.
  split; [|split].
  - unfold getOrCreateTerm. intros ->. reflexivity.
  - intros pre t post Htruthy Hget Hpre Ht.
    apply getOrCreateTerm_found; [exact Htruthy|].
    unfold lookupTerm. rewrite Hget, find_first; [reflexivity| |].
    + eapply List.Forall_impl; [|exact Hpre]. intros u Hu. apply strEq_false, Hu.
    + rewrite Ht. apply strEq_refl.
  - unfold getOrCreateTerm. intros e -> H. cbn [negb].
    rewrite bind_run, readCall_run. cbn [fst snd].
    rewrite H. reflexivity.
Qed.

Lemma resolveNames_found taxonomy names : forall ids termIds (st : State C),
  Forall (fun name => trim name = name /\ truthyStr name = true) names ->
  Forall2 (fun name id => lookupTerm C (world st) taxonomy name = Some id /\
                          id <> 0%Z) names ids ->
  fst (resolveNames C cfg names taxonomy termIds st) = termIds ++ ids /\
  world (snd (resolveNames C cfg names taxonomy termIds st)) = world st /\
  exists evs,
    trace (snd (resolveNames C cfg names taxonomy termIds st)) = evs ++ trace st /\
    forallb (fun e => negb (isWriteEvent e)) evs = true.
Proof.
  induction names as [|name rest IH]; intros ids termIds st Hnames Hfound.
  - inversion Hfound; subst. simpl. rewrite app_nil_r.
    repeat split. exists []. split; reflexivity.
  - inversion Hfound as [|? id ? ids' [Hlook Hid] Hrest]; subst.
    inversion Hnames as [|? ? [Htrim Htruthy] Hnames']; subst.
    cbn [resolveNames]. rewrite bind_run.
    assert (Hget := getOrCreateTerm_found name taxonomy st id).
    rewrite Htrim in Hget. rewrite (Hget Htruthy Hlook). cbn [fst snd].
    assert (Ht : truthyNum id = true).
    { unfold truthyNum. apply negb_true_iff, Z.eqb_neq, Hid. }
    rewrite Ht, bind_run. unfold sleep, record. cbn [fst snd world trace logResults].
    destruct (IH ids' (termIds ++ [id])
                (Build_State C (world st)
                   (Sleep (REQUEST_DELAY_MS cfg)
                      :: Call (GetTerms taxonomy name) :: trace st)
                   (logResults st)) Hnames' Hrest)
      as (Hids & Hw & evs & Ht' & Hr).
    rewrite Hids, Hw, <- app_assoc. repeat split.
    exists (evs ++ [Sleep (REQUEST_DELAY_MS cfg); Call (GetTerms taxonomy name)]).
    split.
    + rewrite Ht'. cbn [trace]. rewrite <- app_assoc. reflexivity.
    + rewrite forallb_app, Hr. reflexivity.
Qed.

(** X2. When every name of the list is found by its search, with a
    non-zero ID, [resolveTerms] returns these IDs in the order of the
    names, issues no write and leaves the world as it is. *)
Theorem resolveTerms_of_existing_terms termString taxonomy (st : State C) ids :
  Forall2 (fun name id => lookupTerm C (world st) taxonomy name = Some id /\
                          id <> 0%Z) (termNames termString) ids ->
  fst (resolveTerms C cfg termString taxonomy st) = ids /\
  world (snd (resolveTerms C cfg termString taxonomy st)) = world st /\
  exists evs,
    trace (snd (resolveTerms C cfg termString taxonomy st)) = evs ++ trace st /\
    forallb (fun e => negb (isWriteEvent e)) evs = true.
Proof.
  intros Hfound. unfold resolveTerms.
  destruct (truthyStr (trim termString)) eqn:Et; cbn [negb].
  - fold (termNames termString).
    apply (resolveNames_found taxonomy (termNames termString) ids [] st);
      [|exact Hfound].
    apply List.Forall_forall. intros name. apply termNames_trimmed.
  - assert (Hnil : termNames termString = []).
    { apply termNames_blank. destruct (trim termString); [reflexivity|discriminate]. }
    rewrite Hnil in Hfound. inversion Hfound; subst.
    repeat split. exists []. split; reflexivity.
Qed.

Lemma resolveNames_ids taxonomy names : forall termIds (st : State C),
  Forall (fun id => id <> 0%Z) termIds ->
  Forall (fun id => id <> 0%Z) (fst (resolveNames C cfg names taxonomy termIds st)) /\
  (length (fst (resolveNames C cfg names taxonomy termIds st))
   <= length termIds + length names)%nat.
Proof.
  induction names as [|name rest IH]; intros termIds st Hnz.
  - simpl. split; [exact Hnz|lia].
  - cbn [resolveNames]. rewrite !bind_run.
    set (id := fst (getOrCreateTerm C cfg name taxonomy st)).
    set (st1 := snd (sleep C (REQUEST_DELAY_MS cfg)
                      (snd (getOrCreateTerm C cfg name taxonomy st)))).
    set (termIds' := match id with
                     | Some i => if truthyNum i then termIds ++ [i] else termIds
                     | None => termIds
                     end).
    assert (Hnz' : Forall (fun id => id <> 0%Z) termIds').
    { subst termIds'. destruct id as [i|]; [|exact Hnz].
      destruct (truthyNum i) eqn:Ei; [|exact Hnz].
      apply Forall_app. split; [exact Hnz|]. constructor; [|constructor].
      unfold truthyNum in Ei. apply negb_true_iff, Z.eqb_neq in Ei. exact Ei. }
    assert (Hlen : (length termIds' <= S (length termIds))%nat).
    { subst termIds'. destruct id as [i|]; [|lia].
      destruct (truthyNum i); [|lia]. rewrite length_app. simpl. lia. }
    destruct (IH termIds' st1 Hnz') as [H1 H2].
    split; [exact H1|]. cbn [length]. lia.
Qed.

(** X3. [resolveTerms] returns at most one ID for each name of the list,
    and never the ID zero, whatever the remote site answers. *)
Theorem resolveTerms_ids_bounded termString taxonomy (st : State C) :
  Forall (fun id => id <> 0%Z) (fst (resolveTerms C cfg termString taxonomy st)) /\
  (length (fst (resolveTerms C cfg termString taxonomy st))
   <= length (termNames termString))%nat.
Proof.
  unfold resolveTerms. destruct (negb _).
  - split; [constructor|simpl; lia].
  - fold (termNames termString).
    destruct (resolveNames_ids taxonomy (termNames termString) [] st) as [H1 H2];
      [constructor|].
    split; [exact H1|exact H2].
Qed.

End MoreTerms.

(** ** Media and the payload *)

Section MorePayload.

Context (C : Collaborators) (cfg : Config).

Lemma upload_run f (st : State C) :
  bind C (sleep C (REQUEST_DELAY_MS cfg))
    (fun _ =>
       bind C (writeCall C (PostMedia f) (fun w => post_media C w f))
         (fun response =>
            match response with
            | Ok id => ret C (Ok (Some id))
            | Fail _ => ret C (Ok None)
            end)) st =
  (match fst (post_media C (world st) f) with
   | Ok id => Ok (Some id)
   | Fail _ => Ok None
   end,
   Build_State C (snd (post_media C (world st) f))
     (Call (PostMedia f) :: Sleep (REQUEST_DELAY_MS cfg) :: trace st)
     (logResults st)).
Proof.
  rewrite !bind_run. unfold writeCall, sleep, record.
  rewrite bind_run. cbn [fst snd world trace logResults].
  destruct (post_media C (world st) f) as [[id|e] w']; reflexivity.
Qed.

Lemma uploadMedia_url filePathOrUrl (st : State C) :
  isUrl filePathOrUrl = true ->
  uploadMedia C cfg filePathOrUrl st =
  match get_image C (world st) (trim filePathOrUrl) with
  | Fail _ =>
      (Ok None,
       Build_State C (world st)
         (Call (GetImage (trim filePathOrUrl)) :: trace st) (logResults st))
  | Ok f =>
      (match fst (post_media C (world st) f) with
       | Ok id => Ok (Some id)
       | Fail _ => Ok None
       end,
       Build_State C (snd (post_media C (world st) f))
         (Call (PostMedia f) :: Sleep (REQUEST_DELAY_MS cfg)
            :: Call (GetImage (trim filePathOrUrl)) :: trace st)
         (logResults st))
  end.
Proof.
  unfold isUrl, uploadMedia. intros Hurl.
  destruct (trim filePathOrUrl) as [|c t] eqn:Et; [discriminate Hurl|].
  cbn [truthyStr negb]. rewrite Hurl.
  unfold downloadImageFromUrl.
  destruct (get_image C (world st) (c :: t)) as [f|e] eqn:Eg.
  - erewrite bind_pair.
    2:{ erewrite bind_pair.
        2:{ erewrite bind_pair; [|apply readCall_run]. cbn [world].
            rewrite Eg. reflexivity. }
        reflexivity. }
    exact (upload_run f _).
  - erewrite bind_pair.
    2:{ erewrite bind_pair.
        2:{ erewrite bind_pair; [|apply readCall_run]. cbn [world].
            rewrite Eg. reflexivity. }
        reflexivity. }
    reflexivity.
Qed.

Lemma uploadMedia_local filePathOrUrl (st : State C) :
  truthyStr (trim filePathOrUrl) = true ->
  isUrl filePathOrUrl = false ->
  uploadMedia C cfg filePathOrUrl st =
  match read_file C (world st) filePathOrUrl with
  | FileMissing => (Ok None, st)
  | FileThrows e => (Fail e, st)
  | FileContents f =>
      (match fst (post_media C (world st) f) with
       | Ok id => Ok (Some id)
       | Fail _ => Ok None
       end,
       Build_State C (snd (post_media C (world st) f))
         (Call (PostMedia f) :: Sleep (REQUEST_DELAY_MS cfg) :: trace st)
         (logResults st))
  end.
Proof.
  unfold isUrl, uploadMedia. intros Ht Hurl. rewrite Ht, Hurl. cbn [negb].
  destruct (read_file C (world st) filePathOrUrl) as [|f|e] eqn:Er.
  - erewrite bind_pair; [|rewrite Er; reflexivity]. reflexivity.
  - erewrite bind_pair; [|rewrite Er; reflexivity]. exact (upload_run f st).
  - erewrite bind_pair; [|rewrite Er; reflexivity]. reflexivity.
Qed.

Lemma uploadMedia_blank filePathOrUrl (st : State C) :
  truthyStr (trim filePathOrUrl) = false ->
  uploadMedia C cfg filePathOrUrl st = (Ok None, st).
Proof. unfold uploadMedia. intros ->. reflexivity. Qed.

Lemma isUrl_truthy s : isUrl s = true -> truthyStr (trim s) = true.
Proof. unfold isUrl. destruct (trim s); [discriminate|reflexivity]. Qed.

Lemma uploadMedia_throws filePathOrUrl (st : State C) e :
  fst (uploadMedia C cfg filePathOrUrl st) = Fail e ->
  isUrl filePathOrUrl = false /\
  read_file C (world st) filePathOrUrl = FileThrows e /\
  snd (uploadMedia C cfg filePathOrUrl st) = st.
Proof.
  intros H.
  destruct (truthyStr (trim filePathOrUrl)) eqn:Et.
  2:{ rewrite (uploadMedia_blank _ _ Et) in H. discriminate. }
  destruct (isUrl filePathOrUrl) eqn:Eu.
  { rewrite (uploadMedia_url _ _ Eu) in H.
    destruct (get_image C (world st) (trim filePathOrUrl)); [|discriminate].
    cbn [fst] in H. destruct (fst (post_media C (world st) a)); discriminate. }
  rewrite (uploadMedia_local _ _ Et Eu) in H |- *.
  destruct (read_file C (world st) filePathOrUrl) as [|f|e'];
    cbn [fst snd] in *; try discriminate.
  - destruct (fst (post_media C (world st) f)); discriminate.
  - injection H as <-. repeat split.
Qed.

(** X4. [uploadMedia] throws only when the read of a local file throws,
    and then nothing was requested.  A download that fails and a local
    file that is missing give [null] without any upload; a failed upload
    gives [null] as well, of a local file and of a downloaded one. *)
Theorem uploadMedia_failures filePathOrUrl (st : State C) :
  (forall e,
     fst (uploadMedia C cfg filePathOrUrl st) = Fail e ->
     isUrl filePathOrUrl = false /\
     read_file C (world st) filePathOrUrl = FileThrows e /\
     snd (uploadMedia C cfg filePathOrUrl st) = st) /\
  (forall e,
     isUrl filePathOrUrl = true ->
     get_image C (world st) (trim filePathOrUrl) = Fail e ->
     uploadMedia C cfg filePathOrUrl st =
     (Ok None,
      Build_State C (world st)
        (Call (GetImage (trim filePathOrUrl)) :: trace st) (logResults st))) /\
  (isUrl filePathOrUrl = false ->
   read_file C (world st) filePathOrUrl = FileMissing ->
   uploadMedia C cfg filePathOrUrl st = (Ok None, st)) /\
  (forall f e w',
     isUrl filePathOrUrl = false ->
     truthyStr (trim filePathOrUrl) = true ->
     read_file C (world st) filePathOrUrl = FileContents f ->
     post_media C (world st) f = (Fail e, w') ->
     uploadMedia C cfg filePathOrUrl st =
     (Ok None,
      Build_State C w'
        (Call (PostMedia f) :: Sleep (REQUEST_DELAY_MS cfg) :: trace st)
        (logResults st))) /\
  (forall f e w',
     isUrl filePathOrUrl = true ->
     get_image C (world st) (trim filePathOrUrl) = Ok f ->
     post_media C (world st) f = (Fail e, w') ->
     uploadMedia C cfg filePathOrUrl st =
     (Ok None,
      Build_State C w'
        (Call (PostMedia f) :: Sleep (REQUEST_DELAY_MS cfg)
           :: Call (GetImage (trim filePathOrUrl)) :: trace st)
        (logResults st))).
Proof.
  split; [|split; [|split; [|split]]].
  - intros e. apply uploadMedia_throws.
  - intros e Hu Hg. rewrite (uploadMedia_url _ _ Hu), Hg. reflexivity.
  - intros Hu Hr. destruct (truthyStr (trim filePathOrUrl)) eqn:Et.
    + rewrite (uploadMedia_local _ _ Et Hu), Hr. reflexivity.
    + apply uploadMedia_blank, Et.
  - intros f e w' Hu Ht Hr Hp.
    rewrite (uploadMedia_local _ _ Ht Hu), Hr, Hp. reflexivity.
  - intros f e w' Hu Hg Hp.
    rewrite (uploadMedia_url _ _ Hu), Hg, Hp. reflexivity.
Qed.


(** X5. Resolving terms and media fails a row in one case only: the read
    of a local image file throws.  The row is then answered with that
    error as soon as the read has failed, before the duplicate check, and
    no post is written. *)
Theorem row_fails_only_on_file_read row n (st : State C) e :
  validateRow row = Ok tt ->
  fst (enrichPostData C cfg row (preparePostData C cfg row) st) = Fail e ->
  isUrl (imagePathOf row) = false /\
  (exists w, read_file C w (imagePathOf row) = FileThrows e) /\
  createOrUpdatePost C cfg row n st =
    ({| rowNumber := n; res_title := displayTitle row; action := None;
        postId := None; res_status := None; error := Some (errorText e) |},
     snd (enrichPostData C cfg row (preparePostData C cfg row) st)) /\
  exists evs,
    trace (snd (createOrUpdatePost C cfg row n st)) = evs ++ trace st /\
    NoPostWrite evs.
Proof.
  intros Hvalid Hfail.
  assert (Hrun : createOrUpdatePost C cfg row n st =
    ({| rowNumber := n; res_title := displayTitle row; action := None;
        postId := None; res_status := None; error := Some (errorText e) |},
     snd (enrichPostData C cfg row (preparePostData C cfg row) st))).
  { unfold createOrUpdatePost, tryCreateOrUpdate. rewrite Hvalid.
    erewrite bind_pair.
    2:{ erewrite bind_pair; [|apply surjective_pairing]. rewrite Hfail. reflexivity. }
    reflexivity. }
  assert (Hshape : exists w, isUrl (imagePathOf row) = false /\
                             read_file C w (imagePathOf row) = FileThrows e).
  { revert Hfail. unfold enrichPostData. rewrite !bind_run.
    unfold resolveFeaturedImage. cbv zeta. fold (imagePathOf row).
    destruct (truthyStr (imagePathOf row)); [|discriminate].
    rewrite bind_run.
    match goal with
    | |- context [uploadMedia C cfg (imagePathOf row) ?s] =>
        pose proof (uploadMedia_throws (imagePathOf row) s) as Hup;
        destruct (fst (uploadMedia C cfg (imagePathOf row) s)) as [[id|]|e'];
        cbn [ret fst]; try discriminate;
        intros [= <-]; destruct (Hup e' eq_refl) as (H1 & H2 & _);
        eexists; split; [exact H1|exact H2]
    end. }
  destruct Hshape as [w [Hurl Hread]].
  split; [exact Hurl|]. split; [exists w; exact Hread|]. split; [exact Hrun|].
  rewrite Hrun. cbn [snd].
  destruct (enrichPostData_noPostWrite cfg row
              (preparePostData C cfg row) st) as [_ [evs [Ht Hp]]].
  exists evs. split; assumption.
Qed.


Open Scope string_scope.

Ltac other_keys :=
  repeat first
    [ rewrite setSchema_other by discriminate
    | rewrite setNofollow_other by discriminate
    | rewrite setNoindex_other by discriminate
    | rewrite setKeyword_other by discriminate
    | rewrite setTrimmed_other by discriminate ].

Lemma setTrimmed_same key field (meta : gmap string MetaVal) :
  setTrimmed key field meta !! key =
  if truthyStr (optTrim field) then Some (MStr (optTrim field)) else meta !! key.
Proof.
  unfold setTrimmed. destruct (truthyStr _); [apply lookup_insert_eq|reflexivity].
Qed.

(** X6. The meta description, the SEO title and the canonical URL are
    stored under their two keys exactly when they are not blank, and then
    as their trimmed value: no later block of the mapping overwrites or
    removes them.  The Open Graph and Twitter fields are never stored:
    nothing is in the mapping under the keys their statements name
    (lines 441, 446, 451 and 456). *)
Theorem seo_field_stored_iff_not_blank row :
  (forall key field,
     In (key, field) (seoFields row) ->
     buildMeta C row !! key =
     if truthyStr (optTrim field) then Some (MStr (optTrim field)) else None) /\
  (forall key,
     In key ["_yoast_wpseo_opengraph-title"; "_yoast_wpseo_opengraph-description";
             "_yoast_wpseo_twitter-title"; "_yoast_wpseo_twitter-description"] ->
     buildMeta C row !! key = None).
Proof.
  split.
  - intros key field Hin. unfold seoFields in Hin. unfold buildMeta. cbv zeta.
    repeat (destruct Hin as [[= <- <-]|Hin];
            [other_keys; rewrite setTrimmed_same; other_keys;
             rewrite ?lookup_empty; reflexivity|]).
    destruct Hin.
  - intros key Hin. apply buildMeta_hyphen_keys. unfold hyphenKeys.
    simpl in Hin |- *. tauto.
Qed.

(** X7. Rank Math's robots array holds the directives that were asked
    for, [noindex] before [nofollow], and is absent when neither was asked
    for; a directive is asked for by a field that is not blank and is
    ["yes"] once lower-cased.  Yoast's no-follow marker is never stored
    (line 471). *)
Theorem nofollow_markers row :
  buildMeta C row !! "rank_math_robots" =
    match saysYes C (row_noindex row), saysYes C (row_nofollow row) with
    | true, true => Some (MArr [js "noindex"; js "nofollow"])
    | true, false => Some (MArr [js "noindex"])
    | false, true => Some (MArr [js "nofollow"])
    | false, false => None
    end /\
  buildMeta C row !! "_yoast_wpseo_meta-robots-nofollow" = None.
Proof.
  split.
  - apply buildMeta_robots.
  - apply buildMeta_hyphen_keys. unfold hyphenKeys. simpl. tauto.
Qed.

Close Scope string_scope.

(** X8. JSON that does not parse is dropped, not reported as a failure:
    the engine treats the row as it treats the same row without its
    [schema_json] and [acf_json] fields. *)
Theorem malformed_json_is_dropped row n (st : State C) :
  (forall s, row_schema_json row = Some s -> JSON_parse C s = None) ->
  (forall s, row_acf_json row = Some s -> JSON_parse C s = None) ->
  createOrUpdatePost C cfg row n st =
  createOrUpdatePost C cfg (withoutJson row) n st.
Proof.
  intros Hschema Hacf.
  assert (Hmeta : buildMeta C row = buildMeta C (withoutJson row)).
  { unfold buildMeta. cbv zeta. unfold setSchema at 1 2.
    cbn [withoutJson row_schema_json optTrim truthyStr].
    destruct (row_schema_json row) as [s|]; cbn [optTrim]; [|reflexivity].
    change (default [] (Some s)) with s. rewrite (Hschema s eq_refl).
    destruct (truthyStr (trim s)); reflexivity. }
  assert (Hprep : preparePostData C cfg row = preparePostData C cfg (withoutJson row)).
  { unfold preparePostData. rewrite Hmeta.
    cbn [withoutJson row_acf_json row_title row_content row_status row_slug
         row_excerpt optTrim truthyStr].
    destruct (row_acf_json row) as [s|]; cbn [optTrim]; [|reflexivity].
    change (default [] (Some s)) with s. rewrite (Hacf s eq_refl).
    destruct (truthyStr (trim s)); reflexivity. }
  unfold createOrUpdatePost, tryCreateOrUpdate. rewrite Hprep. reflexivity.
Qed.

End MorePayload.

(** ** The outcome of a row *)

Section Outcome.

Context (C : Collaborators) (cfg : Config).




(** X10. What the engine writes is what the row says: the payload of a
    post write carries the trimmed title and content, neither of them
    empty, the row's status or else [DEFAULT_STATUS], and a slug and an
    excerpt exactly when the row has non-blank ones. *)
Theorem written_payload row n (st : State C) evs target pd :
  trace (snd (createOrUpdatePost C cfg row n st)) = evs ++ trace st ->
  In (Call (PostPost target pd)) evs ->
  pd_title pd = optTrim (row_title row) /\ truthyStr (pd_title pd) = true /\
  pd_content pd = optTrim (row_content row) /\ truthyStr (pd_content pd) = true /\
  pd_status pd = (if truthyStr (optTrim (row_status row))
                  then optTrim (row_status row) else DEFAULT_STATUS cfg) /\
  pd_slug pd = (if truthyStr (optTrim (row_slug row))
                then Some (optTrim (row_slug row)) else None) /\
  pd_excerpt pd = (if truthyStr (optTrim (row_excerpt row))
                   then Some (optTrim (row_excerpt row)) else None).
Proof.
  intros Htrace Hin.
  destruct (validateRow row) as [[]|e] eqn:Hvalid.
  2:{ exfalso. revert Htrace. unfold createOrUpdatePost, tryCreateOrUpdate.
      rewrite Hvalid. cbn. intros Ht.
      assert (Hnil : evs = []).
      { apply (f_equal (@length Event)) in Ht. rewrite length_app in Ht.
        destruct evs; [reflexivity|simpl in Ht; lia]. }
      subst evs. destruct Hin. }
  apply validateRow_ok in Hvalid as [Htitle Hcontent].
  destruct (createOrUpdatePost_trace C cfg row n st) as [evs' [Ht Hshape]].
  rewrite Ht in Htrace. apply app_inv_tail in Htrace. subst evs'.
  assert (Hcore : sameCore pd (preparePostData C cfg row)).
  { destruct Hshape as [Hnone|[target' [pd' [rest (-> & Hrest & Hcore)]]]].
    - exfalso. unfold NoPostWrite in Hnone. rewrite List.Forall_forall in Hnone.
      specialize (Hnone _ Hin). discriminate.
    - destruct Hin as [[= <- <-]|Hin]; [exact Hcore|].
      exfalso. unfold NoPostWrite in Hrest. rewrite List.Forall_forall in Hrest.
      specialize (Hrest _ Hin). discriminate. }
  destruct Hcore as (H1 & H2 & H3 & H4 & H5 & _).
  cbn [preparePostData pd_title pd_content pd_status pd_slug pd_excerpt] in *.
  rewrite H1, H2, H3, H4, H5. repeat split; assumption.
Qed.

(** X27. A post is updated only if the slug lookup delivered it.  When the
    row has no slug, when the lookup request fails, or when the post
    delivered has the ID 0, the write that follows the duplicate check
    addresses no post: the row creates one, or fails; it never says
    [updated]. *)
Theorem create_when_slug_lookup_gives_nothing row n (st : State C) pd st1 :
  validateRow row = Ok tt ->
  enrichPostData C cfg row (preparePostData C cfg row) st = (Ok pd, st1) ->
  fst (findPostByTitle C (pd_title pd) st1) = None ->
  (truthyStr (optTrim (row_slug row)) = false \/
   (exists e,
      get_posts_by_slug C (world st1) (optTrim (row_slug row)) = Fail e) \/
   (exists p rest,
      get_posts_by_slug C (world st1) (optTrim (row_slug row)) = Ok (p :: rest) /\
      post_id p = 0%Z)) ->
  (exists rest,
     trace (snd (createOrUpdatePost C cfg row n st)) =
     Call (PostPost None pd) :: Sleep (REQUEST_DELAY_MS cfg) :: rest) /\
  action (fst (createOrUpdatePost C cfg row n st)) <> Some updated /\
  (forall post w',
     post_post C (world st1) None pd = (Ok (PostBody post), w') ->
     action (fst (createOrUpdatePost C cfg row n st)) = Some created /\
     postId (fst (createOrUpdatePost C cfg row n st)) = Some (post_id post)).
Proof.
  intros Hvalid Henrich Hnone Hcase.
  assert (Hcore : sameCore pd (preparePostData C cfg row)).
  { apply (enrichPostData_core cfg row _ st). rewrite Henrich. reflexivity. }
  destruct Hcore as (_ & _ & _ & Hs & _).
  cbn [pd_slug preparePostData] in Hs.
  rewrite (createOrUpdatePost_passes C cfg row n st pd st1 Hvalid Henrich Hnone).
  cbv zeta.
  assert (Htarget :
    match
      match pd_slug pd with
      | Some slug =>
          match get_posts_by_slug C (world st1) slug with
          | Ok (post :: _) => Some (post_id post)
          | _ => None
          end
      | None => None
      end
    with
    | Some id => if truthyNum id then Some id else None
    | None => None
    end = None).
  { rewrite Hs. destruct (truthyStr (optTrim (row_slug row))) eqn:Et;
      [|reflexivity].
    destruct Hcase as [H | [[e H] | (p & rest & H & Hid)]].
    - discriminate.
    - rewrite H. reflexivity.
    - rewrite H, Hid. reflexivity. }
  rewrite Htarget. cbn [fst snd trace]. split; [eauto|].
  split.
  - destruct (fst (post_post C (world st1) None pd)) as [[post|typeError]|e];
      cbn; discriminate.
  - intros post w' Hw. rewrite Hw. cbn. split; reflexivity.
Qed.

End Outcome.

(** ** The title scan and the batch *)

Section MoreScan.

Context (C : Collaborators) (cfg : Config).

(** X11. A title scan asks for the pages 1, 2, ... in turn and for no
    more than ten of them, and it requests nothing else. *)
Theorem title_scan_requests title (st : State C) :
  exists k,
    (k <= 10)%nat /\
    trace (snd (findPostByTitle C title st)) =
    rev (List.map (fun i => Call (GetPostsPage (N.of_nat i))) (seq 1 k))
    ++ trace st.
Proof.
  unfold findPostByTitle. destruct (negb _).
  - exists O. split; [lia|reflexivity].
  - rewrite bind_run.
    destruct (scanLoop_pages (normalizeTitle (toLowerCase C) title) 10 1 st)
      as [k [Hk [_ Ht]]].
    exists k. split; [exact Hk|].
    assert (Hsame : trace (snd (match fst (scanLoop C 10 (normalizeTitle (toLowerCase C) title) 1 st) with
                                | ScanFound id => ret C (Some id)
                                | _ => ret C None
                                end (snd (scanLoop C 10 (normalizeTitle (toLowerCase C) title) 1 st)))) =
                    trace (snd (scanLoop C 10 (normalizeTitle (toLowerCase C) title) 1 st))).
    { destruct (fst (scanLoop C 10 (normalizeTitle (toLowerCase C) title) 1 st)); reflexivity. }
    rewrite Hsame, Ht. f_equal. f_equal.
    rewrite <- seq_shift, List.map_map. apply List.map_ext.
    intros i. do 2 f_equal. lia.
Qed.

Lemma scanPage_hit_first normalized corpus id :
  scanPage C normalized corpus = PageHit id ->
  exists pre q post,
    corpus = pre ++ q :: post /\
    titleMatches C normalized q = true /\ post_id q = id /\
    Forall (fun p => titleMatches C normalized p = false) pre.
Proof.
  induction corpus as [|p corpus IH]; [discriminate|].
  simpl. destruct (postTitleRaw p) as [raw|] eqn:Eraw; [|discriminate].
  destruct (strEq (normalizeTitle (toLowerCase C) raw) normalized) eqn:Eeq.
  - intros [= <-]. exists [], p, corpus. repeat split.
    + unfold titleMatches. rewrite Eraw. exact Eeq.
    + constructor.
  - intros H. destruct (IH H) as (pre & q & post & -> & Hm & Hid & Hpre).
    exists (p :: pre), q, post. repeat split; try assumption.
    constructor; [|exact Hpre]. unfold titleMatches. rewrite Eraw. exact Eeq.
Qed.

(** X12. [findPostByTitle] reports no duplicate that is not there: an ID
    it returns is that of the first post of the scanned corpus whose
    normalized title is the normalized title asked for; and a blank title
    is not looked for at all. *)
Theorem reported_duplicate_is_first_match title (st : State C) :
  (forall id,
     fst (findPostByTitle C title st) = Some id ->
     exists pre q post,
       scannedCorpus C (world st) = pre ++ q :: post /\
       titleMatches C (normalizeTitle (toLowerCase C) title) q = true /\ post_id q = id /\
       Forall (fun p => titleMatches C (normalizeTitle (toLowerCase C) title) p = false) pre) /\
  (truthyStr (trim title) = false -> findPostByTitle C title st = (None, st)).
Proof.
  split.
  - intros id. unfold findPostByTitle. destruct (negb _); [discriminate|].
    rewrite bind_run.
    destruct (scanLoop_run (normalizeTitle (toLowerCase C) title) 10 1 st) as [_ Hr];
      [reflexivity|lia|].
    fold (scannedCorpus C (world st)) in Hr.
    destruct (scanPage C (normalizeTitle (toLowerCase C) title) (scannedCorpus C (world st)))
      as [id'| |] eqn:Escan.
    + rewrite Hr. intros [= <-]. apply scanPage_hit_first, Escan.
    + destruct Hr as [-> | ->]; discriminate.
    + rewrite Hr. discriminate.
  - intros Ht. unfold findPostByTitle. rewrite Ht. reflexivity.
Qed.

Lemma checkConnectivity_run (st : State C) :
  checkConnectivity C st =
  (match get_posts_probe C (world st) with
   | Ok _ => true
   | Fail _ => false
   end,
   Build_State C (world st) (Call GetPostsProbe :: trace st) (logResults st)).
Proof.
  unfold checkConnectivity. rewrite bind_run, readCall_run. cbn [fst snd].
  destruct (get_posts_probe C (world st)); reflexivity.
Qed.

(** X13. [processCsvFile] fails in three cases only, told apart by the
    message: the pre-flight request fails, the file cannot be loaded, or
    it has no row.  In each of them the pre-flight request is the only
    request made and no result is recorded. *)
Theorem batch_fails_before_first_row loaded (st : State C) e :
  fst (processCsvFile C cfg loaded st) = Fail e ->
  snd (processCsvFile C cfg loaded st) =
    Build_State C (world st) (Call GetPostsProbe :: trace st) [] /\
  ((exists e0, get_posts_probe C (world st) = Fail e0) /\
   e = newError (js "WordPress REST API is not accessible. Check your configuration.")
   \/
   (exists posts e0, get_posts_probe C (world st) = Ok posts /\ loaded = Fail e0 /\
      e = newError (js "Failed to load CSV: " ++ err_message e0))
   \/
   (exists posts, get_posts_probe C (world st) = Ok posts /\ loaded = Ok [] /\
      e = newError (js "CSV file is empty"))).
Proof.
  unfold processCsvFile. rewrite bind_run.
  change (resetLogResults C st) with (tt, Build_State C (world st) (trace st) []).
  cbn [fst snd]. rewrite bind_run, checkConnectivity_run.
  cbn [fst snd world trace logResults].
  destruct (get_posts_probe C (world st)) as [posts|e0]; cbn [negb].
  2:{ intros [= <-]. split; [reflexivity|]. left. split; [exists e0|]; reflexivity. }
  destruct loaded as [[|row rows]|e0].
  - intros [= <-]. split; [reflexivity|]. right. right. exists posts.
    repeat split.
  - rewrite !bind_run. discriminate.
  - intros [= <-]. split; [reflexivity|]. right. left. exists posts, e0.
    repeat split.
Qed.

Lemma filter_nil_Forall {A} (f : A -> bool) l :
  List.filter f l = [] -> Forall (fun x => f x = false) l.
Proof.
  induction l as [|x l IH]; intros H; [constructor|].
  simpl in H. destruct (f x) eqn:E; [discriminate|].
  constructor; [exact E|apply IH, H].
Qed.

(** X14. The exit code of [main] is 0 or 1, and it is 0 only when the
    file was loaded and every one of its rows got a result without an
    error (an empty file included). *)
Theorem main_exit_code loaded (st : State C) :
  logResults st = [] ->
  (fst (main C cfg loaded st) = 0%Z \/ fst (main C cfg loaded st) = 1%Z) /\
  (fst (main C cfg loaded st) = 0%Z ->
   exists rows,
     loaded = Ok rows /\
     length (logResults (snd (main C cfg loaded st))) = length rows /\
     Forall (fun r => hasError r = false) (logResults (snd (main C cfg loaded st)))).
Proof.
  intros Hlog. unfold main. rewrite bind_run, checkConnectivity_run.
  cbn [fst snd].
  destruct (get_posts_probe C (world st)) as [posts|e0]; cbn [negb].
  2:{ split; [right; reflexivity|discriminate]. }
  destruct loaded as [[|row rows]|e0].
  - split; [left; reflexivity|]. intros _. exists []. cbn. rewrite Hlog.
    repeat split. constructor.
  - rewrite !bind_run. unfold getLogResults. cbn [fst snd].
    destruct (processRows_run C cfg (row :: rows) 0
                (Build_State C (world st) (Call GetPostsProbe :: trace st)
                   (logResults st)))
      as [rs [evs (H1 & _ & _ & H2 & _)]].
    cbn [logResults] in H1.
    set (st' := snd (processRows C cfg (row :: rows) 0 _)) in *.
    rewrite Hlog in H1. cbn [app] in H1.
    destruct (write_log C (world st') (logResults st')); cbn [fst snd].
    + destruct (0 <? length (List.filter hasError (logResults st')))%nat eqn:Ef.
      * split; [right; reflexivity|discriminate].
      * split; [left; reflexivity|]. intros _. exists (row :: rows).
        split; [reflexivity|]. split; [rewrite H1; exact H2|].
        apply filter_nil_Forall. apply Nat.ltb_ge in Ef.
        destruct (List.filter hasError (logResults st')); [reflexivity|].
        simpl in Ef. lia.
    + split; [right; reflexivity|discriminate].
  - split; [right; reflexivity|discriminate].
Qed.

(** What [processCsvFile] comes to: a failure before the first row, or a
    summary of as many results as the file has rows. *)
Lemma processCsvFile_outcome loaded (st : State C) :
  (exists msg,
     processCsvFile C cfg loaded st =
       (Fail (newError msg),
        Build_State C (world st) (Call GetPostsProbe :: trace st) []) /\
     ((exists e0, get_posts_probe C (world st) = Fail e0) /\
      msg = js "WordPress REST API is not accessible. Check your configuration."
      \/
      (exists posts e0, get_posts_probe C (world st) = Ok posts /\
         loaded = Fail e0 /\ msg = js "Failed to load CSV: " ++ err_message e0)
      \/
      (exists posts, get_posts_probe C (world st) = Ok posts /\
         loaded = Ok [] /\ msg = js "CSV file is empty"))) \/
  (exists posts rows summary,
     get_posts_probe C (world st) = Ok posts /\
     loaded = Ok rows /\ rows <> [] /\
     fst (processCsvFile C cfg loaded st) = Ok summary /\
     total summary = length rows /\
     length (results summary) = length rows).
Proof.
  unfold processCsvFile. rewrite bind_pair with
    (a := tt) (st' := Build_State C (world st) (trace st) []) by reflexivity.
  rewrite bind_pair with
    (a := match get_posts_probe C (world st) with Ok _ => true | Fail _ => false end)
    (st' := Build_State C (world st) (Call GetPostsProbe :: trace st) [])
    by (rewrite checkConnectivity_run; reflexivity).
  destruct (get_posts_probe C (world st)) as [posts|e0]; cbn [negb].
  2:{ left. eexists. split; [reflexivity|]. left. split; [exists e0|]; reflexivity. }
  destruct loaded as [[|row rows]|e0].
  - left. eexists. split; [reflexivity|]. right. right. exists posts. repeat split.
  - right. rewrite !bind_run. unfold getLogResults. cbn [fst snd].
    destruct (processRows_run C cfg (row :: rows) 0
                (Build_State C (world st) (Call GetPostsProbe :: trace st) []))
      as [rs [evs (H1 & _ & _ & H2 & _)]].
    cbn [logResults app] in H1.
    eexists posts, (row :: rows), _. split; [reflexivity|].
    split; [reflexivity|]. split; [discriminate|]. split; [reflexivity|].
    cbn [total results]. split; [reflexivity|]. rewrite H1. exact H2.
  - left. eexists. split; [reflexivity|]. right. left. exists posts, e0.
    repeat split.
Qed.

(** X15. The upload route, when the uploaded file can be removed: without
    a file it answers 400 and asks the site nothing; with a file of at
    least one row and a site that answers the pre-flight request it
    answers 200 with a summary of as many results as rows, however the
    rows fared; in the three other cases it answers 500 with the message
    of the case, having made the pre-flight request only. *)
Theorem upload_answers file body_sessionId now fs (st : State C) :
  Server.unlink_done fs = Ok tt ->
  Server.unlink_on_error fs = Ok tt ->
  match file with
  | None =>
      Server.upload C cfg None body_sessionId now fs st = (Server.Status400, st)
  | Some loaded =>
      (exists posts rows summary,
         get_posts_probe C (world st) = Ok posts /\
         loaded = Ok rows /\ rows <> [] /\
         fst (Server.upload C cfg file body_sessionId now fs st) =
           Server.Status200 summary
             (Server.orDefault body_sessionId (numToString now)) /\
         total summary = length rows /\
         length (results summary) = length rows) \/
      (exists msg,
         Server.upload C cfg file body_sessionId now fs st =
           (Server.Status500 msg
              (Server.orDefault body_sessionId (numToString now)),
            Build_State C (world st) (Call GetPostsProbe :: trace st) []) /\
         ((exists e0, get_posts_probe C (world st) = Fail e0) /\
          msg = js "WordPress REST API is not accessible. Check your configuration."
          \/
          (exists posts e0, get_posts_probe C (world st) = Ok posts /\
             loaded = Fail e0 /\ msg = js "Failed to load CSV: " ++ err_message e0)
          \/
          (exists posts, get_posts_probe C (world st) = Ok posts /\
             loaded = Ok [] /\ msg = js "CSV file is empty")))
  end.
Proof.
  intros Hdone Hcatch. destruct file as [loaded|]; [|reflexivity].
  unfold Server.upload. cbv zeta. rewrite Hdone, Hcatch.
  destruct (processCsvFile_outcome loaded st)
    as [(msg & Hrun & Hcase) | (posts & rows & summary & Hp & Hl & Hne & Hrun & Ht & Hr)].
  - right. exists msg. rewrite bind_pair with (1 := Hrun).
    assert (Hmsg : Server.uploadErrorText (newError msg) = msg).
    { unfold Server.uploadErrorText. cbn [err_message newError].
      destruct Hcase as [[_ ->] | [(posts & e0 & _ & _ & ->) | (posts & _ & _ & ->)]];
        reflexivity. }
    split; [|exact Hcase].
    destruct (Server.exists_on_error fs); unfold ret; rewrite Hmsg; reflexivity.
  - left. exists posts, rows, summary. rewrite bind_run, Hrun. cbn [fst].
    repeat split; assumption.
Qed.

Lemma noPostWrite_count evs : NoPostWrite evs -> List.filter isPostWrite evs = [].
Proof.
  induction evs as [|x evs IH]; intros H; [reflexivity|].
  inversion H as [|? ? Hx Hrest]; subst. simpl. rewrite Hx. apply IH, Hrest.
Qed.

Lemma processRows_post_writes rows : forall i (st : State C),
  exists evs,
    trace (snd (processRows C cfg rows i st)) = evs ++ trace st /\
    (length (List.filter isPostWrite evs) <= length rows)%nat.
Proof.
  induction rows as [|row rest IH]; intros i st.
  - exists []. split; [reflexivity|simpl; lia].
  - cbn [processRows]. rewrite !bind_run.
    destruct (createOrUpdatePost_trace C cfg row (i + 1) st) as [e1 [Ht1 Hshape]].
    set (r0 := fst (createOrUpdatePost C cfg row (i + 1) st)) in *.
    set (st1 := snd (createOrUpdatePost C cfg row (i + 1) st)) in *.
    unfold pushLogResult. cbn [fst snd].
    destruct (IH (i + 1)
      (Build_State C (world st1) (trace st1) (logResults st1 ++ [r0])))
      as [e2 [Ht2 Hlen]].
    exists (e2 ++ e1). cbn [trace] in Ht2. rewrite Ht2, Ht1, <- app_assoc.
    split; [reflexivity|].
    rewrite List.filter_app, length_app. cbn [length].
    assert (H1 : (length (List.filter isPostWrite e1) <= 1)%nat).
    { destruct Hshape as [Hnone|(target & pd & tl & -> & Htl & _)].
      - rewrite (noPostWrite_count _ Hnone). simpl. lia.
      - simpl. rewrite (noPostWrite_count _ Htl). simpl. lia. }
    lia.
Qed.

(** X28. A batch writes at most one post for each row of the file,
    counted over everything it does from the pre-flight request on; a
    file that could not be loaded writes none. *)
Theorem batch_writes_at_most_one_post_per_row loaded (st : State C) :
  exists evs,
    trace (snd (processCsvFile C cfg loaded st)) = evs ++ trace st /\
    (length (List.filter isPostWrite evs)
     <= match loaded with
        | Ok rows => length rows
        | Fail _ => 0
        end)%nat.
Proof.
  unfold processCsvFile. rewrite bind_run.
  change (resetLogResults C st) with (tt, Build_State C (world st) (trace st) []).
  cbn [fst snd]. rewrite bind_run, checkConnectivity_run.
  cbn [fst snd world trace logResults].
  assert (Hprobe : forall (r : Reply Summary) n,
    exists evs,
      trace (snd (ret C r
        (Build_State C (world st) (Call GetPostsProbe :: trace st) []))) =
      evs ++ trace st /\
      (length (List.filter isPostWrite evs) <= n)%nat).
  { intros r n. exists [Call GetPostsProbe]. split; [reflexivity|simpl; lia]. }
  destruct (get_posts_probe C (world st)) as [posts|e0]; cbn [negb];
    [|apply Hprobe].
  destruct loaded as [[|row rows]|e0]; try apply Hprobe.
  rewrite !bind_run. unfold getLogResults. cbn [fst snd ret].
  destruct (processRows_post_writes (row :: rows) 0
              (Build_State C (world st) (Call GetPostsProbe :: trace st) []))
    as [evs [Ht Hlen]].
  exists (evs ++ [Call GetPostsProbe]). rewrite Ht. cbn [trace].
  rewrite <- app_assoc. split; [reflexivity|].
  rewrite List.filter_app, length_app. simpl. simpl in Hlen. lia.
Qed.

End MoreScan.

(** ** More on [normalizeTitle] *)

Lemma trimEnd_last s : forall a c, trimEnd s = a ++ [c] -> isSpace c = false.
Proof.
  induction s as [|x r IH]; intros a c H.
  - destruct a; discriminate.
  - cbn [trimEnd] in H. destruct (trimEnd r) as [|y t] eqn:Er.
    + destruct (isSpace x) eqn:Ex; [destruct a; discriminate|].
      destruct a as [|a0 a]; [injection H as <-; exact Ex|].
      destruct a; discriminate.
    + destruct a as [|a0 a]; [discriminate|].
      injection H as _ H. exact (IH a c H).
Qed.

Lemma spacesNormal_span b : spacesNormal b = true -> (spanSpaces b <= 1)%nat.
Proof.
  destruct b as [|c r]; [simpl; lia|].
  cbn [spacesNormal spanSpaces]. destruct (isSpace c); [|lia].
  intros H. apply andb_true_iff in H as [H _].
  apply andb_true_iff in H as [_ H]. apply negb_true_iff in H.
  destruct r as [|d r]; [simpl; lia|]. cbn [headIsSpace] in H.
  cbn [spanSpaces]. rewrite H. lia.
Qed.

(** X16. The normal form [normalizeTitle] delivers, for a [toLowerCase]
    that keeps the markup in place and leaves no capital Basic Latin
    letter: at no position of the result does the tag pattern, the entity
    pattern or a run of two white spaces match; every white space in it
    is a plain space that is neither first nor last; and no code unit is
    a capital Basic Latin letter. *)
Theorem normalized_title_form (lower : jsstring -> jsstring) s a b :
  LowerKeepsMarkup lower -> LowerLeavesNoCapital lower ->
  normalizeTitle lower s = a ++ b ->
  matchTag b = None /\
  matchEntity b = None /\
  (spanSpaces b <= 1)%nat /\
  forall c r, b = c :: r ->
    lowerUnit c = c /\
    (isSpace c = true -> c = SPACE /\ a <> [] /\ r <> []).
Proof.
  intros Hkeep Hcap Hab.
  assert (Hl : forall c, In c (normalizeTitle lower s) -> lowerUnit c = c).
  { unfold normalizeTitle. destruct (negb (truthyStr s)); [intros c []|].
    cbv zeta. intros c Hc. apply trim_In in Hc. exact (Hcap _ _ Hc). }
  destruct (normalizeTitle_shape lower s Hkeep) as (Ht & He & Hs & Htrim).
  rewrite Hab in Ht, He, Hs, Hl, Htrim.
  apply tagFree_suffix in Ht. apply entityFree_suffix in He.
  apply spacesNormal_suffix in Hs.
  split; [|split; [|split]].
  - destruct b as [|c r]; [reflexivity|]. apply matchTag_None.
    cbn [tagFree] in Ht. apply andb_true_iff in Ht. tauto.
  - destruct b as [|c r]; [reflexivity|].
    cbn [entityFree] in He. apply andb_true_iff in He as [He _].
    destruct (matchEntity_None c r He) as [H|H]; [exact H|].
    unfold matchEntity in H. destruct (c =? AMPERSAND); [|discriminate].
    destruct (indexOfUnit SEMICOLON r) as [[|n]|]; discriminate.
  - apply spacesNormal_span, Hs.
  - intros c r ->. split.
    + apply Hl, in_or_app. right. left. reflexivity.
    + intros Hc. cbn [spacesNormal] in Hs. rewrite Hc in Hs.
      apply andb_true_iff in Hs as [Hs _]. apply andb_true_iff in Hs as [Hs _].
      apply N.eqb_eq in Hs. split; [exact Hs|]. split.
      * intros ->. cbn [app] in Htrim.
        pose proof (trimEnd_head _ (trimStart_head (c :: r))) as Hh.
        fold (trim (c :: r)) in Hh. rewrite Htrim in Hh.
        cbn [headIsSpace] in Hh. congruence.
      * intros ->. unfold trim in Htrim.
        pose proof (trimEnd_last _ _ _ Htrim). congruence.
Qed.

Lemma stripTags_plain_prefix a x :
  hasUnit LT_SIGN a = false ->
  replaceAll matchTag [] 0 (a ++ x) = a ++ replaceAll matchTag [] 0 x.
Proof.
  induction a as [|c a IH]; intros H; [reflexivity|].
  rewrite hasUnit_cons in H. apply orb_false_iff in H as [Hc Ha].
  cbn [app]. rewrite replaceAll_cons. unfold matchTag at 1.
  rewrite N.eqb_sym, Hc. f_equal. apply IH, Ha.
Qed.

Lemma indexOfUnit_first c body rest :
  hasUnit c body = false ->
  indexOfUnit c (body ++ c :: rest) = Some (length body).
Proof.
  induction body as [|x body IH]; intros H.
  - simpl. rewrite N.eqb_refl. reflexivity.
  - rewrite hasUnit_cons in H. apply orb_false_iff in H as [Hx Hb].
    simpl. rewrite N.eqb_sym, Hx, (IH Hb). reflexivity.
Qed.

Lemma replaceAll_skip m rep dropped : forall rest,
  replaceAll m rep (length dropped) (dropped ++ rest) = replaceAll m rep 0 rest.
Proof.
  induction dropped as [|c dropped IH]; intros rest; [reflexivity|].
  cbn [length app]. rewrite replaceAll_cons. apply IH.
Qed.

(** X17. A tag put into a title does not change its normalized form, the
    tag being the first of the title: no [<] comes before it, and its
    body holds no [>].  ([toLowerCase] gives the empty string on the
    empty string.) *)
Theorem inserted_tag_is_ignored (lower : jsstring -> jsstring) a body b :
  lower [] = [] ->
  hasUnit LT_SIGN a = false ->
  hasUnit GT_SIGN body = false ->
  normalizeTitle lower (a ++ [LT_SIGN] ++ body ++ [GT_SIGN] ++ b) =
  normalizeTitle lower (a ++ b).
Proof.
  intros Hnil Ha Hbody.
  rewrite <- (normalizeTitle_ignores_tags lower (a ++ b) Hnil).
  rewrite <- (normalizeTitle_ignores_tags lower (a ++ _) Hnil).
  rewrite !(stripTags_plain_prefix a) by exact Ha. do 2 f_equal.
  cbn [app]. rewrite replaceAll_cons. unfold matchTag at 1.
  rewrite N.eqb_refl, (indexOfUnit_first _ _ _ Hbody). cbn [option_map app].
  change (S (length body)) with (length (GT_SIGN :: body)).
  replace (length (GT_SIGN :: body)) with (length (body ++ [GT_SIGN]))
    by (rewrite length_app; simpl; lia).
  change (body ++ GT_SIGN :: b) with (body ++ [GT_SIGN] ++ b).
  rewrite app_assoc. apply replaceAll_skip.
Qed.

(** X18. Two Basic Latin titles without an ampersand that differ in
    letter case only have the same normalized form; on Basic Latin
    [toLowerCase] is the case map of Basic Latin. *)
Theorem titles_equal_up_to_case (lower : jsstring -> jsstring) s t :
  LowerOnBasicLatin lower ->
  isBasicLatin s = true -> isBasicLatin t = true ->
  hasUnit AMPERSAND s = false ->
  hasUnit AMPERSAND t = false ->
  asciiLowerCase s = asciiLowerCase t ->
  normalizeTitle lower s = normalizeTitle lower t.
Proof.
  intros Hlow Hbs Hbt Hs Ht Hst.
  rewrite (proj1 (normalizeTitle_basic_latin lower s Hlow Hbs)).
  rewrite (proj1 (normalizeTitle_basic_latin lower t Hlow Hbt)).
  rewrite <- (normalizeTitle_ignores_case s Hs), Hst.
  apply normalizeTitle_ignores_case, Ht.
Qed.

(** ** The authentication middleware of [server.js] *)

Section Authentication.

Import Server.

Context (env : Env) (codec : Codec).

Lemma truthyOpt_Some o :
  truthyOpt o = true <-> exists sid, o = Some sid /\ sid <> [].
Proof.
  split.
  - destruct o as [[|c r]|]; try discriminate. intros _.
    exists (c :: r). split; [reflexivity|discriminate].
  - intros [[|c r] [-> H]]; [contradiction|reflexivity].
Qed.

Lemma refuse_not_next req : refuse req <> Next.
Proof.
  unfold refuse. destruct (_ || _); [discriminate|].
  destruct (_ || _); discriminate.
Qed.

Lemma validateAuthToken_truthy token :
  validateAuthToken env codec token = true -> truthyOpt token = true.
Proof.
  unfold validateAuthToken. destruct (truthyOpt token); [reflexivity|discriminate].
Qed.

Lemma startsWith_prefix lit : forall x, startsWith (lit ++ x) lit = true.
Proof.
  induction lit as [|c lit IH]; intros x; [destruct x; reflexivity|].
  simpl. rewrite N.eqb_refl. apply IH.
Qed.

Lemma endsWith_app a b : endsWith (a ++ b) b = true.
Proof. unfold endsWith. rewrite rev_app_distr. apply startsWith_prefix. Qed.

(** The local branch of [requireAuth], by the session presented. *)
Lemma requireAuth_local (req : HttpRequest) (now : Z) (sessions : Sessions) :
  isPublicPath (req_path req) = false ->
  isVercel env = false ->
  requireAuth env codec req now sessions =
  match sessionIdOf req with
  | Some (c :: r) =>
      match sessions !! (c :: r) with
      | Some session =>
          if (now <? expiresAt session)%Z then (Next, sessions)
          else (refuse req, delete (c :: r) sessions)
      | None => (refuse req, sessions)
      end
  | _ => (refuse req, sessions)
  end.
Proof.
  intros Hp Hv. unfold requireAuth. rewrite Hp, Hv. cbv zeta.
  destruct (sessionIdOf req) as [[|c r]|]; reflexivity.
Qed.

(** X19. [requireAuth] lets a request through in three cases only: the
    path is one of the five public ones; or, on Vercel, the token cookie
    decodes to a text ending with the secret; or, elsewhere, the session
    presented (cookie first, header second) is in the store and expires
    after the time of the request. *)
Theorem requireAuth_passes_iff (req : HttpRequest) (now : Z) (sessions : Sessions) :
  fst (requireAuth env codec req now sessions) = Next <->
  isPublicPath (req_path req) = true \/
  (isVercel env = true /\
   validateAuthToken env codec (cookie_authToken req) = true) \/
  (isVercel env = false /\
   exists sid session,
     sessionIdOf req = Some sid /\ sid <> [] /\
     sessions !! sid = Some session /\ (now < expiresAt session)%Z).
Proof.
  destruct (isPublicPath (req_path req)) eqn:Hp.
  { unfold requireAuth. rewrite Hp. split; auto. }
  destruct (isVercel env) eqn:Hv.
  - unfold requireAuth. rewrite Hp, Hv. cbv zeta.
    destruct (validateAuthToken env codec (cookie_authToken req)) eqn:Etok.
    + rewrite (validateAuthToken_truthy _ Etok). cbn [andb fst].
      split; auto.
    + rewrite andb_false_r. cbn [fst]. split.
      * intros H. destruct (refuse_not_next _ H).
      * intros [H|[[_ H]|[H _]]]; discriminate.
  - rewrite (requireAuth_local req now sessions Hp Hv). split.
    + intros H. right. right. split; [reflexivity|].
      destruct (sessionIdOf req) as [[|c r]|];
        try (destruct (refuse_not_next _ H)).
      destruct (sessions !! (c :: r)) as [session|] eqn:El;
        [|destruct (refuse_not_next _ H)].
      destruct (now <? expiresAt session)%Z eqn:Et;
        [|destruct (refuse_not_next _ H)].
      exists (c :: r), session. repeat split; try assumption; try discriminate.
      apply Z.ltb_lt, Et.
    + intros [H|[[H _]|[_ (sid & session & Hs & Hne & Hl & Ht)]]];
        try discriminate.
      rewrite Hs. destruct sid as [|c r]; [contradiction|].
      rewrite Hl. apply Z.ltb_lt in Ht. rewrite Ht. reflexivity.
Qed.

(** X20. What [requireAuth] does to the session store: it adds and changes
    nothing, it keeps every session that has not expired, and the only
    session it can remove is the one presented, off Vercel, when its time
    is up; a request that is let through leaves the store as it was. *)
Theorem requireAuth_keeps_live_sessions (req : HttpRequest) (now : Z)
    (sessions : Sessions) :
  (forall k s,
     snd (requireAuth env codec req now sessions) !! k = Some s ->
     sessions !! k = Some s) /\
  (forall k s,
     sessions !! k = Some s ->
     snd (requireAuth env codec req now sessions) !! k = None ->
     sessionIdOf req = Some k /\ isVercel env = false /\
     (expiresAt s <= now)%Z) /\
  (fst (requireAuth env codec req now sessions) = Next ->
   snd (requireAuth env codec req now sessions) = sessions).
Proof.
  assert (Hsame : forall v : Verdict,
    (forall k s, (v, sessions).2 !! k = Some s -> sessions !! k = Some s) /\
    (forall k s, sessions !! k = Some s -> (v, sessions).2 !! k = None ->
       sessionIdOf req = Some k /\ isVercel env = false /\
       (expiresAt s <= now)%Z) /\
    ((v, sessions).1 = Next -> (v, sessions).2 = sessions)).
  { intros v. cbn [fst snd]. repeat split; auto; congruence. }
  destruct (isPublicPath (req_path req)) eqn:Hp.
  { unfold requireAuth. rewrite Hp. apply Hsame. }
  destruct (isVercel env) eqn:Hv.
  { unfold requireAuth. rewrite Hp, Hv. cbv zeta.
    destruct (_ && _); apply Hsame. }
  rewrite (requireAuth_local req now sessions Hp Hv).
  destruct (sessionIdOf req) as [[|c r]|]; try apply Hsame.
  destruct (sessions !! (c :: r)) as [session|] eqn:El; try apply Hsame.
  destruct (now <? expiresAt session)%Z eqn:Et; try apply Hsame.
  apply Z.ltb_ge in Et. cbn [fst snd]. split; [|split].
  - intros k s H. apply lookup_delete_Some in H. tauto.
  - intros k s Hk Hnone. apply lookup_delete_None in Hnone.
    destruct Hnone as [<- | Hnone]; [|congruence].
    rewrite El in Hk. injection Hk as <-. repeat split. exact Et.
  - intros H. destruct (refuse_not_next _ H).
Qed.

Lemma login_matches (body : LoginBody)
    (clock : Readings) (random : jsstring) (sessions : Sessions) :
  trim (orDefault (body_username body) []) = AUTH_USERNAME env ->
  trim (orDefault (body_password body) []) = AUTH_PASSWORD env ->
  login env codec body clock random sessions =
  if isVercel env then
    (LoginOk (TokenCookie (generateAuthToken env codec (atId clock) random)
                          (maxAgeOf (body_rememberme body))),
     sessions)
  else
    (LoginOk (SessionCookie (generateSessionId (atId clock) random)
                            (maxAgeOf (body_rememberme body))),
     <[generateSessionId (atId clock) random :=
         {| username := body_username body;
            createdAt := atCreated clock;
            expiresAt := (atExpires clock + maxAgeOf (body_rememberme body))%Z |}]>
       sessions).
Proof.
  intros Hu Hw. unfold login. cbv zeta. rewrite Hu, Hw, !strEq_refl.
  reflexivity.
Qed.

(** X21. [POST /login] succeeds exactly when the user name and the
    password sent are, once trimmed, the configured ones (an absent field
    counts as the empty string); a refused login leaves the session store
    as it was, and so does every login on Vercel. *)
Theorem login_iff_credentials (body : LoginBody)
    (clock : Readings) (random : jsstring) (sessions : Sessions) :
  (fst (login env codec body clock random sessions) <> LoginRefused <->
   trim (orDefault (body_username body) []) = AUTH_USERNAME env /\
   trim (orDefault (body_password body) []) = AUTH_PASSWORD env) /\
  (fst (login env codec body clock random sessions) = LoginRefused ->
   snd (login env codec body clock random sessions) = sessions) /\
  (isVercel env = true ->
   snd (login env codec body clock random sessions) = sessions).
Proof.
  unfold login. cbv zeta.
  destruct (strEq (trim (orDefault (body_username body) [])) (AUTH_USERNAME env))
    eqn:Eu;
  destruct (strEq (trim (orDefault (body_password body) [])) (AUTH_PASSWORD env))
    eqn:Ew; cbn [andb].
  1:{ apply strEq_true in Eu, Ew. destruct (isVercel env); cbn [fst snd].
      - repeat split; auto; discriminate.
      - repeat split; auto; discriminate. }
  all: cbn [fst snd]; split; [|split; reflexivity].
  all: split; [intros H; contradiction|intros [Hu Hw]].
  all: try (apply strEq_true in Hu; congruence).
  all: apply strEq_true in Hw; congruence.
Qed.

Lemma maxAgeOf_cases rememberme :
  (rememberme = Some (js "forever") /\ maxAgeOf rememberme = 2592000000%Z) \/
  (rememberme <> Some (js "forever") /\ maxAgeOf rememberme = 86400000%Z).
Proof.
  unfold maxAgeOf. destruct rememberme as [r|].
  - destruct (strEq r (js "forever")) eqn:E.
    + apply strEq_true in E. subst r. left. split; reflexivity.
    + right. split; [|reflexivity]. intros [= ->].
      rewrite strEq_refl in E. discriminate.
  - right. split; [discriminate|reflexivity].
Qed.

(** X22. The life of a local session: after a successful login off Vercel,
    a request for a protected path that presents the new session
    identifier is let through exactly as long as its time is before the
    login's clock reading plus the cookie's age: thirty days when
    [rememberme] is ['forever'], one day otherwise. *)
Theorem login_session_lifetime (body : LoginBody)
    (clock : Readings) (random : jsstring) (sessions : Sessions)
    (req : HttpRequest) (now : Z) :
  isVercel env = false ->
  trim (orDefault (body_username body) []) = AUTH_USERNAME env ->
  trim (orDefault (body_password body) []) = AUTH_PASSWORD env ->
  isPublicPath (req_path req) = false ->
  sessionIdOf req = Some (generateSessionId (atId clock) random) ->
  fst (login env codec body clock random sessions) =
    LoginOk (SessionCookie (generateSessionId (atId clock) random)
                           (maxAgeOf (body_rememberme body))) /\
  (fst (requireAuth env codec req now
          (snd (login env codec body clock random sessions))) = Next <->
   (now < atExpires clock + maxAgeOf (body_rememberme body))%Z) /\
  ((body_rememberme body = Some (js "forever") /\
    maxAgeOf (body_rememberme body) = 2592000000%Z) \/
   (body_rememberme body <> Some (js "forever") /\
    maxAgeOf (body_rememberme body) = 86400000%Z)).
Proof.
  intros Hv Hu Hw Hp Hs.
  rewrite (login_matches body clock random sessions Hu Hw), Hv. cbn [fst snd].
  split; [reflexivity|]. split; [|apply maxAgeOf_cases].
  rewrite (requireAuth_local req now _ Hp Hv), Hs.
  assert (Hid : exists c r, generateSessionId (atId clock) random = c :: r).
  { unfold generateSessionId.
    destruct (numToString (atId clock)) as [|c r];
      [|exists c, (r ++ js "-" ++ random); reflexivity].
    cbn [app]. change (js "-") with [45]. cbn [app]. eauto. }
  destruct Hid as (c & r & Hid). rewrite Hid, lookup_insert_eq. cbn [expiresAt].
  destruct (now <? atExpires clock + maxAgeOf (body_rememberme body))%Z eqn:Et;
    cbn [fst].
  - apply Z.ltb_lt in Et. tauto.
  - apply Z.ltb_ge in Et. split; [intros H; destruct (refuse_not_next _ H)|lia].
Qed.

(** X23. On Vercel the token handed out by a successful login passes
    [requireAuth] at every later request, whatever the time and the
    session store: nothing in the token is checked but its ending.  The codec is taken
    to give back the text of the token and not to encode it as the empty
    string. *)
Theorem vercel_token_never_expires (body : LoginBody)
    (clock : Readings) (random : jsstring) (sessions : Sessions) :
  isVercel env = true ->
  trim (orDefault (body_username body) []) = AUTH_USERNAME env ->
  trim (orDefault (body_password body) []) = AUTH_PASSWORD env ->
  fromBase64 codec (generateAuthToken env codec (atId clock) random) =
    numToString (atId clock) ++ js "-" ++ random ++ js "-" ++ AUTH_SECRET env ->
  generateAuthToken env codec (atId clock) random <> [] ->
  fst (login env codec body clock random sessions) =
    LoginOk (TokenCookie (generateAuthToken env codec (atId clock) random)
                         (maxAgeOf (body_rememberme body))) /\
  forall (req : HttpRequest) (now : Z) (store : Sessions),
    cookie_authToken req = Some (generateAuthToken env codec (atId clock) random) ->
    requireAuth env codec req now store = (Next, store).
Proof.
  intros Hv Hu Hw Hround Hne.
  rewrite (login_matches body clock random sessions Hu Hw), Hv.
  split; [reflexivity|]. intros req now store Hc.
  unfold requireAuth. destruct (isPublicPath (req_path req)); [reflexivity|].
  rewrite Hv, Hc. cbv zeta.
  assert (Ht : truthyOpt (Some (generateAuthToken env codec (atId clock) random)) = true).
  { apply truthyOpt_Some. eauto. }
  unfold validateAuthToken. rewrite Ht. cbn [negb andb].
  change (default [] (Some ?t)) with t. rewrite Hround.
  rewrite (app_assoc (numToString (atId clock))), (app_assoc _ random).
  rewrite endsWith_app. reflexivity.
Qed.

(** X24. On Vercel the verdict of [requireAuth] depends on the request
    alone: neither the time nor the session store, and so neither
    [/logout] nor the age of a token, changes it. *)
Theorem vercel_verdict_of_request_alone (req : HttpRequest) (now now' : Z)
    (store store' : Sessions) :
  isVercel env = true ->
  fst (requireAuth env codec req now store) =
  fst (requireAuth env codec req now' store') /\
  snd (requireAuth env codec req now store) = store.
Proof.
  intros Hv. unfold requireAuth.
  destruct (isPublicPath (req_path req)); [split; reflexivity|].
  rewrite Hv. cbv zeta. destruct (_ && _); split; reflexivity.
Qed.

(** X25. Off Vercel [/logout] ends the session of its cookie: a later
    request for a protected path presenting that identifier is refused at
    any time, and no other session is touched. *)
Theorem logout_ends_session (out req : HttpRequest) (now : Z) (sessions : Sessions)
    (sid : jsstring) :
  isVercel env = false ->
  isPublicPath (req_path req) = false ->
  cookie_sessionId out = Some sid ->
  sid <> [] ->
  sessionIdOf req = Some sid ->
  requireAuth env codec req now (logout out sessions) =
    (refuse req, logout out sessions) /\
  logout out sessions !! sid = None /\
  forall k, k <> sid -> logout out sessions !! k = sessions !! k.
Proof.
  intros Hv Hp Hc Hne Hs.
  assert (Hout : logout out sessions = delete sid sessions).
  { unfold logout. rewrite Hc. destruct sid; [contradiction|reflexivity]. }
  rewrite Hout, (requireAuth_local req now _ Hp Hv), Hs.
  destruct sid as [|c r]; [contradiction|].
  rewrite lookup_delete_eq. repeat split.
  intros k Hk. apply lookup_delete_ne. congruence.
Qed.

(** X26. The hourly sweep cannot be told from outside: at any time from
    the sweep on, [requireAuth] gives the same verdict with the swept
    store as with the store left alone, and the stores it leaves differ by
    the sweep only. *)
Theorem sweep_is_invisible (req : HttpRequest) (swept now : Z) (sessions : Sessions) :
  (swept <= now)%Z ->
  fst (requireAuth env codec req now (sweep swept sessions)) =
  fst (requireAuth env codec req now sessions) /\
  snd (requireAuth env codec req now (sweep swept sessions)) =
  sweep swept (snd (requireAuth env codec req now sessions)).
Proof.
  intros Hle.
  destruct (isPublicPath (req_path req)) eqn:Hp.
  { unfold requireAuth. rewrite Hp. split; reflexivity. }
  destruct (isVercel env) eqn:Hv.
  { unfold requireAuth. rewrite Hp, Hv. cbv zeta.
    destruct (_ && _); split; reflexivity. }
  rewrite !(requireAuth_local req now _ Hp Hv).
  destruct (sessionIdOf req) as [[|c r]|]; try (split; reflexivity).
  unfold sweep.
  destruct (sessions !! (c :: r)) as [session|] eqn:El.
  - destruct (decide (expiresAt session < swept)%Z) as [Hold|Hlive].
    + assert (Hgone : filter (fun entry : jsstring * Session =>
                                ~ (expiresAt entry.2 < swept)%Z) sessions
                        !! (c :: r) = None).
      { apply map_lookup_filter_None. right. intros x Hx.
        rewrite El in Hx. injection Hx as <-. cbn [snd]. tauto. }
      rewrite Hgone.
      assert (Et : (now <? expiresAt session)%Z = false) by (apply Z.ltb_ge; lia).
      rewrite Et. cbn [fst snd]. split; [reflexivity|].
      rewrite map_filter_delete, delete_id by exact Hgone. reflexivity.
    + assert (Hkept : filter (fun entry : jsstring * Session =>
                                ~ (expiresAt entry.2 < swept)%Z) sessions
                        !! (c :: r) = Some session).
      { apply map_lookup_filter_Some. split; [exact El|exact Hlive]. }
      rewrite Hkept. destruct (now <? expiresAt session)%Z; cbn [fst snd].
      * split; reflexivity.
      * split; [reflexivity|]. rewrite map_filter_delete. reflexivity.
  - assert (Hgone : filter (fun entry : jsstring * Session =>
                              ~ (expiresAt entry.2 < swept)%Z) sessions
                      !! (c :: r) = None).
    { apply map_lookup_filter_None. left. exact El. }
    rewrite Hgone. split; reflexivity.
Qed.

End Authentication.

(** ** More instances on the small site *)

Import TestMore.

(** The category of the site is found by a name in another letter case. *)
Lemma term_lookup_witness :
  getOrCreateTerm collaborators config (js " tutorials ") Categories (start blog) =
  (Some 5%Z,
   Build_State collaborators blog [Call (GetTerms Categories (js "tutorials"))] []).
Proof.
  exact (proj1 (proj2 (term_lookup_without_creation collaborators config
                         (js " tutorials ") Categories (start blog)))
           [] {| term_id := 5; term_name := js "Tutorials" |} []
           eq_refl eq_refl (List.Forall_nil _) eq_refl).
Defined.

Lemma resolveTerms_of_existing_terms_witness :
  fst (resolveTerms collaborators config (js "Tutorials, ,tutorials") Categories
         (start blog)) = [5%Z; 5%Z] /\
  world (snd (resolveTerms collaborators config (js "Tutorials, ,tutorials")
                Categories (start blog))) = blog.
Proof.
  destruct (resolveTerms_of_existing_terms collaborators config
              (js "Tutorials, ,tutorials") Categories (start blog) [5%Z; 5%Z])
    as (Hids & Hworld & _).
  - change (termNames (js "Tutorials, ,tutorials"))
      with [js "Tutorials"; js "tutorials"].
    repeat constructor; discriminate.
  - split; [exact Hids|exact Hworld].
Defined.

(** An image URL whose host does not answer. *)
Lemma uploadMedia_failures_witness :
  uploadMedia collaborators config (js " https://img.example/a.png") (start blog) =
  (Ok None,
   Build_State collaborators blog [Call (GetImage (js "https://img.example/a.png"))] []).
Proof.
  exact (proj1 (proj2 (uploadMedia_failures collaborators config
                         (js " https://img.example/a.png") (start blog)))
           unreachable eq_refl eq_refl).
Defined.

(** A row whose image file cannot be read. *)
Lemma row_fails_only_on_file_read_witness :
  validateRow (withFields (simpleRow "Brunch" "Text" None) None None (Some "locked.png"))
    = Ok tt /\
  error (fst (createOrUpdatePost lockedDisk config
                (withFields (simpleRow "Brunch" "Text" None) None None
                   (Some "locked.png"))
                1 (Build_State lockedDisk blog [] []))) =
  Some (errorText accessDenied).
Proof.
  split; [reflexivity|].
  destruct (row_fails_only_on_file_read lockedDisk config
              (withFields (simpleRow "Brunch" "Text" None) None None
                 (Some "locked.png"))
              1 (Build_State lockedDisk blog [] []) accessDenied)
    as (_ & _ & Hrun & _).
  - reflexivity.
  - vm_compute. reflexivity.
  - rewrite Hrun. reflexivity.
Defined.

Lemma seo_field_witness :
  buildMeta collaborators
    (withFields (simpleRow "Brunch" "Text" None) (Some "  About brunch ") None None)
    !! "rank_math_description"%string =
  Some (MStr (js "About brunch")).
Proof.
  exact (proj1 (seo_field_stored_iff_not_blank collaborators
                  (withFields (simpleRow "Brunch" "Text" None)
                     (Some "  About brunch ") None None))
           "rank_math_description"%string (Some (js "  About brunch "))
           (or_intror (or_introl eq_refl))).
Defined.

Lemma malformed_json_witness :
  createOrUpdatePost collaborators config
    (withFields (simpleRow "Brunch" "Text" None) None (Some "{oops") None)
    1 (start blog) =
  createOrUpdatePost collaborators config
    (withoutJson (withFields (simpleRow "Brunch" "Text" None) None (Some "{oops") None))
    1 (start blog).
Proof.
  apply (malformed_json_is_dropped collaborators config
           (withFields (simpleRow "Brunch" "Text" None) None (Some "{oops") None)
           1 (start blog)).
  - intros s _. reflexivity.
  - intros s _. reflexivity.
Defined.

Lemma written_payload_witness :
  pd_title (snd (lastWrite
      (trace (snd (run (simpleRow " My first post " "Text"
                          (Some "my-first-post")) blog)))
      (simpleRow " My first post " "Text" (Some "my-first-post")))) =
  js "My first post".
Proof.
  destruct (written_payload collaborators config
              (simpleRow " My first post " "Text" (Some "my-first-post")) 1
              (start blog)
              (trace (snd (run (simpleRow " My first post " "Text"
                                  (Some "my-first-post")) blog)))
              (fst (lastWrite
                 (trace (snd (run (simpleRow " My first post " "Text"
                                     (Some "my-first-post")) blog)))
                 (simpleRow " My first post " "Text" (Some "my-first-post"))))
              (snd (lastWrite
                 (trace (snd (run (simpleRow " My first post " "Text"
                                     (Some "my-first-post")) blog)))
                 (simpleRow " My first post " "Text" (Some "my-first-post")))))
    as (Htitle & _).
  - symmetry. apply app_nil_r.
  - vm_compute. left. reflexivity.
  - rewrite Htitle. vm_compute. reflexivity.
Defined.

(** The title of post 7, written with other spaces and letters. *)
Lemma reported_duplicate_witness :
  exists pre q post,
    scannedCorpus collaborators blog = pre ++ q :: post /\
    titleMatches collaborators
      (normalizeTitle (toLowerCase collaborators) (js "hello   WORLD")) q = true /\
    post_id q = 7%Z /\
    Forall (fun p => titleMatches collaborators
                       (normalizeTitle (toLowerCase collaborators)
                          (js "hello   WORLD")) p = false) pre.
Proof.
  apply (proj1 (reported_duplicate_is_first_match collaborators
                  (js "hello   WORLD") (start blog)) 7%Z).
  vm_compute. reflexivity.
Defined.

Lemma batch_fails_witness :
  snd (processCsvFile collaborators config (Ok []) (start blog)) =
  Build_State collaborators blog [Call GetPostsProbe] [].
Proof.
  apply (batch_fails_before_first_row collaborators config (Ok []) (start blog)
           (newError (js "CSV file is empty"))).
  reflexivity.
Defined.

Lemma main_exit_code_witness :
  fst (main collaborators config (Ok threeRows) (start blog)) = 0%Z \/
  fst (main collaborators config (Ok threeRows) (start blog)) = 1%Z.
Proof.
  apply (main_exit_code collaborators config (Ok threeRows) (start blog)).
  reflexivity.
Defined.

(** The three rows, uploaded: status 200 or one of the three failures. *)
Lemma upload_answers_witness :
  (exists posts rows summary,
     get_posts_probe collaborators blog = Ok posts /\
     Ok threeRows = Ok rows /\ rows <> [] /\
     fst (Server.upload collaborators config (Some (Ok threeRows)) None
            1700000000000 TestServer.fsFine (start blog)) =
       Server.Status200 summary (js "1700000000000") /\
     total summary = length rows /\
     length (results summary) = length rows) \/
  (exists msg,
     Server.upload collaborators config (Some (Ok threeRows)) None
       1700000000000 TestServer.fsFine (start blog) =
       (Server.Status500 msg (js "1700000000000"),
        Build_State collaborators blog [Call GetPostsProbe] []) /\
     ((exists e0, get_posts_probe collaborators blog = Fail e0) /\
      msg = js "WordPress REST API is not accessible. Check your configuration."
      \/
      (exists posts e0, get_posts_probe collaborators blog = Ok posts /\
         Ok threeRows = Fail e0 /\ msg = js "Failed to load CSV: " ++ err_message e0)
      \/
      (exists posts, get_posts_probe collaborators blog = Ok posts /\
         Ok threeRows = Ok [] /\ msg = js "CSV file is empty"))).
Proof.
  exact (upload_answers collaborators config (Some (Ok threeRows)) None
           1700000000000 TestServer.fsFine (start blog) eq_refl eq_refl).
Defined.

Lemma normalized_title_form_witness :
  matchTag (js " world") = None /\
  matchEntity (js " world") = None /\
  (spanSpaces (js " world") <= 1)%nat.
Proof.
  destruct (normalized_title_form asciiLowerCase (js "<b>Hello</b>&nbsp;  World")
              (js "hello") (js " world")) as (H1 & H2 & H3 & _).
  - apply asciiLowerCase_keeps_markup.
  - apply asciiLowerCase_leaves_no_capital.
  - vm_compute. reflexivity.
  - split; [exact H1|]. split; [exact H2|exact H3].
Defined.

Lemma inserted_tag_witness :
  normalizeTitle asciiLowerCase
    (js "Hello " ++ [LT_SIGN] ++ js "b" ++ [GT_SIGN] ++ js "World</b>") =
  normalizeTitle asciiLowerCase (js "Hello " ++ js "World</b>").
Proof.
  apply (inserted_tag_is_ignored asciiLowerCase (js "Hello ") (js "b")
           (js "World</b>")); reflexivity.
Defined.

Lemma titles_equal_up_to_case_witness :
  normalizeTitle asciiLowerCase (js "Weekend Brunch") =
  normalizeTitle asciiLowerCase (js "WEEKEND brunch").
Proof.
  apply (titles_equal_up_to_case asciiLowerCase (js "Weekend Brunch")
           (js "WEEKEND brunch")); try reflexivity.
  apply asciiLowerCase_on_basic_latin.
Defined.


(** The slug of post 7, while the slug lookup is down: a second post with
    that slug is created. *)
Lemma create_when_slug_lookup_fails_witness :
  action (fst (createOrUpdatePost slugLookupDown config
                 (simpleRow "New" "Text" (Some "hello-world")) 1
                 (Build_State slugLookupDown blog [] []))) = Some created /\
  postId (fst (createOrUpdatePost slugLookupDown config
                 (simpleRow "New" "Text" (Some "hello-world")) 1
                 (Build_State slugLookupDown blog [] []))) = Some 20%Z.
Proof.
  refine (proj2 (proj2 (create_when_slug_lookup_gives_nothing slugLookupDown config
            (simpleRow "New" "Text" (Some "hello-world")) 1
            (Build_State slugLookupDown blog [] [])
            (preparePostData slugLookupDown config
               (simpleRow "New" "Text" (Some "hello-world")))
            (Build_State slugLookupDown blog [] [])
            eq_refl eq_refl _ (or_intror (or_introl (ex_intro _ unreachable eq_refl)))))
            _ _ eq_refl).
  vm_compute. reflexivity.
Defined.

(** *** Sessions and tokens *)

Import Server.
Import TestServer.

(** A day's session, asked for a second before its end and at its end. *)
Lemma login_session_lifetime_witness :
  (fst (requireAuth localEnv codec
          (withCookie "/upload" (generateSessionId 1000 (js "k3x9")))
          (1000 + 86400000 - 1)
          (snd (login localEnv codec (credentials None) (clock 1000) (js "k3x9") ∅)))
   = Next <->
   (1000 + 86400000 - 1 < atExpires (clock 1000) + maxAgeOf None)%Z).
Proof.
  apply (login_session_lifetime localEnv codec (credentials None) (clock 1000)
           (js "k3x9") ∅
           (withCookie "/upload" (generateSessionId 1000 (js "k3x9")))
           (1000 + 86400000 - 1)); reflexivity.
Defined.

(** The token of a login at time 1000, presented much later. *)
Lemma vercel_token_witness :
  requireAuth vercelEnv codec
    (withToken "/upload" (generateAuthToken vercelEnv codec 1000 (js "k3x9")))
    9999999999999 twoSessions =
  (Next, twoSessions).
Proof.
  apply (vercel_token_never_expires vercelEnv codec (credentials None)
           (clock 1000) (js "k3x9") ∅); try reflexivity.
  vm_compute. discriminate.
Defined.

Lemma vercel_verdict_witness :
  fst (requireAuth vercelEnv codec (withCookie "/upload" (js "1000-abc")) 4000
         twoSessions) =
  fst (requireAuth vercelEnv codec (withCookie "/upload" (js "1000-abc")) 0 ∅) /\
  snd (requireAuth vercelEnv codec (withCookie "/upload" (js "1000-abc")) 4000
         twoSessions) = twoSessions.
Proof.
  apply (vercel_verdict_of_request_alone vercelEnv codec
           (withCookie "/upload" (js "1000-abc")) 4000 0 twoSessions ∅).
  reflexivity.
Defined.

Lemma logout_ends_session_witness :
  requireAuth localEnv codec (withCookie "/upload" (js "1000-abc")) 4000
    (logout (withCookie "/logout" (js "1000-abc")) twoSessions) =
  (refuse (withCookie "/upload" (js "1000-abc")),
   logout (withCookie "/logout" (js "1000-abc")) twoSessions).
Proof.
  apply (logout_ends_session localEnv codec
           (withCookie "/logout" (js "1000-abc"))
           (withCookie "/upload" (js "1000-abc")) 4000 twoSessions (js "1000-abc"));
    try reflexivity.
  discriminate.
Defined.

(** A sweep at 6000 removes the session that ended at 5000; a request at
    7000 cannot tell. *)
Lemma sweep_is_invisible_witness :
  fst (requireAuth localEnv codec (withCookie "/" (js "1000-abc")) 7000
         (sweep 6000 twoSessions)) =
  fst (requireAuth localEnv codec (withCookie "/" (js "1000-abc")) 7000 twoSessions).
Proof.
  apply (sweep_is_invisible localEnv codec (withCookie "/" (js "1000-abc"))
           6000 7000 twoSessions).
  lia.
Defined.
